(** * ONNX importer: [Graph] and [Subgraph] (frontends/onnx, core/graph.cpp)

    A shallow embedding of the graph importer: the constructor that
    materialises initializers, creates input placeholders and verifies
    operator availability; per-node conversion with its failure policy;
    friendly naming; dangling-parameter pruning; result naming; and the
    lifting of parent-scope values into subgraph parameters.

    IR nodes are shared mutable objects in the source ([shared_ptr<Node>]),
    so they live in a store indexed by node id, and an [Output] is a pair
    (node id, port index).  Failures are C++ exceptions: every effectful
    function returns an [outcome] together with the store and the log, both
    of which survive a throw. *)

From Stdlib Require Import String Ascii List ZArith NArith Lia Bool Sorted OrdersEx.
From stdpp Require Import base option list gmap strings pretty.

Local Open Scope string_scope.
Local Open Scope list_scope.

(** ** Strings *)

Definition nl : string := String (ascii_of_nat 10) EmptyString.

(** [std::to_string] on an unsigned index. *)
Definition to_string_index (n : nat) : string := pretty n.

(** ** Exceptions

    The dynamic class of a thrown object decides which handler takes it.
    [CheckFailure], [OnnxNodeValidationFailure] and [invalid_external_data]
    derive from [ngraph_error], which derives from [std::exception];
    [unrecognized] stands for a thrown object outside that hierarchy, the
    one only [catch (...)] takes. *)

Inductive exn_class : Type :=
| invalid_external_data
| OnnxNodeValidationFailure
| CheckFailure
| ngraph_error
| std_exception
| unrecognized.

Record exn : Type := mk_exn { exn_cls : exn_class; what : string }.

Definition is_invalid_external_data (e : exn) : bool :=
  match exn_cls e with invalid_external_data => true | _ => false end.

Definition is_OnnxNodeValidationFailure (e : exn) : bool :=
  match exn_cls e with OnnxNodeValidationFailure => true | _ => false end.

Definition is_ngraph_error (e : exn) : bool :=
  match exn_cls e with
  | invalid_external_data | OnnxNodeValidationFailure | CheckFailure | ngraph_error => true
  | std_exception | unrecognized => false
  end.

Definition is_std_exception (e : exn) : bool :=
  match exn_cls e with unrecognized => false | _ => true end.

Inductive outcome (A : Type) : Type :=
| Ok (a : A)
| Throw (e : exn).
Arguments Ok {A} a.
Arguments Throw {A} e.

(** ** The decoded model (protobuf messages) *)

Inductive element_type : Type :=
| et_undefined | et_dynamic | et_boolean | et_bf16 | et_f16 | et_f32 | et_f64
| et_i8 | et_i16 | et_i32 | et_i64 | et_u8 | et_u16 | et_u32 | et_u64.

Definition Shape : Type := list N.
(** A dimension is static or dynamic; a partial shape has a static rank or none. *)
Definition PartialShape : Type := option (list (option N)).

(** [tp_name = None] is a message whose [has_name()] is false.  The data
    type is kept as the IR element type it maps to. *)
Record TensorProto : Type := mk_TensorProto {
  tp_name : option string;
  tp_data_type : element_type;
  tp_dims : Shape;
  tp_raw_data : list Z;
  tp_external_location : option string
}.

Definition has_name (t : TensorProto) : bool :=
  match tp_name t with Some _ => true | None => false end.
Definition name_of (t : TensorProto) : string := default "" (tp_name t).

Record ValueInfoProto : Type := mk_ValueInfoProto {
  vi_name : string;
  vi_elem_type : element_type;
  vi_shape : PartialShape
}.

(** A node carries its graph attributes (control-flow bodies) by name. *)
Inductive NodeProto : Type :=
| mk_NodeProto (domain op_type name : string) (input output : list string)
               (graphs : list (string * GraphProto))
with GraphProto : Type :=
| mk_GraphProto (name : string) (initializer : list TensorProto)
                (input : list ValueInfoProto) (node : list NodeProto)
                (output : list ValueInfoProto).

Definition np_domain (n : NodeProto) : string :=
  match n with mk_NodeProto d _ _ _ _ _ => d end.
Definition np_op_type (n : NodeProto) : string :=
  match n with mk_NodeProto _ t _ _ _ _ => t end.
Definition np_name (n : NodeProto) : string :=
  match n with mk_NodeProto _ _ nm _ _ _ => nm end.
Definition np_input (n : NodeProto) : list string :=
  match n with mk_NodeProto _ _ _ i _ _ => i end.
Definition np_output (n : NodeProto) : list string :=
  match n with mk_NodeProto _ _ _ _ o _ => o end.
Definition np_graphs (n : NodeProto) : list (string * GraphProto) :=
  match n with mk_NodeProto _ _ _ _ _ g => g end.

Definition gp_name (g : GraphProto) : string :=
  match g with mk_GraphProto nm _ _ _ _ => nm end.
Definition gp_initializer (g : GraphProto) : list TensorProto :=
  match g with mk_GraphProto _ i _ _ _ => i end.
Definition gp_input (g : GraphProto) : list ValueInfoProto :=
  match g with mk_GraphProto _ _ i _ _ => i end.
Definition gp_node (g : GraphProto) : list NodeProto :=
  match g with mk_GraphProto _ _ _ n _ => n end.
Definition gp_output (g : GraphProto) : list ValueInfoProto :=
  match g with mk_GraphProto _ _ _ _ o => o end.

Record ModelProto : Type := mk_ModelProto {
  mp_graph : GraphProto;
  mp_opset_import : list (string * Z)
}.

(** [get_node_domain]: the domain field, empty when unset. *)
Definition get_node_domain (n : NodeProto) : string := np_domain n.

(** ** The IR store *)

Abbreviation Output := (nat * nat)%type.
Abbreviation OutputVector := (list Output).

Record ConstantData : Type := mk_ConstantData {
  cd_type : element_type;
  cd_shape : Shape;
  cd_values : list Z
}.

Inductive NodeKind : Type :=
| op_Parameter
| op_Constant (d : ConstantData)
| op_Result
| op_NullNode
| op_MultiSubGraphOp
| op_ONNXFrameworkNode
| op_ONNXSubgraphFrameworkNode
| op_Other (type_name : string).

(** The descriptor of one output port: the binding names, the deprecated
    single name, and the element type and partial shape. *)
Record Tensor : Type := mk_Tensor {
  t_names : gset string;
  t_name : string;
  t_element_type : element_type;
  t_partial_shape : PartialShape
}.

Record IRNode : Type := mk_IRNode {
  n_kind : NodeKind;
  n_friendly_name : string;
  n_inputs : list Output;
  n_outputs : list Tensor
}.

Inductive log_entry : Type :=
| NGRAPH_WARN (msg : string)
| NGRAPH_ERR (msg : string).

Record telemetry_event : Type := mk_event {
  ev_category : string;
  ev_action : string;
  ev_value : N
}.

Record World : Type := mk_World {
  w_nodes : list IRNode;
  w_log : list log_entry;
  w_events : list telemetry_event
}.

Definition empty_world : World := mk_World [] [] [].

(** ** Effects: store and log passing with exceptions *)

Definition M (A : Type) : Type := World → outcome A * World.

Definition ret {A} (a : A) : M A := λ w, (Ok a, w).
Definition throw {A} (e : exn) : M A := λ w, (Throw e, w).
Definition bind {A B} (c : M A) (k : A → M B) : M B :=
  λ w, match c w with
       | (Ok a, w') => k a w'
       | (Throw e, w') => (Throw e, w')
       end.

Notation "'let*' x ':=' c 'in' k" := (bind c (λ x, k))
  (at level 10, x pattern, c at level 200, k at level 200,
   format "'[v' 'let*'  x  ':='  c  'in' '/' k ']'").

(** A range-based [for] whose body may throw. *)
Definition for_each {A S} (body : S → A → M S) : list A → S → M S :=
  fix go (l : list A) (s : S) : M S :=
    match l with
    | [] => ret s
    | a :: r => let* s' := body s a in go r s'
    end.

Definition lift_outcome {A} (o : outcome A) : M A := λ w, (o, w).

(** Reading the store leaves it as it is. *)
Definition read {A} (f : World → A) : M A := λ w, (Ok (f w), w).

(** [try { c } catch (e) { handler e }]; a handler rethrows with [throw]. *)
Definition try_catch {A} (c : M A) (handler : exn → M A) : M A :=
  λ w, match c w with
       | (Ok a, w') => (Ok a, w')
       | (Throw e, w') => handler e w'
       end.

Definition write_log (e : log_entry) : M unit :=
  λ w, (Ok tt, mk_World (w_nodes w) (w_log w ++ [e]) (w_events w)).

Definition send_event (category action : string) (value : N) : M unit :=
  λ w, (Ok tt, mk_World (w_nodes w) (w_log w)
                        (w_events w ++ [mk_event category action value])).

(** [std::make_shared<...>]: a new node gets the next id. *)
Definition alloc (n : IRNode) : M nat :=
  λ w, (Ok (length (w_nodes w)),
        mk_World (w_nodes w ++ [n]) (w_log w) (w_events w)).

Definition update_node (id : nat) (f : IRNode → IRNode) : M unit :=
  λ w, (Ok tt, mk_World (alter f id (w_nodes w)) (w_log w) (w_events w)).

Definition set_friendly_name_of (name : string) (n : IRNode) : IRNode :=
  mk_IRNode (n_kind n) name (n_inputs n) (n_outputs n).

Definition on_output (k : nat) (f : Tensor → Tensor) (n : IRNode) : IRNode :=
  mk_IRNode (n_kind n) (n_friendly_name n) (n_inputs n) (alter f k (n_outputs n)).

Definition set_input_of (i : nat) (src : Output) (n : IRNode) : IRNode :=
  mk_IRNode (n_kind n) (n_friendly_name n) (<[i := src]> (n_inputs n)) (n_outputs n).

Definition set_friendly_name (id : nat) (name : string) : M unit :=
  update_node id (set_friendly_name_of name).

Definition tensor_set_names (names : gset string) (t : Tensor) : Tensor :=
  mk_Tensor names (t_name t) (t_element_type t) (t_partial_shape t).
Definition tensor_add_names (names : gset string) (t : Tensor) : Tensor :=
  mk_Tensor (t_names t ∪ names) (t_name t) (t_element_type t) (t_partial_shape t).
Definition tensor_set_name (name : string) (t : Tensor) : Tensor :=
  mk_Tensor (t_names t) name (t_element_type t) (t_partial_shape t).

Definition set_names (o : Output) (names : gset string) : M unit :=
  update_node o.1 (on_output o.2 (tensor_set_names names)).
Definition add_names (o : Output) (names : gset string) : M unit :=
  update_node o.1 (on_output o.2 (tensor_add_names names)).
Definition set_name (o : Output) (name : string) : M unit :=
  update_node o.1 (on_output o.2 (tensor_set_name name)).

(** Read-only accessors on the store. *)
Definition node_at (w : World) (id : nat) : option IRNode := w_nodes w !! id.

(** The friendly name a node was given (a node never given one answers
    with its unique name in the source; here with the empty name). *)
Definition get_friendly_name (w : World) (id : nat) : string :=
  match node_at w id with Some n => n_friendly_name n | None => "" end.

Definition tensor_of (w : World) (o : Output) : option Tensor :=
  n ← node_at w o.1; n_outputs n !! o.2.

Definition get_names (w : World) (o : Output) : gset string :=
  match tensor_of w o with Some t => t_names t | None => ∅ end.

Definition kind_of (w : World) (id : nat) : option NodeKind :=
  n_kind <$> node_at w id.

Definition is_null (w : World) (o : Output) : bool :=
  match kind_of w o.1 with Some op_NullNode => true | _ => false end.

Definition is_constant (w : World) (id : nat) : bool :=
  match kind_of w id with Some (op_Constant _) => true | _ => false end.

Definition is_subgraph_op (w : World) (id : nat) : bool :=
  match kind_of w id with
  | Some op_MultiSubGraphOp | Some op_ONNXSubgraphFrameworkNode => true
  | _ => false
  end.

Definition input_values (w : World) (id : nat) : list Output :=
  match node_at w id with Some n => n_inputs n | None => [] end.

(** [get_target_inputs]: the input slots, over the whole store, that read
    the given output.  The store keeps every node that was created: it
    has no account of a node the source has let go of (a converted node
    that no cache entry, function or other node holds any more), whose
    input slots the source no longer counts.  Statements about consumers
    are therefore made call by call, on a store whose nodes are the
    ones alive at the call. *)
Definition slots_reading (o : Output) (id : nat) (n : IRNode) : list (nat * nat) :=
  omap (λ '(i, src), if decide (src = o) then Some (id, i) else None)
       (imap (λ i src, (i, src)) (n_inputs n)).

Definition get_target_inputs (w : World) (o : Output) : list (nat * nat) :=
  mjoin (imap (slots_reading o) (w_nodes w)).

(** ** Ordered maps ([std::map] with string keys)

    Kept as a list sorted by key, so that iteration visits the keys in
    the order the source's iterator does. *)

Abbreviation smap V := (list (string * V)).

(** [emplace]: inserts unless the key is present. *)
Fixpoint smap_emplace {V} (k : string) (v : V) (m : smap V) : smap V :=
  match m with
  | [] => [(k, v)]
  | (k', v') :: r =>
      if String.eqb k k' then m
      else if String.ltb k k' then (k, v) :: m
      else (k', v') :: smap_emplace k v r
  end.

Definition two64 : N := 2 ^ 64.

(** [m[k]++] on a [uint64_t] counter, value-initialised to zero. *)
Fixpoint smap_increment (k : string) (m : smap N) : smap N :=
  match m with
  | [] => [(k, 1 mod two64)%N]
  | (k', v') :: r =>
      if String.eqb k k' then (k', ((v' + 1) mod two64)%N) :: r
      else if String.ltb k k' then (k, 1 mod two64)%N :: m
      else (k', v') :: smap_increment k r
  end.

(** ** Graph cache

    Modelled from the spec: GraphCache (graph_cache.hpp is not among the
    sources).  A mapping from tensor name to one IR output with
    [contains], [get_node] (a failure when the name is absent),
    [emplace_node] (last write wins) and [remove_node]. *)

Abbreviation GraphCache := (gmap string Output).

Definition contains (c : GraphCache) (name : string) : bool :=
  bool_decide (is_Some (c !! name)).

Definition get_node (c : GraphCache) (name : string) : outcome Output :=
  match c !! name with
  | Some o => Ok o
  | None => Throw (mk_exn ngraph_error (name +:+ " node not found in graph cache"))
  end.

Definition emplace_node (name : string) (o : Output) (c : GraphCache) : GraphCache :=
  <[name := o]> c.

Definition remove_node (name : string) (c : GraphCache) : GraphCache :=
  delete name c.

(** ** Importer objects *)

Section Objects.
Context {Registry : Type}.

(** [Model]: the protobuf model and the operator sets enabled for it. *)
Record Model : Type := mk_Model {
  model_proto : ModelProto;
  m_opset : Registry
}.

Definition get_graph (m : Model) : GraphProto := mp_graph (model_proto m).

Record Graph : Type := mk_Graph {
  m_model : Model;
  m_cache : GraphCache;
  m_parameters : list nat;
  m_telemetry : bool
}.

(** A [Subgraph] is a [Graph] with a read-only handle on the enclosing
    scopes (their caches, innermost first), the names borrowed from the
    parent and the parameter standing in for each. *)
Record Subgraph : Type := mk_Subgraph {
  sg_graph : Graph;
  m_parent_graph : list GraphCache;
  m_parameter_to_parent_node_map : gmap nat string;
  m_inputs_from_parent : list string
}.

(** [Node]: a node of the model bound to the graph that converts it (its
    scopes, innermost first) with the subgraphs of its graph attributes. *)
Record Node : Type := mk_Node {
  node_proto : NodeProto;
  node_graph : list GraphCache;
  get_subgraphs : list (string * Subgraph)
}.

Definition Node_op_type (n : Node) : string := np_op_type (node_proto n).
Definition Node_domain (n : Node) : string := get_node_domain (node_proto n).
Definition Node_get_name (n : Node) : string := np_name (node_proto n).
Definition get_outputs_size (n : Node) : nat := length (np_output (node_proto n)).
Definition has_subgraphs (n : Node) : bool :=
  match get_subgraphs n with [] => false | _ => true end.

(** [Node::output(i)].  The protobuf accessor is unchecked past the end;
    the model throws there. *)
Definition Node_output (n : Node) (i : nat) : outcome string :=
  match np_output (node_proto n) !! i with
  | Some s => Ok s
  | None => Throw (mk_exn std_exception "output index out of range")
  end.
End Objects.
Arguments Model : clear implicits.
Arguments Graph : clear implicits.
Arguments Subgraph : clear implicits.
Arguments Node : clear implicits.

(** The IR function handed to the caller: results and parameters in order. *)
Record ov_Function : Type := mk_Function {
  f_results : list nat;
  f_parameters : list nat;
  f_name : string;
  f_rt_info_graph : bool
}.

(** ** Collaborators outside this file

    The operator registry held by [Model], the tensor decoder, the
    conversion functions, the framework-node constructors and the error
    prefix are defined elsewhere in the importer; the development is
    parametric in them. *)

Class Environment : Type := {
  Registry : Type;
  (** the operator sets [Model]'s constructor enables from the opset imports *)
  Model_opset : ModelProto → Registry;
  is_operator_available : Registry → NodeProto → bool;
  enable_opset_domain : Registry → string → Registry;
  (** [Model::get_operator(op_type, domain)] *)
  get_operator : Registry → string → string → outcome (Node Registry → M OutputVector);
  (** [Tensor::get_ng_constant]: the decoded constant, or the failure thrown *)
  get_ng_constant : TensorProto → outcome ConstantData;
  (** [error::detail::get_error_msg_prefix] *)
  get_error_msg_prefix : Node Registry → string;
  (** [ONNXFrameworkNode] and [ONNXSubgraphFrameworkNode] constructors:
      the outputs of the placeholder node they build *)
  (** [Node::get_ng_inputs]: the IR outputs bound to the node's input names *)
  get_ng_inputs : Node Registry → M OutputVector;
  make_framework_node : Node Registry → M OutputVector;
  make_subgraph_framework_node :
    Node Registry → list ov_Function → OutputVector → M OutputVector
}.

Section Importer.
Context {Env : Environment}.

(** ** namespace detail *)

Definition to_string_loop {V} : smap V → bool → string → string :=
  fix go (m : smap V) (at_begin : bool) (result : string) : string :=
    match m with
    | [] => result
    | (k, _) :: r => go r false (result +:+ ((if at_begin then "" else ", ") +:+ k))
    end.

Definition to_string {V} (map : smap V) : string := to_string_loop map true "".

Definition get_op_domain_and_name (node_proto : NodeProto) : string :=
  let domain := get_node_domain node_proto in
  (if String.eqb domain "" then "" else domain +:+ ".") +:+ np_op_type node_proto.

(** [outputs.at(0)] throws on an empty vector. *)
Definition common_node_for_all_outputs (outputs : OutputVector) : outcome bool :=
  match outputs with
  | [] => Throw (mk_exn std_exception "vector::_M_range_check")
  | first :: rest => Ok (forallb (λ o : Output, Nat.eqb o.1 first.1) rest)
  end.

(** ** Graph::Graph *)

Definition constant_node (d : ConstantData) : IRNode :=
  mk_IRNode (op_Constant d) "" []
    [mk_Tensor ∅ "" (cd_type d) (Some (map Some (cd_shape d)))].

Definition initializer_warning (name detail : string) : string :=
  nl +:+ "Could not create an nGraph Constant for initializer '" +:+ name
     +:+ "'. Constant with a 0 value was created, make sure connected input is optional."
     +:+ nl +:+ "Otherwise verify if the initializer contains a correct number of "
     +:+ "elements matching the initializer's shape. " +:+ nl +:+ "Detailed error:" +:+ nl
     +:+ detail.

(** The [try] block around [tensor.get_ng_constant()] and its handlers. *)
Definition make_initializer_constant (initializer_tensor : TensorProto) : M nat :=
  match get_ng_constant initializer_tensor with
  | Ok d => alloc (constant_node d)
  | Throw exc =>
      if is_invalid_external_data exc then throw exc
      else if is_ngraph_error exc then
        let* _ := write_log (NGRAPH_WARN
                    (initializer_warning (name_of initializer_tensor) (what exc))) in
        alloc (constant_node (mk_ConstantData (tp_data_type initializer_tensor) [] [0%Z]))
      else throw exc
  end.

Definition process_initializer (st : gmap string TensorProto * GraphCache)
    (initializer_tensor : TensorProto) : M (gmap string TensorProto * GraphCache) :=
  let '(initializers, cache) := st in
  if has_name initializer_tensor then
    let name := name_of initializer_tensor in
    let* ng_constant := make_initializer_constant initializer_tensor in
    let initializers' :=
      match initializers !! name with
      | Some _ => initializers
      | None => <[name := initializer_tensor]> initializers
      end in
    let* _ := set_names (ng_constant, 0) {[name]} in
    ret (initializers', emplace_node name (ng_constant, 0) cache)
  else ret st.

Definition parameter_node (input : ValueInfoProto) : IRNode :=
  mk_IRNode op_Parameter (vi_name input) []
    [mk_Tensor {[vi_name input]} "" (vi_elem_type input) (vi_shape input)].

(** Modelled from the spec: ValueInfo::get_ng_node (value_info.hpp is not
    among the sources).  It creates an input placeholder with the input's
    declared type and shape, bound to the input's name, and appends it to
    the graph's ordered parameter list.  The spec gives the initializer
    table no part in it. *)
Definition get_ng_node (input : ValueInfoProto) (parameters : list nat)
    (initializers : gmap string TensorProto) : M (nat * list nat) :=
  let* p := alloc (parameter_node input) in
  ret (p, parameters ++ [p]).

Definition process_input (initializers : gmap string TensorProto)
    (st : GraphCache * list nat) (input : ValueInfoProto) : M (GraphCache * list nat) :=
  let '(cache, parameters) := st in
  if contains cache (vi_name input) then ret st
  else
    let* r := get_ng_node input parameters initializers in
    ret (emplace_node (vi_name input) (r.1, 0) cache, r.2).

Record scan_state : Type := mk_scan {
  unknown_operators : smap NodeProto;
  op_statistics : smap N;
  scan_opset : Registry
}.

Definition scan_node (telemetry : bool) (s : scan_state) (node_proto : NodeProto)
    : scan_state :=
  let stats :=
    if telemetry then smap_increment (np_op_type node_proto) (op_statistics s)
    else op_statistics s in
  if negb (is_operator_available (scan_opset s) node_proto) then
    mk_scan (smap_emplace (get_op_domain_and_name node_proto) node_proto
                          (unknown_operators s))
            stats
            (enable_opset_domain (scan_opset s) (get_node_domain node_proto))
  else mk_scan (unknown_operators s) stats (scan_opset s).

Definition scan_nodes (telemetry : bool) (nodes : list NodeProto) (opset : Registry)
    : scan_state :=
  fold_left (scan_node telemetry) nodes (mk_scan [] [] opset).

Definition send_op_statistics (stats : smap N) : M unit :=
  for_each (λ _ op, send_event "op_count" ("onnx_" +:+ op.1) op.2) stats tt.

(** The erase loop: what stays is what is still unavailable. *)
Definition reverify (opset : Registry) (unknown : smap NodeProto) : smap NodeProto :=
  filter (λ kv, is_operator_available opset kv.2 = false) unknown.

Definition unsupported_message (unknown : smap NodeProto) : string :=
  "nGraph does not support the following ONNX operations: " +:+ to_string unknown.

Definition NGRAPH_CHECK (cond : bool) (explanation : string) : M unit :=
  if cond then ret tt else throw (mk_exn CheckFailure explanation).

Definition is_empty {V} (m : smap V) : bool :=
  match m with [] => true | _ => false end.

Definition Graph_ctor (model_proto : ModelProto) (cache : GraphCache) (telemetry : bool)
    : M (Graph Registry) :=
  let graph := mp_graph model_proto in
  let* st1 := for_each process_initializer (gp_initializer graph) (∅, cache) in
  let '(initializers, cache1) := st1 in
  let* st2 := for_each (process_input initializers) (gp_input graph) (cache1, []) in
  let '(cache2, parameters) := st2 in
  let s := scan_nodes telemetry (gp_node graph) (Model_opset model_proto) in
  let* _ := (if telemetry then send_op_statistics (op_statistics s) else ret tt) in
  let unknown := reverify (scan_opset s) (unknown_operators s) in
  let* _ := NGRAPH_CHECK (is_empty unknown) (unsupported_message unknown) in
  ret (mk_Graph (mk_Model model_proto (scan_opset s)) cache2 parameters telemetry).

(** The public constructor delegates with a fresh cache. *)
Definition Graph_new (model_proto : ModelProto) (telemetry : bool) : M (Graph Registry) :=
  Graph_ctor model_proto ∅ telemetry.

(** ** Scope resolution

    A graph answers from its own cache; a subgraph asks its own cache
    and then the enclosing graph.  [scopes] lists the caches innermost
    first: one for a [Graph], the local one and the parent's chain for
    a [Subgraph]. *)

Definition is_ng_node_in_cache (scopes : list GraphCache) (name : string) : bool :=
  existsb (λ c, contains c name) scopes.

Fixpoint get_ng_node_from_cache (scopes : list GraphCache) (name : string)
    : outcome Output :=
  match scopes with
  | [] => Throw (mk_exn ngraph_error (name +:+ " node not found in graph cache"))
  | [c] => get_node c name
  | c :: parent => if contains c name then get_node c name
                   else get_ng_node_from_cache parent name
  end.

(** ** Graph::set_friendly_names *)

Definition name_identity_outputs (onnx_node : Node Registry)
    : nat → OutputVector → M unit :=
  fix go (i : nat) (outputs : OutputVector) : M unit :=
    match outputs with
    | [] => ret tt
    | o :: rest =>
        let* out_name := lift_outcome (Node_output onnx_node i) in
        let* _ := add_names o {[out_name]} in
        go (S i) rest
    end.

Definition name_outputs (onnx_node : Node Registry) (common_node : bool)
    : nat → OutputVector → M unit :=
  fix go (i : nat) (outputs : OutputVector) : M unit :=
    match outputs with
    | [] => ret tt
    | o :: rest =>
        if Nat.leb (get_outputs_size onnx_node) i then ret tt
        else
          let* out_name := lift_outcome (Node_output onnx_node i) in
          let onnx_node_name := Node_get_name onnx_node in
          let* _ :=
            (if String.eqb onnx_node_name "" then set_friendly_name o.1 out_name
             else
               let* _ :=
                 (if common_node then set_friendly_name o.1 (Node_get_name onnx_node)
                  else set_friendly_name o.1
                         (Node_get_name onnx_node +:+ "_" +:+ out_name)) in
               set_name o out_name) in
          let* null := read (λ w, is_null w o) in
          let* _ := (if negb null then set_names o {[out_name]} else ret tt) in
          go (S i) rest
    end.

Definition set_friendly_names (onnx_node : Node Registry)
    (ng_subgraph_outputs : OutputVector) : M unit :=
  if String.eqb (Node_op_type onnx_node) "Identity" then
    name_identity_outputs onnx_node 0 ng_subgraph_outputs
  else
    let* common_node := lift_outcome (common_node_for_all_outputs ng_subgraph_outputs) in
    name_outputs onnx_node common_node 0 ng_subgraph_outputs.

(** ** Graph::make_ng_nodes *)

Definition conversion_failure_handler (onnx_node : Node Registry) (exc : exn)
    : M OutputVector :=
  if is_OnnxNodeValidationFailure exc then throw exc
  else if is_std_exception exc then
    let msg_prefix := get_error_msg_prefix onnx_node in
    throw (mk_exn ngraph_error (msg_prefix +:+ ":" +:+ nl +:+ what exc))
  else
    let msg_prefix := get_error_msg_prefix onnx_node in
    let* _ := write_log (NGRAPH_ERR (msg_prefix +:+ "Unhandled exception type. " +:+ nl)) in
    throw exc.

(** The loop that stores each declared output; [at(i)] is range-checked. *)
Definition cache_outputs (onnx_node : Node Registry) (ng_subgraph_outputs : OutputVector)
    : nat → nat → GraphCache → M GraphCache :=
  fix go (count i : nat) (cache : GraphCache) : M GraphCache :=
    match count with
    | 0 => ret cache
    | S count' =>
        match ng_subgraph_outputs !! i with
        | None => throw (mk_exn std_exception "vector::_M_range_check")
        | Some ng_node_output =>
            let* out_name := lift_outcome (Node_output onnx_node i) in
            go count' (S i) (emplace_node out_name ng_node_output cache)
        end
    end.

Definition with_cache (g : Graph Registry) (cache : GraphCache) : Graph Registry :=
  mk_Graph (m_model g) cache (m_parameters g) (m_telemetry g).

Definition make_ng_nodes (g : Graph Registry) (onnx_node : Node Registry)
    : M (OutputVector * Graph Registry) :=
  let* ng_node_factory :=
    lift_outcome (get_operator (m_opset (m_model g))
                               (Node_op_type onnx_node) (Node_domain onnx_node)) in
  let* ng_subgraph_outputs :=
    try_catch (ng_node_factory onnx_node) (conversion_failure_handler onnx_node) in
  let* _ := set_friendly_names onnx_node ng_subgraph_outputs in
  let* cache := cache_outputs onnx_node ng_subgraph_outputs
                  (get_outputs_size onnx_node) 0 (m_cache g) in
  ret (ng_subgraph_outputs, with_cache g cache).

(** ** Graph::create_function *)

Definition generate_result_name (onnx_output_name : string) (result_node : nat)
    : M string :=
  let* inputs := read (λ w, input_values w result_node) in
  match inputs !! 0 with
  | Some source_output =>
      ret (onnx_output_name +:+ "/sink_port_" +:+ to_string_index source_output.2)
  | None => throw (mk_exn std_exception "node input index is out of range")
  end.

Definition get_ng_outputs (scopes : list GraphCache) (graph : GraphProto)
    : M OutputVector :=
  for_each (λ results output,
              let* ng_output := lift_outcome (get_ng_node_from_cache scopes (vi_name output)) in
              let* null := read (λ w, is_null w ng_output) in
              if negb null then ret (results ++ [ng_output]) else ret results)
           (gp_output graph) [].

Definition result_node (w : World) (o : Output) : IRNode :=
  mk_IRNode op_Result "" [o]
    [match tensor_of w o with
     | Some t => mk_Tensor ∅ "" (t_element_type t) (t_partial_shape t)
     | None => mk_Tensor ∅ "" et_dynamic None
     end].

(** Modelled from the spec: the Function constructor (ngraph/function.hpp
    is not among the sources).  The finished IR function holds the
    ordered outputs, each wrapped in a Result node reading it, and the
    ordered parameter list. *)
Definition make_function (outputs : OutputVector) (parameters : list nat) (name : string)
    : M ov_Function :=
  let* results :=
    for_each (λ rs o, let* n := read (λ w, result_node w o) in
                      let* r := alloc n in ret (rs ++ [r])) outputs [] in
  ret (mk_Function results parameters name false).

Definition name_results (onnx_outputs : list ValueInfoProto)
    : nat → list nat → M unit :=
  fix go (i : nat) (results : list nat) : M unit :=
    match results with
    | [] => ret tt
    | ov_result :: rest =>
        match onnx_outputs !! i with
        | None => throw (mk_exn std_exception "index out of range")
        | Some onnx_output =>
            let* name := generate_result_name (vi_name onnx_output) ov_result in
            let* _ := set_friendly_name ov_result name in
            go (S i) rest
        end
    end.

Definition create_function (scopes_above : list GraphCache) (g : Graph Registry)
    : M ov_Function :=
  let graph := get_graph (m_model g) in
  let* outputs := get_ng_outputs (m_cache g :: scopes_above) graph in
  let* function := make_function outputs (m_parameters g) (gp_name graph) in
  let* _ := name_results (gp_output graph) 0 (f_results function) in
  ret function.

(** ** Graph::remove_dangling_parameters *)

Definition any_tensor_name_matches_onnx_output (w : World) (param_output : Output)
    (graph : GraphProto) : bool :=
  let found_in_outputs (tensor_name : string) :=
    existsb (λ output, String.eqb tensor_name (vi_name output)) (gp_output graph) in
  existsb found_in_outputs (elements (get_names w param_output)).

Definition is_dangling (w : World) (graph : GraphProto) (param : nat) : bool :=
  Nat.eqb (length (get_target_inputs w (param, 0))) 0
  && negb (any_tensor_name_matches_onnx_output w (param, 0) graph).

Definition prune_step (w : World) (graph : GraphProto)
    (st : GraphCache * list nat) (param : nat) : GraphCache * list nat :=
  if is_dangling w graph param
  then (remove_node (get_friendly_name w param) st.1, st.2)
  else (st.1, st.2 ++ [param]).

Definition remove_dangling_parameters (g : Graph Registry) : M (Graph Registry) :=
  let* st := read (λ w, fold_left (prune_step w (get_graph (m_model g)))
                                  (m_parameters g) (m_cache g, [])) in
  ret (mk_Graph (m_model g) st.1 st.2 (m_telemetry g)).

(** ** Subgraph *)

Definition with_graph (sg : Subgraph Registry) (g : Graph Registry) : Subgraph Registry :=
  mk_Subgraph g (m_parent_graph sg) (m_parameter_to_parent_node_map sg)
              (m_inputs_from_parent sg).

(** The scopes a subgraph resolves names in: its own, then the parent's. *)
Definition Subgraph_scopes (sg : Subgraph Registry) : list GraphCache :=
  m_cache (sg_graph sg) :: m_parent_graph sg.

Definition Subgraph_ctor (model_proto : ModelProto) (parent_graph : list GraphCache)
    (parent_telemetry : bool) : M (Subgraph Registry) :=
  let* g := Graph_ctor model_proto ∅ parent_telemetry in
  ret (mk_Subgraph g parent_graph ∅ []).

(** [Node::input(i)] is range-checked. *)
Definition node_input (id i : nat) : M (nat * nat) :=
  let* inputs := read (λ w, input_values w id) in
  if Nat.ltb i (length inputs) then ret (id, i)
  else throw (mk_exn std_exception "node input index is out of range").

Definition replace_source_output (slot : nat * nat) (source : Output) : M unit :=
  update_node slot.1 (set_input_of slot.2 source).

Definition get_element_type (w : World) (o : Output) : element_type :=
  match tensor_of w o with Some t => t_element_type t | None => et_dynamic end.
Definition get_partial_shape (w : World) (o : Output) : PartialShape :=
  match tensor_of w o with Some t => t_partial_shape t | None => None end.

Definition replace_input_from_parent_scope_with_parameter (in_name : string)
    (from_parent_node : Output) (node_to_replace_input : nat * nat)
    (sg : Subgraph Registry) : M (Subgraph Registry) :=
  let* element_type := read (λ w, get_element_type w from_parent_node) in
  let* partial_shape := read (λ w, get_partial_shape w from_parent_node) in
  let* new_param :=
    alloc (mk_IRNode op_Parameter "" [] [mk_Tensor ∅ "" element_type partial_shape]) in
  let* _ := replace_source_output node_to_replace_input (new_param, 0) in
  let g := sg_graph sg in
  ret (mk_Subgraph
         (mk_Graph (m_model g) (emplace_node in_name (new_param, 0) (m_cache g))
                   (m_parameters g ++ [new_param]) (m_telemetry g))
         (m_parent_graph sg)
         (match m_parameter_to_parent_node_map sg !! new_param with
          | Some _ => m_parameter_to_parent_node_map sg
          | None => <[new_param := in_name]> (m_parameter_to_parent_node_map sg)
          end)
         (m_inputs_from_parent sg ++ [in_name])).

(** The inner loop over the node's output names, for one explicit input. *)
Definition lift_explicit_input (node_proto : NodeProto) (in_name : string)
    (input_index : nat) (from_parent_node : Output)
    : Subgraph Registry → M (Subgraph Registry) :=
  for_each (λ sg out_name,
              if contains (m_cache (sg_graph sg)) out_name then
                let* node_to_replace_input :=
                  lift_outcome (get_node (m_cache (sg_graph sg)) out_name) in
                let* slot := node_input node_to_replace_input.1 input_index in
                replace_input_from_parent_scope_with_parameter
                  in_name from_parent_node slot sg
              else ret sg)
           (np_output node_proto).

Definition lift_explicit_inputs (node_proto : NodeProto)
    : nat → list string → Subgraph Registry → M (Subgraph Registry) :=
  fix go (input_index : nat) (inputs : list string) (sg : Subgraph Registry) :=
    match inputs with
    | [] => ret sg
    | in_name :: rest =>
        let* sg' :=
          (if is_ng_node_in_cache (m_parent_graph sg) in_name then
             let* from_parent_node :=
               lift_outcome (get_ng_node_from_cache (m_parent_graph sg) in_name) in
             let* constant := read (λ w, is_constant w from_parent_node.1) in
             if negb constant then
               lift_explicit_input node_proto in_name input_index from_parent_node sg
             else ret sg
           else ret sg) in
        go (S input_index) rest sg'
    end.

(** The loop over the already-resolved inputs of a subgraph-owning node. *)
Definition lift_implicit_inputs_of (node_to_replace_input : nat)
    : nat → list Output → Subgraph Registry → M (Subgraph Registry) :=
  fix go (i : nat) (inputs : list Output) (sg : Subgraph Registry) :=
    match inputs with
    | [] => ret sg
    | input :: rest =>
        let* constant := read (λ w, is_constant w input.1) in
        let* sg' :=
          (if constant then ret sg
           else
             let* in_name := read (λ w, get_friendly_name w input.1) in
             if is_ng_node_in_cache (m_parent_graph sg) in_name then
               let* from_parent_node :=
                 lift_outcome (get_ng_node_from_cache (m_parent_graph sg) in_name) in
               let* slot := node_input node_to_replace_input i in
               replace_input_from_parent_scope_with_parameter
                 in_name from_parent_node slot sg
             else ret sg) in
        go (S i) rest sg'
    end.

Definition lift_implicit_inputs (node_proto : NodeProto)
    : Subgraph Registry → M (Subgraph Registry) :=
  for_each (λ sg out_name,
              if contains (m_cache (sg_graph sg)) out_name then
                let* o := lift_outcome (get_node (m_cache (sg_graph sg)) out_name) in
                let node_to_replace_input := o.1 in
                let* subgraph_op := read (λ w, is_subgraph_op w node_to_replace_input) in
                if negb subgraph_op then ret sg
                else
                  let* inputs := read (λ w, input_values w node_to_replace_input) in
                  lift_implicit_inputs_of node_to_replace_input 0 inputs sg
              else ret sg)
           (np_output node_proto).

Definition find_inputs_from_parent (sg : Subgraph Registry) : M (Subgraph Registry) :=
  for_each (λ sg node_proto,
              let* sg1 := lift_explicit_inputs node_proto 0 (np_input node_proto) sg in
              lift_implicit_inputs node_proto sg1)
           (gp_node (get_graph (m_model (sg_graph sg)))) sg.

Definition get_inputs_from_parent (sg : Subgraph Registry) : M OutputVector :=
  for_each (λ result name,
              let* o := lift_outcome (get_ng_node_from_cache (m_parent_graph sg) name) in
              ret (result ++ [o]))
           (m_inputs_from_parent sg) [].

Definition infer_inputs_from_parent (sg : Subgraph Registry) : M unit :=
  for_each (λ _ it,
              let* node := lift_outcome (get_ng_node_from_cache (m_parent_graph sg) it.2) in
              let* element_type := read (λ w, get_element_type w node) in
              let* partial_shape := read (λ w, get_partial_shape w node) in
              update_node it.1
                (on_output 0 (λ t, mk_Tensor (t_names t) (t_name t)
                                             element_type partial_shape)))
           (map_to_list (m_parameter_to_parent_node_map sg)) tt.

(** ** Node conversion and the recursion into subgraphs *)

(** Modelled from the spec: the Node constructor (onnx_import/core/node.hpp
    is not among the sources).  A node that carries nested bodies gets one
    Subgraph per body, built in the lexical scope of the graph that
    converts the node and with that graph's opset imports. *)
Definition Node_ctor (node_proto : NodeProto) (scopes : list GraphCache)
    (g : Graph Registry) : M (Node Registry) :=
  let* subgraphs :=
    for_each (λ acc body,
                let* sg := Subgraph_ctor
                             (mk_ModelProto body.2
                                (mp_opset_import (model_proto (m_model g))))
                             scopes (m_telemetry g) in
                ret (acc ++ [(body.1, sg)]))
             (np_graphs node_proto) [] in
  ret (mk_Node node_proto scopes subgraphs).

Definition with_subgraphs (node : Node Registry)
    (subgraphs : list (string * Subgraph Registry)) : Node Registry :=
  mk_Node (node_proto node) (node_graph node) subgraphs.

(** A function nobody holds is destroyed with its Result nodes, which
    stop reading their sources. *)
Definition release_function (f : ov_Function) : M unit :=
  for_each (λ _ r, update_node r (λ n, mk_IRNode (n_kind n) (n_friendly_name n)
                                                 [] (n_outputs n)))
           (f_results f) tt.

(** [convert_node] is the body of the loop of convert_to_ngraph_nodes;
    [Subgraph_convert_body body sg] is Subgraph::convert on a subgraph
    [sg] whose model holds [body], the recursion following the nesting
    of the bodies. *)
Fixpoint convert_node (node_proto : NodeProto) (scopes_above : list GraphCache)
    (g : Graph Registry) {struct node_proto} : M (Graph Registry) :=
  let* node := Node_ctor node_proto (m_cache g :: scopes_above) g in
  let* subgraphs :=
    (if has_subgraphs node then
       (fix each (bodies : list (string * GraphProto))
                 (subgraphs : list (string * Subgraph Registry))
                 (done : list (string * Subgraph Registry)) {struct bodies}
          : M (list (string * Subgraph Registry)) :=
          match bodies, subgraphs with
          | body :: bodies', kv :: subgraphs' =>
              let* r := Subgraph_convert_body body.2 kv.2 in
              let* _ := release_function r.1 in
              each bodies' subgraphs' (done ++ [(kv.1, r.2)])
          | _, _ => ret done
          end) (np_graphs node_proto) (get_subgraphs node) []
     else ret (get_subgraphs node)) in
  let* r := make_ng_nodes g (with_subgraphs node subgraphs) in
  ret r.2
with Subgraph_convert_body (body : GraphProto) (sg : Subgraph Registry)
    {struct body} : M (ov_Function * Subgraph Registry) :=
  let* g := for_each (λ g node_proto, convert_node node_proto (m_parent_graph sg) g)
                     (gp_node body) (sg_graph sg) in
  let* sg' := find_inputs_from_parent (with_graph sg g) in
  let* function := create_function (m_parent_graph sg') (sg_graph sg') in
  ret (function, sg').

(** The loop over the subgraphs of a node, each converted in turn and
    its function dropped. *)
Definition convert_subgraphs
    : list (string * GraphProto) → list (string * Subgraph Registry) →
      list (string * Subgraph Registry) → M (list (string * Subgraph Registry)) :=
  fix each bodies subgraphs done :=
    match bodies, subgraphs with
    | body :: bodies', kv :: subgraphs' =>
        let* r := Subgraph_convert_body body.2 kv.2 in
        let* _ := release_function r.1 in
        each bodies' subgraphs' (done ++ [(kv.1, r.2)])
    | _, _ => ret done
    end.

Definition convert_to_ngraph_nodes (scopes_above : list GraphCache)
    (g : Graph Registry) : M (Graph Registry) :=
  for_each (λ g node_proto, convert_node node_proto scopes_above g)
           (gp_node (get_graph (m_model g))) g.

Definition Graph_convert (g : Graph Registry) : M (ov_Function * Graph Registry) :=
  let* g1 := convert_to_ngraph_nodes [] g in
  let* g2 := remove_dangling_parameters g1 in
  let* function := create_function [] g2 in
  ret (function, g2).

Definition Subgraph_convert (sg : Subgraph Registry)
    : M (ov_Function * Subgraph Registry) :=
  Subgraph_convert_body (get_graph (m_model (sg_graph sg))) sg.

(** ** The decode-only path *)

(** The borrowed inputs of a subgraph join the node's inputs unless an
    input of the same friendly name is already there. *)
Definition add_inputs_from_parent (from_parent : OutputVector)
    : OutputVector → M OutputVector :=
  for_each (λ (inputs : OutputVector) (input : Output),
              let* name := read (λ w, get_friendly_name w input.1) in
              let* found :=
                read (λ w, existsb (λ n : Output,
                                      String.eqb name (get_friendly_name w n.1)) inputs) in
              if found then ret inputs else ret (inputs ++ [input]))
           from_parent.

(** [rt_info[ONNX_GRAPH_RT_ATTRIBUTE] = shared_from_this()] *)
Definition attach_graph (f : ov_Function) : ov_Function :=
  mk_Function (f_results f) (f_parameters f) (f_name f) true.

(** [decode_node] is the body of the loop of decode_to_framework_nodes;
    [Subgraph_decode_body body sg] is decode on a subgraph, whose
    decode_to_framework_nodes runs the graph's and then lifts inputs. *)
Fixpoint decode_node (node_proto : NodeProto) (scopes_above : list GraphCache)
    (g : Graph Registry) {struct node_proto} : M (Graph Registry) :=
  let* node := Node_ctor node_proto (m_cache g :: scopes_above) g in
  let* ng_nodes :=
    (if has_subgraphs node then
       let* inputs := get_ng_inputs node in
       let* r :=
         (fix each (bodies : list (string * GraphProto))
                   (subgraphs : list (string * Subgraph Registry))
                   (acc : list ov_Function * OutputVector
                          * list (string * Subgraph Registry)) {struct bodies}
            : M (list ov_Function * OutputVector * list (string * Subgraph Registry)) :=
            match bodies, subgraphs with
            | body :: bodies', kv :: subgraphs' =>
                let* r := Subgraph_decode_body body.2 kv.2 in
                let* from_parent := get_inputs_from_parent r.2 in
                let* inputs' := add_inputs_from_parent from_parent acc.1.2 in
                each bodies' subgraphs'
                     (acc.1.1 ++ [r.1], inputs', acc.2 ++ [(kv.1, r.2)])
            | _, _ => ret acc
            end) (np_graphs node_proto) (get_subgraphs node) ([], inputs, []) in
       make_subgraph_framework_node (with_subgraphs node r.2) r.1.1 r.1.2
     else make_framework_node node) in
  let* _ := set_friendly_names node ng_nodes in
  let* cache := cache_outputs node ng_nodes (get_outputs_size node) 0 (m_cache g) in
  ret (with_cache g cache)
with Subgraph_decode_body (body : GraphProto) (sg : Subgraph Registry)
    {struct body} : M (ov_Function * Subgraph Registry) :=
  let* g := for_each (λ g node_proto, decode_node node_proto (m_parent_graph sg) g)
                     (gp_node body) (sg_graph sg) in
  let* sg' := find_inputs_from_parent (with_graph sg g) in
  let* function := create_function (m_parent_graph sg') (sg_graph sg') in
  ret (attach_graph function, sg').

(** The loop over the subgraphs of a node on the decode path: the
    functions are kept, and the inputs borrowed from the parent join
    the node's inputs. *)
Definition decode_subgraphs
    : list (string * GraphProto) → list (string * Subgraph Registry) →
      list ov_Function * OutputVector * list (string * Subgraph Registry) →
      M (list ov_Function * OutputVector * list (string * Subgraph Registry)) :=
  fix each bodies subgraphs acc :=
    match bodies, subgraphs with
    | body :: bodies', kv :: subgraphs' =>
        let* r := Subgraph_decode_body body.2 kv.2 in
        let* from_parent := get_inputs_from_parent r.2 in
        let* inputs' := add_inputs_from_parent from_parent acc.1.2 in
        each bodies' subgraphs' (acc.1.1 ++ [r.1], inputs', acc.2 ++ [(kv.1, r.2)])
    | _, _ => ret acc
    end.

Definition decode_to_framework_nodes (scopes_above : list GraphCache)
    (g : Graph Registry) : M (Graph Registry) :=
  for_each (λ g node_proto, decode_node node_proto scopes_above g)
           (gp_node (get_graph (m_model g))) g.

Definition Graph_decode (g : Graph Registry) : M (ov_Function * Graph Registry) :=
  let* g1 := decode_to_framework_nodes [] g in
  let* function := create_function [] g1 in
  ret (attach_graph function, g1).

Definition Subgraph_decode (sg : Subgraph Registry)
    : M (ov_Function * Subgraph Registry) :=
  Subgraph_decode_body (get_graph (m_model (sg_graph sg))) sg.

End Importer.

(** ** A concrete environment

    Sample collaborators, used to run the importer on concrete models. *)

Module Sample.

(** Operator sets: the enabled domains.  What a domain provides once
    enabled is fixed by a table. *)
Definition provides (domain op_type : string) : bool :=
  match domain, op_type with
  | "", "Add" | "", "Relu" | "", "Split" | "", "Identity" | "", "Const"
  | "", "Fail" | "", "Unknown" | "", "Invalid" | "", "TopK" | "", "Dropout" => true
  | "custom.ops", "Gelu" => true
  | "a", "b" => true
  | _, _ => false
  end.

Definition available (enabled : list string) (n : NodeProto) : bool :=
  bool_decide (get_node_domain n ∈ enabled) && provides (get_node_domain n) (np_op_type n).

Definition enable (enabled : list string) (domain : string) : list string :=
  if bool_decide (domain ∈ enabled) then enabled else enabled ++ [domain].

Definition product (dims : Shape) : N := fold_right N.mul 1%N dims.

(** A sample decoder: an external location cannot be resolved here, and
    a payload whose length does not match the shape is malformed.  The
    branch for a payload of 2^64 elements or more stands for a decoder
    that can fail outside the ngraph_error family; the source does not
    say whether Tensor::get_ng_constant can, and only the example of
    what the constructor does with such a failure goes through it. *)
Definition decode (t : TensorProto) : outcome ConstantData :=
  match tp_external_location t with
  | Some location =>
      Throw (mk_exn invalid_external_data ("invalid external data: " +:+ location))
  | None =>
      if (two64 <=? product (tp_dims t))%N then Throw (mk_exn std_exception "std::bad_alloc")
      else if negb (N.of_nat (length (tp_raw_data t)) =? product (tp_dims t))%N
      then Throw (mk_exn ngraph_error "initializer size does not match its shape")
      else Ok (mk_ConstantData (tp_data_type t) (tp_dims t) (tp_raw_data t))
  end.

(** The inputs of a node, resolved through its scopes. *)
Definition resolve_inputs (node : Node (list string)) : M OutputVector :=
  for_each (λ acc name,
              let* o := lift_outcome
                          ((fix get (scopes : list GraphCache) :=
                              match scopes with
                              | [] => Throw (mk_exn ngraph_error
                                               (name +:+ " node not found in graph cache"))
                              | c :: parent =>
                                  match c !! name with
                                  | Some o => Ok o
                                  | None => get parent
                                  end
                              end) (node_graph node)) in
              ret (acc ++ [o]))
           (np_input (node_proto node)) [].

Definition plain_tensor : Tensor := mk_Tensor ∅ "" et_f32 None.

(** One IR node of the given kind reading the node's inputs, with as
    many output ports as the node declares. *)
Definition one_node (kind : NodeKind) (node : Node (list string)) : M OutputVector :=
  let* inputs := resolve_inputs node in
  let outs := length (np_output (node_proto node)) in
  let* id := alloc (mk_IRNode kind "" inputs (replicate outs plain_tensor)) in
  ret (imap (λ k _, (id, k)) (replicate outs tt)).

(** One IR node per declared output, each reading the node's inputs. *)
Definition node_per_output (node : Node (list string)) : M OutputVector :=
  let* inputs := resolve_inputs node in
  for_each (λ acc _,
              let* id := alloc (mk_IRNode (op_Other "TopKPart") "" inputs [plain_tensor]) in
              ret (acc ++ [(id, 0)]))
           (np_output (node_proto node)) [].

Definition operator (domain op_type : string) : Node (list string) → M OutputVector :=
  match domain, op_type with
  | "", "Identity" | "", "Dropout" => resolve_inputs
  | "", "Const" =>
      λ _, let* id := alloc (mk_IRNode (op_Constant (mk_ConstantData et_f32 [] [0%Z]))
                                       "" [] [plain_tensor]) in
           ret [(id, 0)]
  | "", "TopK" => node_per_output
  | "", "Fail" => λ _, throw (mk_exn std_exception "bad shape")
  | "", "Invalid" => λ _, throw (mk_exn OnnxNodeValidationFailure "invalid attribute")
  | "", "Unknown" => λ _, throw (mk_exn unrecognized "")
  | _, _ => one_node (op_Other op_type)
  end.

Definition lookup_operator (enabled : list string) (op_type domain : string)
    : outcome (Node (list string) → M OutputVector) :=
  if bool_decide (domain ∈ enabled) && provides domain op_type
  then Ok (operator domain op_type)
  else Throw (mk_exn ngraph_error ("operator not registered: " +:+ op_type)).

(** The prefix names the node, or its domain and operator when unnamed. *)
Definition error_prefix (node : Node (list string)) : string :=
  "While validating ONNX node '"
    +:+ (if String.eqb (np_name (node_proto node)) ""
         then get_node_domain (node_proto node) +:+ "." +:+ np_op_type (node_proto node)
         else np_name (node_proto node))
    +:+ "'".

Definition framework_node (node : Node (list string)) : M OutputVector :=
  one_node op_ONNXFrameworkNode node.

Definition subgraph_framework_node (node : Node (list string))
    (functions : list ov_Function) (inputs : OutputVector) : M OutputVector :=
  let outs := length (np_output (node_proto node)) in
  let* id := alloc (mk_IRNode op_ONNXSubgraphFrameworkNode "" inputs
                              (replicate outs plain_tensor)) in
  ret (imap (λ k _, (id, k)) (replicate outs tt)).

(** The default domain is enabled from the start, with every imported one. *)
Definition opset_of (model_proto : ModelProto) : list string :=
  fold_left enable (map fst (mp_opset_import model_proto)) [""].

Definition env : Environment := {|
  Registry := list string;
  Model_opset := opset_of;
  is_operator_available := available;
  enable_opset_domain := enable;
  get_operator := lookup_operator;
  get_ng_constant := decode;
  get_error_msg_prefix := error_prefix;
  get_ng_inputs := resolve_inputs;
  make_framework_node := framework_node;
  make_subgraph_framework_node := subgraph_framework_node
|}.

(** Sample messages. *)
Definition value_info (name : string) : ValueInfoProto :=
  mk_ValueInfoProto name et_f32 (Some [Some 2%N]).

Definition node (domain op_type name : string) (input output : list string) : NodeProto :=
  mk_NodeProto domain op_type name input output [].

Definition model (initializer : list TensorProto) (input : list ValueInfoProto)
    (nodes : list NodeProto) (output : list ValueInfoProto) : ModelProto :=
  mk_ModelProto (mk_GraphProto "graph" initializer input nodes output) [].

(** Initializers: one with inline data, one that points at an external
    file, one without a name that does too, one whose payload does not
    match its shape, and one of 2^32 by 2^32 elements. *)
Definition inline_weights : TensorProto :=
  mk_TensorProto (Some "w0") et_f32 [2%N] [1%Z; 2%Z] None.
Definition external_weights : TensorProto :=
  mk_TensorProto (Some "ext") et_f32 [2%N] [] (Some "weights.bin").
Definition unnamed_external_weights : TensorProto :=
  mk_TensorProto None et_f32 [2%N] [] (Some "weights.bin").
Definition malformed_weights : TensorProto :=
  mk_TensorProto (Some "bad") et_i64 [2%N] [1%Z] None.
Definition huge_weights : TensorProto :=
  mk_TensorProto (Some "huge") et_f32 [4294967296%N; 4294967296%N] [] None.

Definition external_failure : exn :=
  mk_exn invalid_external_data "invalid external data: weights.bin".
Definition allocation_failure : exn := mk_exn std_exception "std::bad_alloc".

Definition relu : NodeProto := node "" "Relu" "r" ["x"] ["y"].

Definition external_model : ModelProto :=
  model [inline_weights; external_weights] [value_info "x"] [relu] [value_info "y"].
Definition unnamed_external_model : ModelProto :=
  model [unnamed_external_weights] [value_info "x"] [relu] [value_info "y"].
Definition malformed_model : ModelProto :=
  model [malformed_weights] [value_info "x"] [relu] [value_info "y"].
Definition huge_model : ModelProto :=
  model [huge_weights] [value_info "x"] [relu] [value_info "y"].

(** An input shadowed by an initializer of the same name. *)
Definition shadowed_model : ModelProto :=
  model [inline_weights] [value_info "w0"; value_info "x"] [relu] [value_info "y"].

(** One node of a domain that the scan enables. *)
Definition gelu : NodeProto := node "custom.ops" "Gelu" "g" ["x"] ["y"].
Definition custom_model : ModelProto :=
  model [] [value_info "x"] [gelu] [value_info "y"].

(** Two operators that render to the same key [a.b]: [b] of domain [a],
    which the domain provides once enabled, and [a.b] of the default
    domain, which nothing provides. *)
Definition op_a_b : NodeProto := node "a" "b" "n1" [] ["o1"].
Definition op_ab : NodeProto := node "" "a.b" "n2" [] ["o2"].
Definition colliding_model : ModelProto := model [] [] [op_a_b; op_ab] [].

(** An input nobody reads, and one nobody reads that is a declared output. *)
Definition dangling_model : ModelProto :=
  model [] [value_info "x"; value_info "unused"; value_info "direct"]
        [relu] [value_info "y"; value_info "direct"].

(** A dead node whose conversion hands its input through. *)
Definition passthrough_model : ModelProto :=
  model [] [value_info "x"] [node "" "Dropout" "drop1" ["x"] ["y"]] [].

(** A parent graph producing [x], and bodies of one node reading it. *)
Definition parent_model : ModelProto := model [] [value_info "x"] [] [].
Definition body_model (op_type : string) (outputs : list string) : ModelProto :=
  mk_ModelProto (mk_GraphProto "body" [] [] [node "" op_type "n" ["x"] outputs]
                               (map value_info outputs)) [].

(** A node bound to no scope, for the naming and failure examples. *)
Definition bare_node (n : NodeProto) : Node (list string) := mk_Node n [∅] [].

(** Two nodes of one output each, and one node of two outputs. *)
Definition two_nodes : World :=
  mk_World [mk_IRNode (op_Other "TopKPart") "" [] [plain_tensor];
            mk_IRNode (op_Other "TopKPart") "" [] [plain_tensor]] [] [].
Definition one_node_two_ports : World :=
  mk_World [mk_IRNode (op_Other "Split") "" [] [plain_tensor; plain_tensor]] [] [].

(** Nodes for the naming and failure examples. *)
Definition unnamed_two_outputs : NodeProto := node "" "Split" "" ["x"] ["out1"; "out2"].
Definition named_two_outputs : NodeProto := node "" "TopK" "N" ["x"] ["out1"; "out2"].
Definition failing_node : NodeProto := node "" "Fail" "f1" ["x"] ["y"].
Definition invalid_node : NodeProto := node "" "Invalid" "" ["x"] ["y"].
Definition unknown_node : NodeProto := node "" "Unknown" "u1" ["x"] ["y"].

(** A graph with the default domain enabled and nothing converted yet. *)
Definition empty_graph : Graph (list string) :=
  mk_Graph (mk_Model parent_model [""]) ∅ [] false.

(** The outcomes of the runs the examples are about, evaluated. *)
Definition value_of {A} (default : A) (r : outcome A * World) : A :=
  match r.1 with Ok a => a | Throw _ => default end.

Definition no_function : ov_Function := mk_Function [] [] "" false.
Definition no_subgraph : Subgraph (list string) := mk_Subgraph empty_graph [] ∅ [].

Definition unnamed_graph : Graph (list string) :=
  Eval vm_compute in
    value_of empty_graph (Graph_new (Env := env) unnamed_external_model false empty_world).
Definition unnamed_world : World :=
  Eval vm_compute in (Graph_new (Env := env) unnamed_external_model false empty_world).2.

Definition shadowed_graph : Graph (list string) :=
  Eval vm_compute in
    value_of empty_graph (Graph_new (Env := env) shadowed_model false empty_world).
Definition shadowed_world : World :=
  Eval vm_compute in (Graph_new (Env := env) shadowed_model false empty_world).2.

Definition colliding_graph : Graph (list string) :=
  Eval vm_compute in
    value_of empty_graph (Graph_new (Env := env) colliding_model false empty_world).

Definition dangling_graph : Graph (list string) :=
  Eval vm_compute in
    value_of empty_graph (Graph_new (Env := env) dangling_model false empty_world).
Definition dangling_world : World :=
  Eval vm_compute in (Graph_new (Env := env) dangling_model false empty_world).2.
Definition dangling_converted : ov_Function * Graph (list string) :=
  Eval vm_compute in
    value_of (no_function, empty_graph)
             (Graph_convert (Env := env) dangling_graph dangling_world).
Definition dangling_world_converted : World :=
  Eval vm_compute in (Graph_convert (Env := env) dangling_graph dangling_world).2.

Definition passthrough_graph : Graph (list string) :=
  Eval vm_compute in
    value_of empty_graph (Graph_new (Env := env) passthrough_model false empty_world).
Definition passthrough_world : World :=
  Eval vm_compute in (Graph_new (Env := env) passthrough_model false empty_world).2.
Definition passthrough_nodes_converted : Graph (list string) :=
  Eval vm_compute in
    value_of empty_graph
             (convert_to_ngraph_nodes (Env := env) [] passthrough_graph passthrough_world).
Definition passthrough_nodes_world : World :=
  Eval vm_compute in
    (convert_to_ngraph_nodes (Env := env) [] passthrough_graph passthrough_world).2.
Definition passthrough_converted : ov_Function * Graph (list string) :=
  Eval vm_compute in
    value_of (no_function, empty_graph)
             (Graph_convert (Env := env) passthrough_graph passthrough_world).
Definition passthrough_world_converted : World :=
  Eval vm_compute in (Graph_convert (Env := env) passthrough_graph passthrough_world).2.

Definition parent_graph : Graph (list string) :=
  Eval vm_compute in
    value_of empty_graph (Graph_new (Env := env) parent_model false empty_world).
Definition parent_world : World :=
  Eval vm_compute in (Graph_new (Env := env) parent_model false empty_world).2.

(** The subgraph of a body in the scope of the parent graph, the state
    its node conversion leaves, and what Subgraph::convert returns. *)
Definition body_subgraph (op_type : string) (outputs : list string)
    : outcome (Subgraph (list string)) * World :=
  Subgraph_ctor (Env := env) (body_model op_type outputs)
                [m_cache parent_graph] false parent_world.

Definition relu_subgraph : Subgraph (list string) :=
  Eval vm_compute in value_of no_subgraph (body_subgraph "Relu" ["y"]).
Definition relu_world : World :=
  Eval vm_compute in (body_subgraph "Relu" ["y"]).2.
Definition relu_nodes_converted : Graph (list string) :=
  Eval vm_compute in
    value_of empty_graph
      (convert_to_ngraph_nodes (Env := env) (m_parent_graph relu_subgraph)
                               (sg_graph relu_subgraph) relu_world).
Definition relu_world_nodes_converted : World :=
  Eval vm_compute in
    (convert_to_ngraph_nodes (Env := env) (m_parent_graph relu_subgraph)
                             (sg_graph relu_subgraph) relu_world).2.
Definition relu_converted : ov_Function * Subgraph (list string) :=
  Eval vm_compute in
    value_of (no_function, no_subgraph)
             (Subgraph_convert (Env := env) relu_subgraph relu_world).
Definition relu_world_converted : World :=
  Eval vm_compute in (Subgraph_convert (Env := env) relu_subgraph relu_world).2.


(** Two nodes of one operator, of a domain whose name has a dot. *)
Definition gelu_again : NodeProto := node "custom.ops" "Gelu" "g2" ["y"] ["z"].

(** Two operators that nothing provides, one of them in a domain of its own. *)
Definition swish : NodeProto := node "custom.ops" "Swish" "s" ["x"] ["y"].
Definition nope : NodeProto := node "" "Nope" "n" ["y"] ["z"].
Definition unsupported_model : ModelProto :=
  model [] [value_info "x"] [swish; nope] [value_info "z"].

(** Three nodes of two operator types. *)
Definition counted_model : ModelProto :=
  model [] [value_info "x"]
        [relu; gelu_again; node "" "Relu" "r2" ["z"] ["t"]] [value_info "t"].

(** A constant declared with two outputs, and an Identity node. *)
Definition const_two_outputs : NodeProto := node "" "Const" "c" [] ["a"; "b"].
Definition identity : NodeProto := node "" "Identity" "id1" ["x"] ["y"].
Definition const_world : World :=
  Eval vm_compute in
    (operator "" "Const" (bare_node const_two_outputs) empty_world).2.

(** The node relu bound to the graph of dangling_model, and its conversion. *)
Definition relu_node : Node (list string) := mk_Node relu [m_cache dangling_graph] [].
Definition relu_made : OutputVector * Graph (list string) :=
  Eval vm_compute in
    value_of ([], empty_graph)
             (make_ng_nodes (Env := env) dangling_graph relu_node dangling_world).
Definition relu_made_world : World :=
  Eval vm_compute in (make_ng_nodes (Env := env) dangling_graph relu_node dangling_world).2.

(** The stages of Graph::convert on dangling_model, and Graph::decode. *)
Definition dangling_nodes_converted : Graph (list string) :=
  Eval vm_compute in
    value_of empty_graph
             (convert_to_ngraph_nodes (Env := env) [] dangling_graph dangling_world).
Definition dangling_nodes_world : World :=
  Eval vm_compute in
    (convert_to_ngraph_nodes (Env := env) [] dangling_graph dangling_world).2.
Definition dangling_outputs : OutputVector :=
  Eval vm_compute in
    value_of [] (get_ng_outputs [m_cache dangling_converted.2]
                                (mp_graph dangling_model) dangling_nodes_world).
Definition dangling_decoded : ov_Function * Graph (list string) :=
  Eval vm_compute in
    value_of (no_function, empty_graph)
             (Graph_decode (Env := env) dangling_graph dangling_world).
Definition dangling_world_decoded : World :=
  Eval vm_compute in (Graph_decode (Env := env) dangling_graph dangling_world).2.

(** The subgraph of the relu body once its inputs are lifted. *)
Definition relu_lifted : Subgraph (list string) :=
  Eval vm_compute in
    value_of no_subgraph
             (find_inputs_from_parent (Env := env)
                (with_graph (Env := env) relu_subgraph relu_nodes_converted)
                relu_world_nodes_converted).
Definition relu_world_lifted : World :=
  Eval vm_compute in
    (find_inputs_from_parent (Env := env)
       (with_graph (Env := env) relu_subgraph relu_nodes_converted) relu_world_nodes_converted).2.

(** Two unnamed nodes in a row: the value between them is named as
    the Result of y will be.  And a model that declares y twice. *)
Definition sink_named_model : ModelProto :=
  model [] [value_info "x"]
        [node "" "Relu" "" ["x"] ["y/sink_port_0"];
         node "" "Relu" "" ["y/sink_port_0"] ["y"]]
        [value_info "y"].
Definition sink_named_graph : Graph (list string) :=
  Eval vm_compute in
    value_of empty_graph (Graph_new (Env := env) sink_named_model false empty_world).
Definition sink_named_world : World :=
  Eval vm_compute in (Graph_new (Env := env) sink_named_model false empty_world).2.
Definition sink_named_converted : ov_Function * Graph (list string) :=
  Eval vm_compute in
    value_of (no_function, empty_graph)
             (Graph_convert (Env := env) sink_named_graph sink_named_world).
Definition sink_named_world_converted : World :=
  Eval vm_compute in (Graph_convert (Env := env) sink_named_graph sink_named_world).2.
Definition sink_named_decoded : ov_Function * Graph (list string) :=
  Eval vm_compute in
    value_of (no_function, empty_graph)
             (Graph_decode (Env := env) sink_named_graph sink_named_world).
Definition sink_named_world_decoded : World :=
  Eval vm_compute in (Graph_decode (Env := env) sink_named_graph sink_named_world).2.

Definition twice_declared_model : ModelProto :=
  model [] [value_info "x"] [relu] [value_info "y"; value_info "y"].
Definition twice_declared_graph : Graph (list string) :=
  Eval vm_compute in
    value_of empty_graph (Graph_new (Env := env) twice_declared_model false empty_world).
Definition twice_declared_world : World :=
  Eval vm_compute in (Graph_new (Env := env) twice_declared_model false empty_world).2.
Definition twice_declared_converted : ov_Function * Graph (list string) :=
  Eval vm_compute in
    value_of (no_function, empty_graph)
             (Graph_convert (Env := env) twice_declared_graph twice_declared_world).
Definition twice_declared_world_converted : World :=
  Eval vm_compute in
    (Graph_convert (Env := env) twice_declared_graph twice_declared_world).2.




End Sample.

(** ** Vocabulary of the statements *)

(** A constant node bound to a tensor name, as the initializer pass leaves it. *)
Definition named_constant (name : string) (d : ConstantData) : IRNode :=
  mk_IRNode (op_Constant d) "" []
    [mk_Tensor {[name]} "" (cd_type d) (Some (map Some (cd_shape d)))].

(** The single zero-valued scalar of the initializer's element type. *)
Definition zero_scalar (t : TensorProto) : ConstantData :=
  mk_ConstantData (tp_data_type t) [] [0%Z].

Definition add_node (n : IRNode) (w : World) : World :=
  mk_World (w_nodes w ++ [n]) (w_log w) (w_events w).

Definition add_log (e : log_entry) (w : World) : World :=
  mk_World (w_nodes w) (w_log w ++ [e]) (w_events w).

(** What [emplace] leaves in the initializer table. *)
Definition emplaced (initializers : gmap string TensorProto) (t : TensorProto)
    : gmap string TensorProto :=
  match initializers !! name_of t with
  | Some _ => initializers
  | None => <[name_of t := t]> initializers
  end.

Section Vocabulary.
Context {Env : Environment}.

(** The constant an initializer is turned into: the decoded one, or the
    zero scalar after a recoverable decode failure. *)
Definition materializes (t : TensorProto) (d : ConstantData) : Prop :=
  get_ng_constant t = Ok d
  ∨ ∃ exc, get_ng_constant t = Throw exc ∧ is_ngraph_error exc = true
           ∧ is_invalid_external_data exc = false ∧ d = zero_scalar t.


(** After the pass, every named initializer of the list has a constant
    under its name.  With several initializers of one name the constant
    found there is the one of the last of them: the list splits at a
    named initializer [t'] of that name, no named initializer after it
    has the name, and the constant is what [t'] is turned into. *)
Definition initializers_cached (l : list TensorProto) (cache : GraphCache) (w : World)
    : Prop :=
  ∀ t, t ∈ l → has_name t = true →
    ∃ id t' d before after,
      cache !! name_of t = Some (id, 0)
      ∧ node_at w id = Some (named_constant (name_of t) d)
      ∧ l = before ++ t' :: after
      ∧ has_name t' = true ∧ name_of t' = name_of t
      ∧ (∀ t'', t'' ∈ after → has_name t'' = true → name_of t'' ≠ name_of t)
      ∧ materializes t' d.

(** Every parameter of the list is the placeholder of a declared input
    that the given cache does not hold. *)
Definition placeholders_of (inputs : list ValueInfoProto) (shadow : GraphCache)
    (parameters : list nat) (w : World) : Prop :=
  ∀ p, p ∈ parameters →
    ∃ input, input ∈ inputs ∧ shadow !! vi_name input = None
             ∧ node_at w p = Some (parameter_node input).

(** The store after the operator counts went to the telemetry sink. *)
Definition after_statistics (telemetry : bool) (stats : smap N) (w : World) : World :=
  ((if telemetry then send_op_statistics stats else ret tt) w).2.

(** What is left of the map unknown_operators after the erase loop
    (lines 162-170): the entries whose recorded node the final operator
    sets do not provide.  The check of line 172 is on this map. *)
Definition still_unknown (telemetry : bool) (model_proto : ModelProto) : smap NodeProto :=
  let s := scan_nodes telemetry (gp_node (mp_graph model_proto))
                      (Model_opset model_proto) in
  reverify (scan_opset s) (unknown_operators s).

(** The friendly names of the store, by node id. *)
Definition names_of (w : World) : list string := n_friendly_name <$> w_nodes w.

(** The name the naming loop gives at position [i]. *)
Definition friendly_name_at (onnx_node : Node Registry) (common_node : bool) (i : nat)
    : string :=
  let out_name := default "" (np_output (node_proto onnx_node) !! i) in
  if String.eqb (Node_get_name onnx_node) "" then out_name
  else if common_node then Node_get_name onnx_node
  else Node_get_name onnx_node +:+ "_" +:+ out_name.

(** The friendly names after the naming loop: one write per processed
    output, in output order, a later write overwriting an earlier one. *)
Fixpoint renamed (onnx_node : Node Registry) (common_node : bool) (i : nat)
    (outputs : OutputVector) (names : list string) : list string :=
  match outputs with
  | [] => names
  | o :: rest =>
      if Nat.leb (get_outputs_size onnx_node) i then names
      else renamed onnx_node common_node (S i) rest
             (<[o.1 := friendly_name_at onnx_node common_node i]> names)
  end.

(** [Node::output(i)] for a declared position. *)
Definition declared_output (onnx_node : Node Registry) (i : nat) : string :=
  default "" (np_output (node_proto onnx_node) !! i).

(** The name create_function gives the Result that reads [source] for
    the declared output [output]. *)
Definition result_name (output : ValueInfoProto) (source : Output) : string :=
  vi_name output +:+ "/sink_port_" +:+ to_string_index source.2.

(** The i-th Result of a function is named after the i-th declared
    output of the model and the port it reads. *)
Definition results_named (graph : GraphProto) (f : ov_Function) (w : World) : Prop :=
  ∀ i r, f_results f !! i = Some r →
    ∃ output source,
      gp_output graph !! i = Some output
      ∧ kind_of w r = Some op_Result
      ∧ input_values w r = [source]
      ∧ get_friendly_name w r = result_name output source.

(** Two graph states that differ at most in their caches. *)
Definition same_but_cache (g g' : Graph Registry) : Prop :=
  m_model g' = m_model g ∧ m_parameters g' = m_parameters g
  ∧ m_telemetry g' = m_telemetry g.

(** The parameters the pruning keeps. *)
Definition surviving (w : World) (graph : GraphProto) (parameters : list nat)
    : list nat :=
  filter (λ p, is_dangling w graph p = false) parameters.




(** An operator set only grows: enabling a domain takes no operator away. *)
Definition enabling_is_monotone : Prop :=
  ∀ (opset : Registry) (domain : string) (n : NodeProto),
    is_operator_available opset n = true →
    is_operator_available (enable_opset_domain opset domain) n = true.

End Vocabulary.

(** ** Vocabulary of the further properties *)

(** Whether a character occurs in a string. *)
Fixpoint has_char (c : ascii) (s : string) : bool :=
  match s with
  | "" => false
  | String c' s' => Ascii.eqb c c' || has_char c s'
  end.

(** Keys in the order a [std::map] iterates them: strictly increasing. *)
Definition increasing (keys : list string) : Prop :=
  StronglySorted (λ a b, String.ltb a b = true) keys.

(** The number of nodes of an operator type, and that number as a
    [uint64_t] counter holds it. *)
Definition occurrences (nodes : list NodeProto) (op_type : string) : nat :=
  length (filter (λ n, np_op_type n = op_type) nodes).

Definition op_count (nodes : list NodeProto) (op_type : string) : N :=
  (N.of_nat (occurrences nodes op_type) mod two64)%N.

Definition op_count_event (nodes : list NodeProto) (op_type : string) : telemetry_event :=
  mk_event "op_count" ("onnx_" +:+ op_type) (op_count nodes op_type).

(** Two states of an IR node that differ at most in what its input
    slots read. *)
Definition same_but_inputs (n n' : IRNode) : Prop :=
  n_kind n' = n_kind n ∧ n_friendly_name n' = n_friendly_name n
  ∧ n_outputs n' = n_outputs n ∧ length (n_inputs n') = length (n_inputs n).

(** One round of the naming loop of set_friendly_names, for the output
    [o] declared as [out_name]: the friendly name, for a named node the
    deprecated tensor name, and the tensor names unless [o] is null. *)
Definition naming_round (friendly_name : string) (named : bool) (o : Output)
    (out_name : string) : M unit :=
  let* _ :=
    (if named then let* _ := set_friendly_name o.1 friendly_name in set_name o out_name
     else set_friendly_name o.1 friendly_name) in
  let* null := read (λ w, is_null w o) in
  if negb null then set_names o {[out_name]} else ret tt.

Section FurtherVocabulary.
Context {Env : Environment}.

(** What lifting does to a subgraph and the store: it borrows [names]
    from the parent scope, each of which resolves there, and for each of
    them appends one new node to the store, a parameter, and that
    parameter to the parameter list.  The nodes that were in the store
    keep everything but the sources of their input slots. *)
Definition lifts (names : list string)
    (sg : Subgraph Registry) (w : World) (sg' : Subgraph Registry) (w' : World) : Prop :=
  m_parent_graph sg' = m_parent_graph sg
  ∧ m_model (sg_graph sg') = m_model (sg_graph sg)
  ∧ m_inputs_from_parent sg' = m_inputs_from_parent sg ++ names
  ∧ m_parameters (sg_graph sg')
    = m_parameters (sg_graph sg) ++ seq (length (w_nodes w)) (length names)
  ∧ length (w_nodes w') = length (w_nodes w) + length names
  ∧ Forall (λ name, is_ng_node_in_cache (m_parent_graph sg) name = true) names
  ∧ w_log w' = w_log w ∧ w_events w' = w_events w
  ∧ (∀ id n, w_nodes w !! id = Some n →
       ∃ n', w_nodes w' !! id = Some n' ∧ same_but_inputs n n')
  ∧ (∀ id, (length (w_nodes w) ≤ id < length (w_nodes w'))%nat →
       kind_of w' id = Some op_Parameter).

Definition lifting (sg : Subgraph Registry) (w : World)
    (sg' : Subgraph Registry) (w' : World) : Prop :=
  ∃ names, lifts names sg w sg' w'.


End FurtherVocabulary.

(** * Properties *)

Section Properties.
Context {Env : Environment}.

(** ** Loops and sequencing *)

Lemma bind_ok {A B} (c : M A) (k : A → M B) w a w' :
  c w = (Ok a, w') → bind c k w = k a w'.
Proof. intros H. unfold bind. by rewrite H. Qed.

Lemma bind_throw {A B} (c : M A) (k : A → M B) w e w' :
  c w = (Throw e, w') → bind c k w = (Throw e, w').
Proof. intros H. unfold bind. by rewrite H. Qed.

Lemma bind_inv_ok {A B} (c : M A) (k : A → M B) w b w' :
  bind c k w = (Ok b, w') → ∃ a w1, c w = (Ok a, w1) ∧ k a w1 = (Ok b, w').
Proof.
  unfold bind. destruct (c w) as [[a|e] w1]; [eauto | discriminate].
Qed.

Lemma for_each_cons {A S} (body : S → A → M S) a r s w :
  for_each body (a :: r) s w =
  match body s a w with
  | (Ok s', w') => for_each body r s' w'
  | (Throw e, w') => (Throw e, w')
  end.
Proof. reflexivity. Qed.

Lemma for_each_app {A S} (body : S → A → M S) l1 l2 s w :
  for_each body (l1 ++ l2) s w =
  match for_each body l1 s w with
  | (Ok s', w') => for_each body l2 s' w'
  | (Throw e, w') => (Throw e, w')
  end.
Proof.
  revert s w. induction l1 as [|a l1 IH]; intros s w; simpl; [done|].
  unfold bind. destruct (body s a w) as [[s'|e] w']; [apply IH | done].
Qed.

(** ** The initializer pass *)

Lemma process_initializer_unnamed st t w :
  has_name t = false → process_initializer st t w = (Ok st, w).
Proof. intros H. unfold process_initializer. destruct st. by rewrite H. Qed.

Lemma make_initializer_constant_fatal t e w :
  get_ng_constant t = Throw e → is_invalid_external_data e = true →
  make_initializer_constant t w = (Throw e, w).
Proof. intros Hd He. unfold make_initializer_constant. by rewrite Hd, He. Qed.

Lemma process_initializer_fatal st t e w :
  has_name t = true → get_ng_constant t = Throw e →
  is_invalid_external_data e = true →
  process_initializer st t w = (Throw e, w).
Proof.
  intros Hn Hd He. unfold process_initializer. destruct st as [inits cache].
  rewrite Hn. apply bind_throw. by apply make_initializer_constant_fatal.
Qed.

Lemma Graph_ctor_initializers_throw model_proto cache telemetry w e w' :
  for_each process_initializer (gp_initializer (mp_graph model_proto)) (∅, cache) w
    = (Throw e, w') →
  Graph_ctor model_proto cache telemetry w = (Throw e, w').
Proof. intros H. unfold Graph_ctor. by apply bind_throw. Qed.

(** C1 (amended).  A named initializer whose payload references external
    data that cannot be resolved makes Graph construction fail, whatever
    the inputs and nodes of the model are, and no graph is returned.
    When the initializers before it were all materialized or degraded,
    the failure propagated is that initializer's own, and the store and
    the log are as those earlier initializers left them: no constant is
    created for it and nothing after it is processed. *)
Theorem C1_unresolvable_external_data_is_fatal
    (model_proto : ModelProto) (cache : GraphCache) (telemetry : bool)
    (pre post : list TensorProto) (t : TensorProto) (e : exn) (w : World) :
  gp_initializer (mp_graph model_proto) = pre ++ t :: post →
  has_name t = true →
  get_ng_constant t = Throw e →
  is_invalid_external_data e = true →
  (∃ e' w', Graph_ctor model_proto cache telemetry w = (Throw e', w'))
  ∧ (∀ st1 w1,
       for_each process_initializer pre (∅, cache) w = (Ok st1, w1) →
       Graph_ctor model_proto cache telemetry w = (Throw e, w1)).
Proof.
  intros Hl Hn Hd He.
  assert (Hrun : for_each process_initializer (pre ++ t :: post) (∅, cache) w =
                 match for_each process_initializer pre (∅, cache) w with
                 | (Ok _, w1) => (Throw e, w1)
                 | (Throw e', w1) => (Throw e', w1)
                 end).
  { rewrite for_each_app.
    destruct (for_each process_initializer pre (∅, cache) w) as [[st1|e'] w1]; [|done].
    simpl. apply bind_throw. by apply process_initializer_fatal. }
  split.
  - destruct (for_each process_initializer pre (∅, cache) w) as [[st1|e'] w1] eqn:Hpre.
    + exists e, w1. apply Graph_ctor_initializers_throw. by rewrite Hl, Hrun.
    + exists e', w1. apply Graph_ctor_initializers_throw. by rewrite Hl, Hrun.
  - intros st1 w1 Hpre. apply Graph_ctor_initializers_throw.
    by rewrite Hl, Hrun, Hpre.
Qed.

Lemma alter_last {A} (f : A → A) (l : list A) (x : A) :
  alter f (length l) (l ++ [x]) = l ++ [f x].
Proof.
  replace (length l) with (length l + 0) by lia.
  by rewrite alter_app_r.
Qed.

Lemma process_initializer_made initializers cache t w id w1 :
  has_name t = true →
  make_initializer_constant t w = (Ok id, w1) →
  process_initializer (initializers, cache) t w =
    (Ok (emplaced initializers t, <[name_of t := (id, 0)]> cache),
     mk_World (alter (on_output 0 (tensor_set_names {[name_of t]})) id (w_nodes w1))
              (w_log w1) (w_events w1)).
Proof.
  intros Hn Hm. unfold process_initializer. rewrite Hn.
  erewrite bind_ok by exact Hm. reflexivity.
Qed.


Lemma make_initializer_constant_decoded t d w :
  get_ng_constant t = Ok d →
  make_initializer_constant t w = (Ok (length (w_nodes w)), add_node (constant_node d) w).
Proof. intros Hd. unfold make_initializer_constant. by rewrite Hd. Qed.


Lemma make_initializer_constant_ok t w id w1 :
  make_initializer_constant t w = (Ok id, w1) →
  id = length (w_nodes w)
  ∧ ∃ d, materializes t d ∧ w_nodes w1 = w_nodes w ++ [constant_node d].
Proof.
  unfold make_initializer_constant, materializes.
  destruct (get_ng_constant t) as [d|exc] eqn:Hd.
  - intros [= <- <-]. split; [done|]. exists d. split; [by left|done].
  - destruct (is_invalid_external_data exc) eqn:Hx; [discriminate|].
    destruct (is_ngraph_error exc) eqn:He; [|discriminate].
    intros [= <- <-]. split; [done|]. exists (zero_scalar t).
    split; [right; by exists exc|done].
Qed.

Lemma process_initializer_ok initializers cache t w st' w' :
  has_name t = true →
  process_initializer (initializers, cache) t w = (Ok st', w') →
  ∃ d, materializes t d
       ∧ st' = (emplaced initializers t,
                <[name_of t := (length (w_nodes w), 0)]> cache)
       ∧ w_nodes w' = w_nodes w ++ [named_constant (name_of t) d].
Proof.
  intros Hn Hrun.
  destruct (make_initializer_constant t w) as [[id|e] w1] eqn:Hm.
  - destruct (make_initializer_constant_ok _ _ _ _ Hm) as (-> & d & Hd & Hnodes).
    rewrite (process_initializer_made _ _ _ _ _ _ Hn Hm) in Hrun.
    injection Hrun as <- <-. exists d. split; [done|]. split; [done|].
    simpl. rewrite Hnodes. by rewrite alter_last.
  - unfold process_initializer in Hrun. rewrite Hn in Hrun.
    erewrite bind_throw in Hrun by exact Hm. discriminate.
Qed.

Lemma initializer_pass_caches l st0 w st' w' :
  for_each process_initializer l st0 w = (Ok st', w') →
  w_nodes w `prefix_of` w_nodes w' ∧ initializers_cached l st'.2 w'.
Proof.
  revert st' w'. induction l as [|t l IH] using rev_ind; intros st' w'.
  - simpl. intros [= <- <-]. split; [done|]. intros t Ht. by apply elem_of_nil in Ht.
  - rewrite for_each_app.
    destruct (for_each process_initializer l st0 w) as [[st1|e] w1] eqn:Hl; [|done].
    destruct (IH _ _ eq_refl) as [Hpre Hinv]. simpl.
    unfold bind at 1.
    destruct (process_initializer st1 t w1) as [[st2|e] w2] eqn:Hstep; [|done].
    intros [= <- <-].
    destruct (has_name t) eqn:Hn.
    + destruct st1 as [inits1 cache1].
      destruct (process_initializer_ok _ _ _ _ _ _ Hn Hstep) as (d & Hd & -> & Hnodes).
      split; [etrans; [exact Hpre|]; rewrite Hnodes; by apply prefix_app_r|].
      intros t0 Ht0 Hn0. simpl.
      destruct (decide (name_of t0 = name_of t)) as [Heq|Hne].
      * exists (length (w_nodes w1)), t, d, l, []. rewrite Heq.
        split; [apply lookup_insert_eq|]. split.
        { unfold node_at. rewrite Hnodes, lookup_app_r by lia.
          by replace (length (w_nodes w1) - length (w_nodes w1)) with 0 by lia. }
        repeat split; try done.
        intros t'' Ht''. by apply elem_of_nil in Ht''.
      * apply elem_of_app in Ht0 as [Ht0|Ht0];
          [|apply list_elem_of_singleton in Ht0; by subst t0].
        destruct (Hinv t0 Ht0 Hn0)
          as (id & t' & d' & before & after & Hc & Hnode & Hsplit & Hn' & Hname
              & Hlast & Hd').
        exists id, t', d', before, (after ++ [t]).
        split; [by rewrite lookup_insert_ne|]. split.
        { unfold node_at in *. rewrite Hnodes. by apply lookup_app_l_Some. }
        split; [by rewrite Hsplit, <- app_assoc|].
        repeat split; try done.
        intros t'' Ht'' Hn''. apply elem_of_app in Ht'' as [Ht''|Ht''].
        { by apply Hlast. }
        apply list_elem_of_singleton in Ht'' as ->. congruence.
    + rewrite process_initializer_unnamed in Hstep by done.
      injection Hstep as <- <-. split; [done|].
      intros t0 Ht0 Hn0. apply elem_of_app in Ht0 as [Ht0|Ht0].
      * destruct (Hinv t0 Ht0 Hn0)
          as (id & t' & d' & before & after & Hc & Hnode & Hsplit & Hn' & Hname
              & Hlast & Hd').
        exists id, t', d', before, (after ++ [t]).
        split; [done|]. split; [done|].
        split; [by rewrite Hsplit, <- app_assoc|].
        repeat split; try done.
        intros t'' Ht'' Hn''. apply elem_of_app in Ht'' as [Ht''|Ht''].
        { by apply Hlast. }
        apply list_elem_of_singleton in Ht'' as ->. congruence.
      * apply list_elem_of_singleton in Ht0 as ->. congruence.
Qed.

(** ** The input pass *)

Lemma contains_true (c : GraphCache) name : contains c name = true ↔ is_Some (c !! name).
Proof. unfold contains. apply bool_decide_eq_true. Qed.

Lemma contains_false (c : GraphCache) name : contains c name = false ↔ c !! name = None.
Proof.
  unfold contains. rewrite bool_decide_eq_false. rewrite <- eq_None_not_Some. done.
Qed.

Lemma process_input_step initializers cache parameters input w :
  process_input initializers (cache, parameters) input w =
  if contains cache (vi_name input) then (Ok (cache, parameters), w)
  else (Ok (<[vi_name input := (length (w_nodes w), 0)]> cache,
            parameters ++ [length (w_nodes w)]),
        add_node (parameter_node input) w).
Proof. unfold process_input. by destruct (contains cache (vi_name input)). Qed.

(** The pass never throws.  It keeps what the cache held, and every
    parameter it adds is the placeholder of an input absent from the
    cache it started from. *)
Lemma input_pass initializers inputs cache0 cache parameters w :
  (∀ name, is_Some (cache0 !! name) → cache !! name = cache0 !! name) →
  placeholders_of inputs cache0 parameters w →
  ∃ cache' parameters' w',
    for_each (process_input initializers) inputs (cache, parameters) w
      = (Ok (cache', parameters'), w')
    ∧ w_nodes w `prefix_of` w_nodes w'
    ∧ w_log w' = w_log w ∧ w_events w' = w_events w
    ∧ (∀ name, is_Some (cache0 !! name) → cache' !! name = cache0 !! name)
    ∧ placeholders_of inputs cache0 parameters' w'.
Proof.
  assert (Hgen : ∀ done todo cache parameters w,
    (∀ name, is_Some (cache0 !! name) → cache !! name = cache0 !! name) →
    placeholders_of (done ++ todo) cache0 parameters w →
    ∃ cache' parameters' w',
      for_each (process_input initializers) todo (cache, parameters) w
        = (Ok (cache', parameters'), w')
      ∧ w_nodes w `prefix_of` w_nodes w'
      ∧ w_log w' = w_log w ∧ w_events w' = w_events w
      ∧ (∀ name, is_Some (cache0 !! name) → cache' !! name = cache0 !! name)
      ∧ placeholders_of (done ++ todo) cache0 parameters' w').
  { clear. intros done todo. revert done.
    induction todo as [|input todo IH]; intros done cache parameters w Hkeep Hpl.
    - exists cache, parameters, w. by repeat split.
    - rewrite for_each_cons, process_input_step.
      destruct (contains cache (vi_name input)) eqn:Hc.
      + replace (done ++ input :: todo) with ((done ++ [input]) ++ todo) in *
          by (by rewrite <- app_assoc).
        by apply IH.
      + apply contains_false in Hc.
        assert (Hfresh : cache0 !! vi_name input = None).
        { destruct (cache0 !! vi_name input) as [o|] eqn:H0; [|done].
          rewrite <- H0, <- Hc. symmetry. apply Hkeep. by rewrite H0. }
        replace (done ++ input :: todo) with ((done ++ [input]) ++ todo) in *
          by (by rewrite <- app_assoc).
        destruct (IH (done ++ [input])
                     (<[vi_name input := (length (w_nodes w), 0)]> cache)
                     (parameters ++ [length (w_nodes w)])
                     (add_node (parameter_node input) w))
          as (cache' & parameters' & w' & Hrun & Hpre & Hlog & Hev & Hkeep' & Hpl').
        * intros name Hname. rewrite lookup_insert_ne; [by apply Hkeep|].
          intros <-. rewrite Hfresh in Hname. by destruct Hname.
        * intros p Hp. apply elem_of_app in Hp as [Hp|Hp].
          -- destruct (Hpl p Hp) as (i & Hi & Hsh & Hnode).
             exists i. split; [done|]. split; [done|].
             unfold node_at, add_node in *. simpl. by apply lookup_app_l_Some.
          -- apply list_elem_of_singleton in Hp as ->. exists input.
             split; [apply elem_of_app; left; apply elem_of_app; right;
                     by apply list_elem_of_singleton|].
             split; [done|]. unfold node_at, add_node. simpl.
             rewrite lookup_app_r by lia.
             by replace (length (w_nodes w) - length (w_nodes w)) with 0 by lia.
        * exists cache', parameters', w'. split; [done|].
          split; [etrans; [|exact Hpre]; simpl; by apply prefix_app_r|].
          by repeat split. }
  intros Hkeep Hpl. by apply (Hgen [] inputs).
Qed.

(** ** The operator scan and the final gate *)

Lemma send_op_statistics_ok stats w :
  ∃ w', send_op_statistics stats w = (Ok tt, w')
        ∧ w_nodes w' = w_nodes w ∧ w_log w' = w_log w.
Proof.
  unfold send_op_statistics. revert w.
  induction stats as [|op stats IH]; intros w.
  - by exists w.
  - rewrite for_each_cons. unfold send_event at 1.
    destruct (IH (mk_World (w_nodes w) (w_log w)
                    (w_events w ++ [mk_event "op_count" ("onnx_" +:+ op.1) op.2])))
      as (w' & Hrun & Hn & Hl).
    by exists w'.
Qed.

Lemma statistics_ok (telemetry : bool) (stats : smap N) (w : World) :
  (if telemetry then send_op_statistics stats else ret tt) w
    = (Ok tt, after_statistics telemetry stats w)
  ∧ w_nodes (after_statistics telemetry stats w) = w_nodes w
  ∧ w_log (after_statistics telemetry stats w) = w_log w.
Proof.
  unfold after_statistics. destruct telemetry; [|done].
  destruct (send_op_statistics_ok stats w) as (w' & -> & Hn & Hl). done.
Qed.

(** The constructor, once the two passes over initializers and inputs
    have run: the scan, the counts, and the gate. *)
Lemma Graph_ctor_gate model_proto cache telemetry w initializers cache1 w1
      cache2 parameters w2 :
  for_each process_initializer (gp_initializer (mp_graph model_proto)) (∅, cache) w
    = (Ok (initializers, cache1), w1) →
  for_each (process_input initializers) (gp_input (mp_graph model_proto))
           (cache1, []) w1 = (Ok (cache2, parameters), w2) →
  let s := scan_nodes telemetry (gp_node (mp_graph model_proto))
                      (Model_opset model_proto) in
  let w3 := after_statistics telemetry (op_statistics s) w2 in
  Graph_ctor model_proto cache telemetry w =
  if is_empty (still_unknown telemetry model_proto)
  then (Ok (mk_Graph (mk_Model model_proto (scan_opset s)) cache2 parameters telemetry), w3)
  else (Throw (mk_exn CheckFailure
                 (unsupported_message (still_unknown telemetry model_proto))), w3).
Proof.
  intros Hinit Hin s w3. unfold Graph_ctor.
  erewrite bind_ok by exact Hinit. cbv beta iota.
  erewrite bind_ok by exact Hin. cbv beta iota.
  erewrite bind_ok by apply statistics_ok.
  fold s. fold w3. unfold still_unknown. fold s.
  unfold NGRAPH_CHECK.
  by destruct (is_empty (reverify (scan_opset s) (unknown_operators s))).
Qed.

Lemma Graph_ctor_inv model_proto cache telemetry w g w' :
  Graph_ctor model_proto cache telemetry w = (Ok g, w') →
  ∃ initializers cache1 w1 w2,
    for_each process_initializer (gp_initializer (mp_graph model_proto)) (∅, cache) w
      = (Ok (initializers, cache1), w1)
    ∧ for_each (process_input initializers) (gp_input (mp_graph model_proto))
               (cache1, []) w1 = (Ok (m_cache g, m_parameters g), w2)
    ∧ w_nodes w' = w_nodes w2
    ∧ still_unknown telemetry model_proto = []
    ∧ m_opset (m_model g)
      = scan_opset (scan_nodes telemetry (gp_node (mp_graph model_proto))
                               (Model_opset model_proto)).
Proof.
  intros Hrun.
  destruct (for_each process_initializer (gp_initializer (mp_graph model_proto))
              (∅, cache) w) as [[[initializers cache1]|e] w1] eqn:Hinit;
    [|by rewrite (Graph_ctor_initializers_throw _ _ _ _ _ _ Hinit) in Hrun].
  destruct (input_pass initializers (gp_input (mp_graph model_proto))
              cache1 cache1 [] w1) as (cache2 & parameters & w2 & Hin & _);
    [done|by intros p Hp; apply elem_of_nil in Hp|].
  rewrite (Graph_ctor_gate _ _ _ _ _ _ _ _ _ _ Hinit Hin) in Hrun.
  destruct (still_unknown telemetry model_proto) eqn:Hu; [|discriminate].
  simpl in Hrun. injection Hrun as <- <-.
  exists initializers, cache1, w1, w2. repeat split; try done.
  apply statistics_ok.
Qed.

(** C8 (amended).  When Graph construction succeeds, the initializer pass
    has completed first and left every named initializer in the cache
    under its name, as a constant bound to that name (the constant of
    the last initializer of that name in the list); the input pass
    starts from that cache and the node scan follows it.  What the
    initializers put in the cache is still there at the end, the
    constants are still in the store, and every parameter of the graph
    is the placeholder of a declared input whose name the initializers
    had not taken: a shadowed input gets no parameter. *)
Theorem C8_initializers_cached_before_inputs_and_nodes
    (model_proto : ModelProto) (cache : GraphCache) (telemetry : bool)
    (w w' : World) (g : Graph Registry) :
  Graph_ctor model_proto cache telemetry w = (Ok g, w') →
  ∃ initializers cache1 w1 w2,
    for_each process_initializer (gp_initializer (mp_graph model_proto)) (∅, cache) w
      = (Ok (initializers, cache1), w1)
    ∧ initializers_cached (gp_initializer (mp_graph model_proto)) cache1 w1
    ∧ for_each (process_input initializers) (gp_input (mp_graph model_proto))
               (cache1, []) w1 = (Ok (m_cache g, m_parameters g), w2)
    ∧ w_nodes w1 `prefix_of` w_nodes w'
    ∧ (∀ name, is_Some (cache1 !! name) → m_cache g !! name = cache1 !! name)
    ∧ placeholders_of (gp_input (mp_graph model_proto)) cache1 (m_parameters g) w'.
Proof.
  intros Hrun.
  destruct (Graph_ctor_inv _ _ _ _ _ _ Hrun)
    as (initializers & cache1 & w1 & w2 & Hinit & Hin & Hnodes & _).
  exists initializers, cache1, w1, w2.
  destruct (initializer_pass_caches _ _ _ _ _ Hinit) as [_ Hcached].
  destruct (input_pass initializers (gp_input (mp_graph model_proto))
              cache1 cache1 [] w1)
    as (cache2 & parameters & w2' & Hin' & Hpre & _ & _ & Hkeep & Hpl);
    [done|by intros p Hp; apply elem_of_nil in Hp|].
  rewrite Hin in Hin'. injection Hin' as <- <- <-.
  repeat split; try done.
  - by rewrite Hnodes.
  - intros p Hp. destruct (Hpl p Hp) as (input & Hi & Hsh & Hnode).
    exists input. repeat split; try done. unfold node_at in *. by rewrite Hnodes.
Qed.

Lemma smap_emplace_elem {V} (k : string) (v : V) (m : smap V) (kv : string * V) :
  kv ∈ smap_emplace k v m → kv = (k, v) ∨ kv ∈ m.
Proof.
  induction m as [|[k' v'] m IH]; simpl.
  - intros H. apply list_elem_of_singleton in H. by left.
  - destruct (String.eqb k k'); [by right|].
    destruct (String.ltb k k').
    + intros H. apply elem_of_cons in H as [->|H]; [by left|by right].
    + intros H. apply elem_of_cons in H as [->|H]; [right; by left|].
      destruct (IH H) as [->|Hin]; [by left|right; by right].
Qed.

(** The scan only ever records nodes of the model. *)
Lemma scan_records_nodes telemetry (nodes : list NodeProto) (s : scan_state)
      (kv : string * NodeProto) :
  kv ∈ unknown_operators (fold_left (scan_node telemetry) nodes s) →
  kv ∈ unknown_operators s ∨ kv.2 ∈ nodes.
Proof.
  revert s. induction nodes as [|n nodes IH]; intros s; simpl; [by left|].
  intros H. destruct (IH _ H) as [Hs|Hn]; [|right; by right].
  unfold scan_node in Hs.
  destruct (negb (is_operator_available (scan_opset s) n)); simpl in Hs; [|by left].
  apply smap_emplace_elem in Hs as [->|Hs]; [right; by left|by left].
Qed.

Lemma reverify_all_available opset (unknown : smap NodeProto) :
  (∀ kv, kv ∈ unknown → is_operator_available opset kv.2 = true) →
  reverify opset unknown = [].
Proof.
  unfold reverify. induction unknown as [|kv unknown IH]; intros H; [done|].
  rewrite filter_cons_False.
  - apply IH. intros kv' Hkv'. apply H. by right.
  - rewrite (H kv) by (by left). done.
Qed.

Lemma string_app_cons (c : ascii) (s t : string) :
  String c s +:+ t = String c (s +:+ t).
Proof. reflexivity. Qed.

Lemma string_app_nil_l (s : string) : "" +:+ s = s.
Proof. reflexivity. Qed.

Lemma string_app_nil_r (s : string) : s +:+ "" = s.
Proof.
  induction s as [|c s IH]; [done|]. by rewrite string_app_cons, IH.
Qed.

Lemma string_app_assoc (a b c : string) : (a +:+ b) +:+ c = a +:+ (b +:+ c).
Proof.
  induction a as [|c0 a IH]; [done|]. by rewrite !string_app_cons, IH.
Qed.

Lemma to_string_loop_cons {V} (k : string) (v : V) (m : smap V) at_begin result :
  to_string_loop ((k, v) :: m) at_begin result
  = to_string_loop m false (result +:+ ((if at_begin then "" else ", ") +:+ k)).
Proof. reflexivity. Qed.

Lemma to_string_loop_result {V} (m : smap V) (result : string) :
  to_string_loop m false result = result +:+ to_string_loop m false "".
Proof.
  revert result. induction m as [|[k v] m IH]; intros result.
  - simpl. by rewrite string_app_nil_r.
  - rewrite !to_string_loop_cons, IH, (IH ("" +:+ _)).
    by rewrite string_app_nil_l, !string_app_assoc.
Qed.

Lemma to_string_loop_concat {V} (m : smap V) (k : string) :
  k +:+ to_string_loop m false "" = String.concat ", " (k :: map fst m).
Proof.
  revert k. induction m as [|[k' v'] m IH]; intros k.
  - simpl. by rewrite string_app_nil_r.
  - change (String.concat ", " (k :: map fst ((k', v') :: m)))
      with (k +:+ ", " +:+ String.concat ", " (k' :: map fst m)).
    rewrite <- IH, to_string_loop_cons, to_string_loop_result.
    by rewrite string_app_nil_l, !string_app_assoc.
Qed.

(** The diagnostic lists the keys of the map in order, comma-joined. *)
Lemma to_string_concat {V} (m : smap V) :
  to_string m = String.concat ", " (map fst m).
Proof.
  unfold to_string. destruct m as [|[k v] m]; [done|].
  rewrite to_string_loop_cons, to_string_loop_result, !string_app_nil_l.
  apply to_string_loop_concat.
Qed.

(** While the initializers are in, the gate throws exactly when an
    operator is still unknown, once, with all of them in the message. *)
Lemma Graph_ctor_rejects_unknown_operators model_proto cache telemetry w st1 w1 :
  for_each process_initializer (gp_initializer (mp_graph model_proto)) (∅, cache) w
    = (Ok st1, w1) →
  still_unknown telemetry model_proto ≠ [] →
  ∃ w', Graph_ctor model_proto cache telemetry w
        = (Throw (mk_exn CheckFailure
                    ("nGraph does not support the following ONNX operations: "
                       +:+ String.concat ", "
                             (map fst (still_unknown telemetry model_proto)))), w').
Proof.
  intros Hinit Hu. destruct st1 as [initializers cache1].
  destruct (input_pass initializers (gp_input (mp_graph model_proto))
              cache1 cache1 [] w1) as (cache2 & parameters & w2 & Hin & _);
    [done|by intros p Hp; apply elem_of_nil in Hp|].
  rewrite (Graph_ctor_gate _ _ _ _ _ _ _ _ _ _ Hinit Hin).
  destruct (still_unknown telemetry model_proto) eqn:Hs; [done|].
  simpl is_empty. cbv iota. eexists. unfold unsupported_message.
  by rewrite to_string_concat.
Qed.

(** *** Completeness of the diagnostic, when keys do not collide *)

Lemma smap_emplace_key {V} (k : string) (v : V) (m : smap V) : k ∈ (smap_emplace k v m).*1.
Proof.
  induction m as [|[k' v'] m IH]; simpl; [by left|].
  destruct (String.eqb k k') eqn:He.
  - apply String.eqb_eq in He as ->. by left.
  - destruct (String.ltb k k'); [by left|]. rewrite fmap_cons. by right.
Qed.

Lemma smap_emplace_keeps {V} (k k0 : string) (v : V) (m : smap V) :
  k0 ∈ m.*1 → k0 ∈ (smap_emplace k v m).*1.
Proof.
  induction m as [|[k' v'] m IH]; simpl; [intros H; by apply elem_of_nil in H|].
  destruct (String.eqb k k'); [done|].
  destruct (String.ltb k k'); [intros H; rewrite fmap_cons; by right|].
  rewrite !fmap_cons. intros H. apply elem_of_cons in H as [->|H]; [by left|].
  right. by apply IH.
Qed.

Lemma scan_keeps_keys telemetry (nodes : list NodeProto) (s : scan_state) (k : string) :
  k ∈ (unknown_operators s).*1 →
  k ∈ (unknown_operators (fold_left (scan_node telemetry) nodes s)).*1.
Proof.
  revert s. induction nodes as [|n nodes IH]; intros s Hk; [done|].
  simpl. apply IH. unfold scan_node.
  destruct (negb (is_operator_available (scan_opset s) n)); simpl; [|done].
  by apply smap_emplace_keeps.
Qed.

Lemma scan_keeps_available telemetry (nodes : list NodeProto) (s : scan_state) n :
  enabling_is_monotone →
  is_operator_available (scan_opset s) n = true →
  is_operator_available (scan_opset (fold_left (scan_node telemetry) nodes s)) n = true.
Proof.
  intros Hmono. revert s. induction nodes as [|n0 nodes IH]; intros s Hn; [done|].
  simpl. apply IH. unfold scan_node.
  destruct (negb (is_operator_available (scan_opset s) n0)); simpl; [|done].
  by apply Hmono.
Qed.

Lemma scan_records_unavailable telemetry (nodes : list NodeProto) (s : scan_state) n :
  enabling_is_monotone → n ∈ nodes →
  is_operator_available (scan_opset (fold_left (scan_node telemetry) nodes s)) n = false →
  get_op_domain_and_name n
    ∈ (unknown_operators (fold_left (scan_node telemetry) nodes s)).*1.
Proof.
  intros Hmono. revert s. induction nodes as [|n0 nodes IH]; intros s Hn Hfinal;
    [by apply elem_of_nil in Hn|].
  simpl in *. apply elem_of_cons in Hn as [<-|Hn]; [|by apply IH].
  - apply scan_keeps_keys. unfold scan_node.
    destruct (is_operator_available (scan_opset s) n) eqn:Hnow; simpl.
    + rewrite (scan_keeps_available telemetry nodes (scan_node telemetry s n) n Hmono)
        in Hfinal; [discriminate|].
      unfold scan_node. by rewrite Hnow.
    + apply smap_emplace_key.
Qed.

Lemma scan_entries_have_their_key telemetry (nodes : list NodeProto) (s : scan_state)
      (kv : string * NodeProto) :
  kv ∈ unknown_operators (fold_left (scan_node telemetry) nodes s) →
  kv ∈ unknown_operators s ∨ (kv.2 ∈ nodes ∧ get_op_domain_and_name kv.2 = kv.1).
Proof.
  revert s. induction nodes as [|n nodes IH]; intros s; simpl; [by left|].
  intros H. destruct (IH _ H) as [Hs|[Hn Hk]]; [|right; split; [by right|done]].
  unfold scan_node in Hs.
  destruct (negb (is_operator_available (scan_opset s) n)); simpl in Hs; [|by left].
  apply smap_emplace_elem in Hs as [->|Hs]; [right; split; [by left|done]|by left].
Qed.

(** X4.  With operator sets that only grow, an operator of the model
    that is still unavailable after the scan is in the diagnostic,
    provided every node that renders to the same key is unavailable
    too. *)
Lemma X4_unresolved_operator_is_reported telemetry model_proto n :
  enabling_is_monotone →
  let nodes := gp_node (mp_graph model_proto) in
  let final := scan_opset (scan_nodes telemetry nodes (Model_opset model_proto)) in
  (∀ n', n' ∈ nodes → get_op_domain_and_name n' = get_op_domain_and_name n →
         is_operator_available final n' = false) →
  n ∈ nodes → is_operator_available final n = false →
  get_op_domain_and_name n ∈ (still_unknown telemetry model_proto).*1.
Proof.
  intros Hmono nodes final Hkeys Hn Hfinal.
  assert (Hkey := scan_records_unavailable telemetry nodes
                    (mk_scan [] [] (Model_opset model_proto)) n Hmono Hn Hfinal).
  apply list_elem_of_fmap in Hkey as ([k n0] & Hk & Hin). simpl in Hk. subst k.
  apply list_elem_of_fmap. exists (get_op_domain_and_name n, n0). split; [done|].
  unfold still_unknown, reverify. apply list_elem_of_filter. split; [|exact Hin].
  simpl. apply scan_entries_have_their_key in Hin as [Hin|[Hn0 Hk0]];
    [by apply elem_of_nil in Hin|].
  by apply Hkeys.
Qed.

(** C4.  When every operator of the model is available in the operator
    sets as the upfront scan leaves them (the scan having enabled the
    domain of each node it found unavailable), the re-verification pass
    empties the set of unknown operators and Graph construction succeeds
    once the initializers are in, with those operator sets. *)
Theorem C4_domains_enabled_by_the_scan_are_accepted
    (model_proto : ModelProto) (cache : GraphCache) (telemetry : bool)
    (w w1 : World) (st1 : gmap string TensorProto * GraphCache) :
  for_each process_initializer (gp_initializer (mp_graph model_proto)) (∅, cache) w
    = (Ok st1, w1) →
  (∀ n, n ∈ gp_node (mp_graph model_proto) →
        is_operator_available
          (scan_opset (scan_nodes telemetry (gp_node (mp_graph model_proto))
                                  (Model_opset model_proto))) n = true) →
  still_unknown telemetry model_proto = []
  ∧ ∃ g w', Graph_ctor model_proto cache telemetry w = (Ok g, w')
            ∧ m_opset (m_model g)
              = scan_opset (scan_nodes telemetry (gp_node (mp_graph model_proto))
                                       (Model_opset model_proto)).
Proof.
  intros Hinit Havail.
  assert (Hu : still_unknown telemetry model_proto = []).
  { unfold still_unknown. apply reverify_all_available. intros kv Hkv.
    apply scan_records_nodes in Hkv as [Hkv|Hkv];
      [by apply elem_of_nil in Hkv|by apply Havail]. }
  split; [exact Hu|]. destruct st1 as [initializers cache1].
  destruct (input_pass initializers (gp_input (mp_graph model_proto))
              cache1 cache1 [] w1) as (cache2 & parameters & w2 & Hin & _);
    [done|by intros p Hp; apply elem_of_nil in Hp|].
  rewrite (Graph_ctor_gate _ _ _ _ _ _ _ _ _ _ Hinit Hin), Hu. simpl.
  eexists _, _. split; reflexivity.
Qed.

(** ** Per-node conversion failures *)

(** C9.  When the conversion function of a node throws, make_ng_nodes
    throws too, whatever was thrown.  An OnnxNodeValidationFailure goes
    to the caller as it is.  Any other standard exception is replaced by
    an ngraph_error whose message is the node's error prefix, a colon and
    a line break, then the original message.  Anything else is logged
    with the node's error prefix and thrown again as it is. *)
Theorem C9_conversion_failure_is_never_swallowed
    (g : Graph Registry) (onnx_node : Node Registry)
    (ng_node_factory : Node Registry → M OutputVector)
    (exc : exn) (w w1 : World) :
  get_operator (m_opset (m_model g)) (Node_op_type onnx_node) (Node_domain onnx_node)
    = Ok ng_node_factory →
  ng_node_factory onnx_node w = (Throw exc, w1) →
  ∃ exc' w',
    make_ng_nodes g onnx_node w = (Throw exc', w')
    ∧ (is_OnnxNodeValidationFailure exc = true → exc' = exc ∧ w' = w1)
    ∧ (is_OnnxNodeValidationFailure exc = false → is_std_exception exc = true →
         exc' = mk_exn ngraph_error
                  (get_error_msg_prefix onnx_node +:+ ":" +:+ nl +:+ what exc)
         ∧ w' = w1)
    ∧ (is_std_exception exc = false →
         exc' = exc
         ∧ w' = add_log (NGRAPH_ERR (get_error_msg_prefix onnx_node
                                       +:+ "Unhandled exception type. " +:+ nl)) w1).
Proof.
  intros Hop Hthrow. unfold make_ng_nodes.
  erewrite bind_ok by (unfold lift_outcome; by rewrite Hop).
  unfold bind at 1, try_catch. rewrite Hthrow.
  unfold conversion_failure_handler.
  destruct exc as [cls msg]. destruct cls; simpl;
    eexists _, _; (split; [reflexivity|]); repeat split; intros; try done.
Qed.

(** ** Friendly names *)

Lemma names_of_update id f w :
  (∀ n, n_friendly_name (f n) = n_friendly_name n) →
  ∃ w', update_node id f w = (Ok tt, w') ∧ names_of w' = names_of w.
Proof.
  intros Hf. eexists. split; [reflexivity|]. unfold names_of. simpl.
  generalize (w_nodes w). intros l. revert id.
  induction l as [|n l IH]; intros [|id]; simpl; try done.
  - by rewrite Hf.
  - f_equal. apply IH.
Qed.

Lemma names_of_set_friendly_name id name w :
  ∃ w', set_friendly_name id name w = (Ok tt, w')
        ∧ names_of w' = <[id := name]> (names_of w).
Proof.
  eexists. split; [reflexivity|]. unfold names_of. simpl.
  generalize (w_nodes w). intros l. revert id.
  induction l as [|n l IH]; intros [|id]; simpl; try done.
  f_equal. apply IH.
Qed.

Lemma get_friendly_name_names_of w id :
  get_friendly_name w id = default "" (names_of w !! id).
Proof.
  unfold get_friendly_name, node_at, names_of. rewrite list_lookup_fmap.
  by destruct (w_nodes w !! id).
Qed.

Lemma Node_output_declared (onnx_node : Node Registry) i :
  i < get_outputs_size onnx_node →
  Node_output onnx_node i
    = Ok (default "" (np_output (node_proto onnx_node) !! i)).
Proof.
  unfold get_outputs_size, Node_output. intros Hi.
  destruct (lookup_lt_is_Some_2 (np_output (node_proto onnx_node)) i Hi) as [s ->].
  done.
Qed.

(** The naming loop never throws, and its effect on the friendly names
    is [renamed]. *)
Lemma name_outputs_renames (onnx_node : Node Registry) common_node outputs i w :
  ∃ w', name_outputs onnx_node common_node i outputs w = (Ok tt, w')
        ∧ names_of w' = renamed onnx_node common_node i outputs (names_of w).
Proof.
  revert i w. induction outputs as [|o rest IH]; intros i w; simpl.
  - by exists w.
  - destruct (Nat.leb (get_outputs_size onnx_node) i) eqn:Hi; [by exists w|].
    apply Nat.leb_gt in Hi.
    erewrite bind_ok
      by (unfold lift_outcome; rewrite (Node_output_declared _ _ Hi); reflexivity).
    set (out_name := default "" (np_output (node_proto onnx_node) !! i)).
    assert (Hname : ∃ w1,
      (if String.eqb (Node_get_name onnx_node) "" then set_friendly_name o.1 out_name
       else
         let* _ :=
           (if common_node then set_friendly_name o.1 (Node_get_name onnx_node)
            else set_friendly_name o.1 (Node_get_name onnx_node +:+ "_" +:+ out_name)) in
         set_name o out_name) w = (Ok tt, w1)
      ∧ names_of w1 = <[o.1 := friendly_name_at onnx_node common_node i]> (names_of w)).
    { unfold friendly_name_at. fold out_name.
      destruct (String.eqb (Node_get_name onnx_node) "").
      - apply names_of_set_friendly_name.
      - destruct common_node.
        + destruct (names_of_set_friendly_name o.1 (Node_get_name onnx_node) w)
            as (w1 & Hr1 & Hn1).
          destruct (names_of_update o.1 (on_output o.2 (tensor_set_name out_name)) w1)
            as (w2 & Hr2 & Hn2); [done|].
          exists w2. split; [by erewrite bind_ok by exact Hr1|congruence].
        + destruct (names_of_set_friendly_name o.1
                      (Node_get_name onnx_node +:+ "_" +:+ out_name) w)
            as (w1 & Hr1 & Hn1).
          destruct (names_of_update o.1 (on_output o.2 (tensor_set_name out_name)) w1)
            as (w2 & Hr2 & Hn2); [done|].
          exists w2. split; [by erewrite bind_ok by exact Hr1|congruence]. }
    destruct Hname as (w1 & Hr1 & Hn1).
    erewrite bind_ok by exact Hr1.
    unfold bind at 1, read.
    assert (Hnull : ∃ w2,
      (if negb (is_null w1 o) then set_names o {[out_name]} else ret tt) w1 = (Ok tt, w2)
      ∧ names_of w2 = names_of w1).
    { destruct (negb (is_null w1 o)); [|by exists w1].
      by apply names_of_update. }
    destruct Hnull as (w2 & Hr2 & Hn2).
    erewrite bind_ok by exact Hr2.
    destruct (IH (S i) w2) as (w' & Hr & Hn).
    exists w'. split; [done|]. by rewrite Hn, Hn2, Hn1.
Qed.

Lemma renamed_length (onnx_node : Node Registry) common_node outputs i names :
  length (renamed onnx_node common_node i outputs names) = length names.
Proof.
  revert i names. induction outputs as [|o rest IH]; intros i names; simpl; [done|].
  destruct (Nat.leb (get_outputs_size onnx_node) i); [done|].
  by rewrite IH, length_insert.
Qed.

(** A node that no processed output comes from keeps its name. *)
Lemma renamed_untouched (onnx_node : Node Registry) common_node outputs i names id :
  (∀ j o, outputs !! j = Some o → i + j < get_outputs_size onnx_node → o.1 ≠ id) →
  renamed onnx_node common_node i outputs names !! id = names !! id.
Proof.
  revert i names. induction outputs as [|o rest IH]; intros i names H; simpl; [done|].
  destruct (Nat.leb (get_outputs_size onnx_node) i) eqn:Hi; [done|].
  apply Nat.leb_gt in Hi. rewrite IH.
  - apply list_lookup_insert_ne. apply (H 0 o); [done|lia].
  - intros j o' Hj Hlt. apply (H (S j) o'); [done|lia].
Qed.

(** The last processed output that comes from a node names it. *)
Lemma renamed_last (onnx_node : Node Registry) common_node outputs i names j o :
  outputs !! j = Some o → i + j < get_outputs_size onnx_node →
  o.1 < length names →
  (∀ j' o', j < j' → i + j' < get_outputs_size onnx_node →
            outputs !! j' = Some o' → o'.1 ≠ o.1) →
  renamed onnx_node common_node i outputs names !! o.1
    = Some (friendly_name_at onnx_node common_node (i + j)).
Proof.
  revert i names j. induction outputs as [|o0 rest IH]; intros i names j Hj Hlt Hlen Hlast;
    [done|].
  simpl. destruct (Nat.leb (get_outputs_size onnx_node) i) eqn:Hi;
    [apply Nat.leb_le in Hi; lia|].
  destruct j as [|j].
  - injection Hj as ->. rewrite renamed_untouched.
    + rewrite Nat.add_0_r. by apply list_lookup_insert_eq.
    + intros j' o' Hj' Hlt'. apply (Hlast (S j') o'); [lia|lia|done].
  - replace (i + S j) with (S i + j) by lia. apply IH.
    + done.
    + lia.
    + by rewrite length_insert.
    + intros j' o' Hjj' Hlt' Hj'. apply (Hlast (S j') o'); [lia|lia|done].
Qed.

(** When every write gives the same name, any processed output is
    enough to give it to its node. *)
Lemma renamed_constant (onnx_node : Node Registry) common_node outputs i names id c :
  (∀ k, friendly_name_at onnx_node common_node k = c) →
  id < length names →
  names !! id = Some c
  ∨ (∃ j o, outputs !! j = Some o ∧ i + j < get_outputs_size onnx_node ∧ o.1 = id) →
  renamed onnx_node common_node i outputs names !! id = Some c.
Proof.
  intros Hc. revert i names. induction outputs as [|o rest IH]; intros i names Hlen H.
  - simpl. destruct H as [H|(j & o & Hj & _)]; done.
  - simpl. destruct (Nat.leb (get_outputs_size onnx_node) i) eqn:Hi.
    + apply Nat.leb_le in Hi. destruct H as [H|(j & o' & _ & Hlt & _)]; [done|lia].
    + apply Nat.leb_gt in Hi. apply IH; [by rewrite length_insert|].
      rewrite Hc. destruct (decide (o.1 = id)) as [Heq|Hne].
      * left. rewrite Heq. by apply list_lookup_insert_eq.
      * destruct H as [H|(j & o' & Hj & Hlt & Hid)].
        { left. by rewrite list_lookup_insert_ne. }
        destruct j as [|j]; [injection Hj as ->; done|].
        right. exists j, o'. repeat split; [done|lia|done].
Qed.

(** C6.  For a node other than Identity with at least one converted
    output, set_friendly_names returns and writes the friendly names in
    output order.  With no declared name each processed output gives its
    declared name to the IR node it comes from, so the last processed
    output of an IR node names it: a multi-output node ends up named
    after its last declared output.  With a declared name and all
    outputs from one IR node, that node is named exactly the declared
    name.  With a declared name and outputs from pairwise distinct IR
    nodes, each node is named the declared name, an underscore and the
    declared name of its output. *)
Theorem C6_friendly_names_of_a_converted_node
    (onnx_node : Node Registry) (ng_subgraph_outputs : OutputVector) (w : World) :
  String.eqb (Node_op_type onnx_node) "Identity" = false →
  ng_subgraph_outputs ≠ [] →
  (∀ o, o ∈ ng_subgraph_outputs → o.1 < length (w_nodes w)) →
  ∃ w' common_node,
    set_friendly_names onnx_node ng_subgraph_outputs w = (Ok tt, w')
    ∧ common_node_for_all_outputs ng_subgraph_outputs = Ok common_node
    ∧ names_of w' = renamed onnx_node common_node 0 ng_subgraph_outputs (names_of w)
    ∧ (Node_get_name onnx_node = "" →
       ∀ i o, ng_subgraph_outputs !! i = Some o → i < get_outputs_size onnx_node →
         (∀ j o', i < j → j < get_outputs_size onnx_node →
                  ng_subgraph_outputs !! j = Some o' → o'.1 ≠ o.1) →
         get_friendly_name w' o.1 = declared_output onnx_node i)
    ∧ (Node_get_name onnx_node ≠ "" →
       (∀ first o, ng_subgraph_outputs !! 0 = Some first →
                   o ∈ ng_subgraph_outputs → o.1 = first.1) →
       0 < get_outputs_size onnx_node →
       ∀ o, o ∈ ng_subgraph_outputs →
            get_friendly_name w' o.1 = Node_get_name onnx_node)
    ∧ (Node_get_name onnx_node ≠ "" →
       NoDup (ng_subgraph_outputs.*1) → (2 ≤ length ng_subgraph_outputs)%nat →
       ∀ i o, ng_subgraph_outputs !! i = Some o → i < get_outputs_size onnx_node →
         get_friendly_name w' o.1
           = Node_get_name onnx_node +:+ "_" +:+ declared_output onnx_node i).
Proof.
  intros Hid Hne Hvalid.
  destruct ng_subgraph_outputs as [|first rest] eqn:Houts; [done|].
  rewrite <- Houts in *.
  set (common_node := forallb (λ o : Output, Nat.eqb o.1 first.1) rest).
  assert (Hcommon : common_node_for_all_outputs ng_subgraph_outputs = Ok common_node)
    by (by rewrite Houts).
  destruct (name_outputs_renames onnx_node common_node ng_subgraph_outputs 0 w)
    as (w' & Hrun & Hnames).
  assert (Hlen : ∀ o, o ∈ ng_subgraph_outputs → o.1 < length (names_of w)).
  { intros o Ho. unfold names_of. rewrite length_fmap. by apply Hvalid. }
  exists w', common_node. split.
  { unfold set_friendly_names. rewrite Hid.
    erewrite bind_ok by (unfold lift_outcome; by rewrite Hcommon). exact Hrun. }
  split; [done|]. split; [done|]. split; [|split].
  - intros Hnoname i o Hi Hlt Hlast.
    rewrite get_friendly_name_names_of, Hnames.
    rewrite (renamed_last _ _ _ 0 _ i o Hi); [|lia| |].
    + simpl. unfold friendly_name_at, declared_output. by rewrite Hnoname.
    + apply Hlen. by apply list_elem_of_lookup_2 in Hi.
    + intros j' o' Hjj' Hlt' Hj'. by apply (Hlast j' o').
  - intros Hnamed Hsame Hsize o Ho.
    assert (Htrue : common_node = true).
    { unfold common_node. apply forallb_forall. intros o' Ho'.
      apply Nat.eqb_eq. apply (Hsame first o'); [by rewrite Houts|].
      rewrite Houts. right. by apply list_elem_of_In. }
    assert (Hc : ∀ k, friendly_name_at onnx_node common_node k = Node_get_name onnx_node).
    { intros k. unfold friendly_name_at. rewrite Htrue.
      destruct (String.eqb (Node_get_name onnx_node) "") eqn:He; [|done].
      by apply String.eqb_eq in He. }
    rewrite get_friendly_name_names_of, Hnames.
    erewrite renamed_constant; [done|exact Hc|by apply Hlen|].
    right. exists 0, first. split; [by rewrite Houts|]. split; [lia|].
    symmetry. apply (Hsame first o); [by rewrite Houts|done].
  - intros Hnamed Hdistinct Htwo i o Hi Hlt.
    assert (Hfalse : common_node = false).
    { unfold common_node. rewrite Houts in Hdistinct, Htwo.
      destruct rest as [|second rest']; [simpl in Htwo; lia|].
      simpl. rewrite fmap_cons in Hdistinct.
      apply NoDup_cons in Hdistinct as [Hnotin _].
      destruct (Nat.eqb second.1 first.1) eqn:He; [|done].
      apply Nat.eqb_eq in He. exfalso. apply Hnotin. rewrite <- He.
      rewrite fmap_cons. by left. }
    rewrite get_friendly_name_names_of, Hnames.
    rewrite (renamed_last _ _ _ 0 _ i o Hi); [|lia| |].
    + simpl. unfold friendly_name_at, declared_output. rewrite Hfalse.
      destruct (String.eqb (Node_get_name onnx_node) "") eqn:He; [|done].
      by apply String.eqb_eq in He.
    + apply Hlen. by apply list_elem_of_lookup_2 in Hi.
    + intros j' o' Hjj' _ Hj' Heq.
      assert (i = j'); [|lia].
      eapply (NoDup_lookup _ _ _ _ Hdistinct).
      * rewrite list_lookup_fmap, Hi. reflexivity.
      * rewrite list_lookup_fmap, Hj'. simpl. by rewrite Heq.
Qed.

(** ** Result naming *)

Lemma get_ng_outputs_reads scopes graph w outputs w' :
  get_ng_outputs scopes graph w = (Ok outputs, w') → w' = w.
Proof.
  unfold get_ng_outputs.
  assert (Hgen : ∀ l acc,
    for_each (λ results output,
                let* ng_output :=
                  lift_outcome (get_ng_node_from_cache scopes (vi_name output)) in
                let* null := read (λ w, is_null w ng_output) in
                if negb null then ret (results ++ [ng_output]) else ret results)
             l acc w = (Ok outputs, w') → w' = w); [|apply Hgen].
  induction l as [|output l IH]; intros acc.
  - simpl. by intros [= _ <-].
  - rewrite for_each_cons. unfold bind at 1, lift_outcome.
    destruct (get_ng_node_from_cache scopes (vi_name output)) as [o|e]; [|done].
    unfold bind at 1, read.
    destruct (negb (is_null w o)); apply IH.
Qed.

(** The Result nodes are new, one per output and in order, each reading
    its output; the nodes that were there are untouched. *)
Lemma make_function_results outputs parameters name w f w' :
  make_function outputs parameters name w = (Ok f, w') →
  f_parameters f = parameters
  ∧ f_results f = seq (length (w_nodes w)) (length outputs)
  ∧ ∃ rs, w_nodes w' = w_nodes w ++ rs
          ∧ length rs = length outputs
          ∧ w_log w' = w_log w
          ∧ ∀ i o, outputs !! i = Some o →
              ∃ n, rs !! i = Some n ∧ n_kind n = op_Result ∧ n_inputs n = [o]
                   ∧ n_friendly_name n = "".
Proof.
  unfold make_function. intros Hrun.
  apply bind_inv_ok in Hrun as (results & w1 & Hloop & Hret).
  injection Hret as <- <-. simpl. split; [done|].
  assert (Hgen : ∀ outputs acc w results w1,
    for_each (λ rs o, let* n := read (λ w, result_node w o) in
                      let* r := alloc n in ret (rs ++ [r])) outputs acc w
      = (Ok results, w1) →
    results = acc ++ seq (length (w_nodes w)) (length outputs)
    ∧ ∃ rs, w_nodes w1 = w_nodes w ++ rs
            ∧ length rs = length outputs
            ∧ w_log w1 = w_log w
            ∧ ∀ i o, outputs !! i = Some o →
                ∃ n, rs !! i = Some n ∧ n_kind n = op_Result ∧ n_inputs n = [o]
                     ∧ n_friendly_name n = "").
  { clear. induction outputs as [|o outputs IH]; intros acc w results w1.
    - simpl. intros [= <- <-]. split; [by rewrite app_nil_r|].
      exists []. by rewrite app_nil_r.
    - rewrite for_each_cons. unfold bind at 1, read, alloc, ret. simpl.
      intros Hrun. apply IH in Hrun as (-> & rs & Hnodes & Hlen & Hlog & Hrs).
      simpl in *. rewrite length_app in *. simpl in *. split.
      { rewrite <- app_assoc. simpl. by rewrite Nat.add_1_r. }
      exists (result_node w o :: rs). split; [by rewrite Hnodes, <- app_assoc|].
      split; [simpl; by rewrite Hlen|]. split; [done|].
      intros [|i] o' Hi; [|by apply Hrs].
      injection Hi as <-. by exists (result_node w o). }
  apply Hgen in Hloop as (-> & Hrs). done.
Qed.

Lemma set_friendly_name_get id name w w' id' :
  set_friendly_name id name w = (Ok tt, w') →
  input_values w' id' = input_values w id'
  ∧ kind_of w' id' = kind_of w id'
  ∧ w_log w' = w_log w
  ∧ length (w_nodes w') = length (w_nodes w)
  ∧ get_friendly_name w' id'
    = if decide (id' = id ∧ id < length (w_nodes w)) then name
      else get_friendly_name w id'.
Proof.
  intros [= <-].
  unfold input_values, kind_of, get_friendly_name, node_at. simpl.
  rewrite length_alter. split; [|split; [|split; [done|split; [done|]]]].
  - destruct (decide (id = id')) as [->|Hne].
    + rewrite list_lookup_alter_eq. by destruct (w_nodes w !! id').
    + by rewrite list_lookup_alter_ne.
  - destruct (decide (id = id')) as [->|Hne].
    + rewrite list_lookup_alter_eq. by destruct (w_nodes w !! id').
    + by rewrite list_lookup_alter_ne.
  - destruct (decide (id = id')) as [->|Hne].
    + rewrite list_lookup_alter_eq.
      destruct (w_nodes w !! id') eqn:Hl; simpl.
      * apply lookup_lt_Some in Hl. by rewrite decide_True.
      * apply lookup_ge_None in Hl. rewrite decide_False; [done|]. lia.
    + rewrite list_lookup_alter_ne by done. rewrite decide_False; [done|].
      intros [-> _]. done.
Qed.

Lemma name_results_names onnx_outputs results i w w' :
  NoDup results → (∀ r, r ∈ results → r < length (w_nodes w)) →
  name_results onnx_outputs i results w = (Ok tt, w') →
  (∀ id, input_values w' id = input_values w id)
  ∧ (∀ id, kind_of w' id = kind_of w id)
  ∧ w_log w' = w_log w
  ∧ length (w_nodes w') = length (w_nodes w)
  ∧ (∀ id, id ∉ results → get_friendly_name w' id = get_friendly_name w id)
  ∧ ∀ j r, results !! j = Some r →
      ∃ output source,
        onnx_outputs !! (i + j) = Some output
        ∧ input_values w r !! 0 = Some source
        ∧ get_friendly_name w' r = result_name output source.
Proof.
  revert i w. induction results as [|r results IH]; intros i w Hnd Hvalid.
  - simpl. intros [= <-]. repeat split; try done.
  - simpl. destruct (onnx_outputs !! i) as [output|] eqn:Hout; [|done].
    unfold bind at 1, generate_result_name. unfold bind at 1, read.
    destruct (input_values w r !! 0) as [source|] eqn:Hsrc; [|done].
    unfold ret. unfold bind at 1.
    destruct (set_friendly_name r
                (vi_name output +:+ "/sink_port_" +:+ to_string_index source.2) w)
      as [[[]|e] w1] eqn:Hset; [|done].
    apply NoDup_cons in Hnd as [Hnotin Hnd].
    assert (Hfacts := λ id', set_friendly_name_get _ _ _ _ id' Hset).
    assert (Hlen1 : length (w_nodes w1) = length (w_nodes w)) by apply (Hfacts 0).
    intros Hrest. apply IH in Hrest
      as (Hin & Hkind & Hlog & Hlen & Hother & Hnamed); [|done|].
    2:{ intros r' Hr'. rewrite Hlen1. apply Hvalid. by right. }
    split; [intros id; rewrite Hin; apply Hfacts|].
    split; [intros id; rewrite Hkind; apply Hfacts|].
    split; [rewrite Hlog; apply (Hfacts 0)|].
    split; [congruence|]. split.
    + intros id Hid. apply not_elem_of_cons in Hid as [Hne Hid].
      rewrite Hother by done.
      destruct (Hfacts id) as (_ & _ & _ & _ & ->).
      rewrite decide_False; [done|]. by intros [? _].
    + intros [|j] r' Hj.
      * injection Hj as <-. exists output, source.
        rewrite Nat.add_0_r. split; [done|]. split; [done|].
        rewrite Hother by done.
        destruct (Hfacts r) as (_ & _ & _ & _ & ->).
        rewrite decide_True; [done|]. split; [done|]. apply Hvalid. by left.
      * destruct (Hnamed j r' Hj) as (output' & source' & Ho & Hs & Hn).
        exists output', source'. replace (i + S j) with (S i + j) by lia.
        split; [done|]. split; [|done].
        destruct (Hfacts r') as (<- & _). done.
Qed.

Lemma set_friendly_name_frame id name w w' id' :
  set_friendly_name id name w = (Ok tt, w') → id' ≠ id →
  node_at w' id' = node_at w id'.
Proof.
  intros [= <-] Hne. unfold node_at. simpl. by rewrite list_lookup_alter_ne.
Qed.

Lemma name_results_frame onnx_outputs results i w w' id :
  name_results onnx_outputs i results w = (Ok tt, w') → id ∉ results →
  node_at w' id = node_at w id.
Proof.
  revert i w. induction results as [|r results IH]; intros i w.
  - simpl. by intros [= <-].
  - simpl. destruct (onnx_outputs !! i) as [output|]; [|done].
    unfold bind at 1, generate_result_name. unfold bind at 1, read.
    destruct (input_values w r !! 0) as [source|]; [|done].
    unfold ret. unfold bind at 1.
    destruct (set_friendly_name r
                (vi_name output +:+ "/sink_port_" +:+ to_string_index source.2) w)
      as [[[]|e] w1] eqn:Hset; [|done].
    intros Hrest Hid. apply not_elem_of_cons in Hid as [Hne Hid].
    rewrite (IH _ _ Hrest Hid). by apply (set_friendly_name_frame _ _ _ _ _ Hset).
Qed.

(** What create_function leaves: the function holds the graph's
    parameters, its Results are named after the declared outputs, and
    every node that was in the store is as it was. *)
Lemma create_function_spec scopes_above (g : Graph Registry) w f w' :
  create_function scopes_above g w = (Ok f, w') →
  f_parameters f = m_parameters g
  ∧ results_named (get_graph (m_model g)) f w'
  ∧ w_log w' = w_log w
  ∧ (∀ id, id < length (w_nodes w) → node_at w' id = node_at w id)
  ∧ (∀ r, r ∈ f_results f → (length (w_nodes w) ≤ r)%nat)
  ∧ w_nodes w `prefix_of` w_nodes w'.
Proof.
  unfold create_function. intros Hrun.
  apply bind_inv_ok in Hrun as (outputs & w1 & Hout & Hrun).
  apply get_ng_outputs_reads in Hout as ->.
  apply bind_inv_ok in Hrun as (function & w2 & Hmake & Hrun).
  apply bind_inv_ok in Hrun as ([] & w3 & Hname & Hret).
  injection Hret as <- <-.
  apply make_function_results in Hmake as (Hpar & Hres & rs & Hnodes & Hlen & Hlog & Hrs).
  assert (Hnd : NoDup (f_results function)) by (rewrite Hres; apply NoDup_seq).
  assert (Hvalid : ∀ r, r ∈ f_results function → r < length (w_nodes w2)).
  { intros r Hr. rewrite Hres in Hr. apply elem_of_seq in Hr.
    rewrite Hnodes, length_app. lia. }
  destruct (name_results_names _ _ _ _ _ Hnd Hvalid Hname)
    as (Hin & Hkind & Hlog3 & Hlen3 & Hother & Hnamed).
  assert (Hold : ∀ id, id < length (w_nodes w) → node_at w3 id = node_at w id).
  { intros id Hid.
    rewrite (name_results_frame _ _ _ _ _ id Hname).
    + unfold node_at. rewrite Hnodes. by rewrite lookup_app_l.
    + rewrite Hres. intros Hin'. apply elem_of_seq in Hin'. lia. }
  split; [done|]. split; [|split; [congruence|split; [exact Hold|split]]].
  - intros i r Hi. destruct (Hnamed i r Hi) as (output & source & Ho & Hs & Hn).
    exists output, source. simpl in Ho. split; [done|].
    rewrite Hres in Hi. apply lookup_seq in Hi as [-> Hi].
    destruct (lookup_lt_is_Some_2 outputs i Hi) as [o Hoi].
    destruct (Hrs i o Hoi) as (n & Hn1 & Hn2 & Hn3 & _).
    assert (Hat : node_at w2 (length (w_nodes w) + i) = Some n).
    { unfold node_at. rewrite Hnodes, lookup_app_r by lia.
      by replace (length (w_nodes w) + i - length (w_nodes w)) with i by lia. }
    assert (Hiv : input_values w2 (length (w_nodes w) + i) = [o]).
    { unfold input_values. by rewrite Hat. }
    rewrite Hiv in Hs. injection Hs as <-.
    split; [rewrite Hkind; unfold kind_of; by rewrite Hat; simpl; rewrite Hn2|].
    split; [by rewrite Hin|done].
  - intros r Hr. rewrite Hres in Hr. apply elem_of_seq in Hr. lia.
  - exists (drop (length (w_nodes w)) (w_nodes w3)).
    rewrite <- (take_drop (length (w_nodes w)) (w_nodes w3)) at 1. f_equal.
    apply list_eq. intros id. destruct (decide (id < length (w_nodes w))) as [Hid|Hid].
    + rewrite lookup_take_lt by done. by apply Hold.
    + rewrite lookup_take_ge by lia. symmetry. apply lookup_ge_None. lia.
Qed.

(** ** The conversion loops leave the model and the parameters alone *)

Lemma convert_node_unfold node_proto scopes_above (g : Graph Registry) :
  convert_node node_proto scopes_above g =
  let* node := Node_ctor node_proto (m_cache g :: scopes_above) g in
  let* subgraphs :=
    (if has_subgraphs node
     then convert_subgraphs (np_graphs node_proto) (get_subgraphs node) []
     else ret (get_subgraphs node)) in
  let* r := make_ng_nodes g (with_subgraphs node subgraphs) in
  ret r.2.
Proof. by destruct node_proto. Qed.

Lemma Subgraph_convert_body_unfold body (sg : Subgraph Registry) :
  Subgraph_convert_body body sg =
  let* g := for_each (λ g node_proto, convert_node node_proto (m_parent_graph sg) g)
                     (gp_node body) (sg_graph sg) in
  let* sg' := find_inputs_from_parent (with_graph sg g) in
  let* function := create_function (m_parent_graph sg') (sg_graph sg') in
  ret (function, sg').
Proof. by destruct body. Qed.

Lemma decode_node_unfold node_proto scopes_above (g : Graph Registry) :
  decode_node node_proto scopes_above g =
  let* node := Node_ctor node_proto (m_cache g :: scopes_above) g in
  let* ng_nodes :=
    (if has_subgraphs node then
       let* inputs := get_ng_inputs node in
       let* r := decode_subgraphs (np_graphs node_proto) (get_subgraphs node)
                                  ([], inputs, []) in
       make_subgraph_framework_node (with_subgraphs node r.2) r.1.1 r.1.2
     else make_framework_node node) in
  let* _ := set_friendly_names node ng_nodes in
  let* cache := cache_outputs node ng_nodes (get_outputs_size node) 0 (m_cache g) in
  ret (with_cache g cache).
Proof. by destruct node_proto. Qed.

Lemma Subgraph_decode_body_unfold body (sg : Subgraph Registry) :
  Subgraph_decode_body body sg =
  let* g := for_each (λ g node_proto, decode_node node_proto (m_parent_graph sg) g)
                     (gp_node body) (sg_graph sg) in
  let* sg' := find_inputs_from_parent (with_graph sg g) in
  let* function := create_function (m_parent_graph sg') (sg_graph sg') in
  ret (attach_graph function, sg').
Proof. by destruct body. Qed.

Lemma for_each_preserves {A S} (R : S → S → Prop) (body : S → A → M S) l s w s' w' :
  (∀ s, R s s) → (∀ s1 s2 s3, R s1 s2 → R s2 s3 → R s1 s3) →
  (∀ s a w s' w', body s a w = (Ok s', w') → R s s') →
  for_each body l s w = (Ok s', w') → R s s'.
Proof.
  intros Hrefl Htrans Hbody. revert s w.
  induction l as [|a l IH]; intros s w.
  - simpl. intros [= <- <-]. apply Hrefl.
  - rewrite for_each_cons. destruct (body s a w) as [[s1|e] w1] eqn:Hb; [|done].
    intros Hrest. eapply Htrans; [by eapply Hbody|by eapply IH].
Qed.

Lemma convert_node_frame node_proto scopes_above (g g' : Graph Registry) w w' :
  convert_node node_proto scopes_above g w = (Ok g', w') → same_but_cache g g'.
Proof.
  rewrite convert_node_unfold. intros Hrun.
  apply bind_inv_ok in Hrun as (node & w1 & _ & Hrun).
  apply bind_inv_ok in Hrun as (subgraphs & w2 & _ & Hrun).
  apply bind_inv_ok in Hrun as (r & w3 & Hmake & Hret).
  injection Hret as <- <-. unfold make_ng_nodes in Hmake.
  apply bind_inv_ok in Hmake as (factory & w4 & _ & Hmake).
  apply bind_inv_ok in Hmake as (outs & w5 & _ & Hmake).
  apply bind_inv_ok in Hmake as ([] & w6 & _ & Hmake).
  apply bind_inv_ok in Hmake as (cache & w7 & _ & Hret).
  injection Hret as <- <-. done.
Qed.

Lemma decode_node_frame node_proto scopes_above (g g' : Graph Registry) w w' :
  decode_node node_proto scopes_above g w = (Ok g', w') → same_but_cache g g'.
Proof.
  rewrite decode_node_unfold. intros Hrun.
  apply bind_inv_ok in Hrun as (node & w1 & _ & Hrun).
  apply bind_inv_ok in Hrun as (ng_nodes & w2 & _ & Hrun).
  apply bind_inv_ok in Hrun as ([] & w3 & _ & Hrun).
  apply bind_inv_ok in Hrun as (cache & w4 & _ & Hret).
  injection Hret as <- <-. done.
Qed.

Lemma same_but_cache_refl (g : Graph Registry) : same_but_cache g g.
Proof. done. Qed.

Lemma same_but_cache_trans (g1 g2 g3 : Graph Registry) :
  same_but_cache g1 g2 → same_but_cache g2 g3 → same_but_cache g1 g3.
Proof. unfold same_but_cache. intros (? & ? & ?) (? & ? & ?). repeat split; congruence. Qed.

Lemma convert_to_ngraph_nodes_frame scopes_above (g g' : Graph Registry) w w' :
  convert_to_ngraph_nodes scopes_above g w = (Ok g', w') → same_but_cache g g'.
Proof.
  unfold convert_to_ngraph_nodes.
  apply (for_each_preserves same_but_cache);
    [apply same_but_cache_refl|apply same_but_cache_trans|].
  intros s a w0 s' w0'. apply convert_node_frame.
Qed.

Lemma decode_to_framework_nodes_frame scopes_above (g g' : Graph Registry) w w' :
  decode_to_framework_nodes scopes_above g w = (Ok g', w') → same_but_cache g g'.
Proof.
  unfold decode_to_framework_nodes.
  apply (for_each_preserves same_but_cache);
    [apply same_but_cache_refl|apply same_but_cache_trans|].
  intros s a w0 s' w0'. apply decode_node_frame.
Qed.

Lemma append_differs (s t : string) : t ≠ "" → s +:+ t ≠ s.
Proof.
  intros Ht. induction s as [|c s IH]; [done|].
  rewrite string_app_cons. intros [= H]. by apply IH.
Qed.

Lemma result_name_differs output source : result_name output source ≠ vi_name output.
Proof. unfold result_name. by apply append_differs. Qed.

(** ** Dangling parameters *)

Lemma prune_fold w graph parameters cache kept :
  let st := fold_left (prune_step w graph) parameters (cache, kept) in
  st.2 = kept ++ surviving w graph parameters
  ∧ (∀ name, cache !! name = None → st.1 !! name = None)
  ∧ (∀ p, p ∈ parameters → is_dangling w graph p = true →
          st.1 !! get_friendly_name w p = None).
Proof.
  revert cache kept. induction parameters as [|p parameters IH]; intros cache kept; simpl.
  - split; [by rewrite app_nil_r|]. split; [done|]. intros p Hp.
    by apply elem_of_nil in Hp.
  - unfold surviving in *.
    replace (prune_step w graph (cache, kept) p)
      with (if is_dangling w graph p
            then (remove_node (get_friendly_name w p) cache, kept)
            else (cache, kept ++ [p])) by reflexivity.
    destruct (is_dangling w graph p) eqn:Hd.
    + rewrite filter_cons_False by (rewrite Hd; done).
      destruct (IH (remove_node (get_friendly_name w p) cache) kept)
        as (Hkept & Hnone & Hgone).
      split; [exact Hkept|]. split.
      * intros name Hname. apply Hnone. unfold remove_node.
        destruct (decide (get_friendly_name w p = name)) as [->|Hne];
          [apply lookup_delete_eq|by rewrite lookup_delete_ne].
      * intros p' Hp' Hd'. apply elem_of_cons in Hp' as [->|Hp']; [|by apply Hgone].
        apply Hnone. apply lookup_delete_eq.
    + rewrite filter_cons_True by done.
      destruct (IH cache (kept ++ [p])) as (Hkept & Hnone & Hgone).
      split; [rewrite Hkept; by rewrite <- app_assoc|]. split; [exact Hnone|].
      intros p' Hp' Hd'. apply elem_of_cons in Hp' as [->|Hp']; [congruence|].
      by apply Hgone.
Qed.

Lemma remove_dangling_parameters_spec (g : Graph Registry) w :
  ∃ g', remove_dangling_parameters g w = (Ok g', w)
        ∧ m_model g' = m_model g
        ∧ m_parameters g' = surviving w (get_graph (m_model g)) (m_parameters g)
        ∧ (∀ name, m_cache g !! name = None → m_cache g' !! name = None)
        ∧ (∀ p, p ∈ m_parameters g → is_dangling w (get_graph (m_model g)) p = true →
                m_cache g' !! get_friendly_name w p = None).
Proof.
  eexists. split; [reflexivity|]. simpl.
  destruct (prune_fold w (get_graph (m_model g)) (m_parameters g) (m_cache g) [])
    as (Hkept & Hnone & Hgone).
  done.
Qed.

(** The pruning removes cache entries by friendly name only: an entry
    under a key that is not the friendly name of a pruned parameter is
    still there. *)
Lemma prune_fold_keeps w graph parameters cache kept name :
  (∀ q, q ∈ parameters → is_dangling w graph q = true →
        get_friendly_name w q ≠ name) →
  (fold_left (prune_step w graph) parameters (cache, kept)).1 !! name = cache !! name.
Proof.
  revert cache kept. induction parameters as [|q parameters IH]; intros cache kept H;
    [done|].
  simpl. unfold prune_step at 2. destruct (is_dangling w graph q) eqn:Hq; simpl.
  - rewrite IH by (intros q' Hq'; apply H; by right).
    unfold remove_node. apply lookup_delete_ne. apply H; [by left|done].
  - apply IH. intros q' Hq'. apply H. by right.
Qed.

(** C7: what remove_dangling_parameters does to the cache.  Take a
    placeholder [p] that nobody reads and none of whose bound names is a
    declared output, held in the cache under [name], where [name] is
    not the friendly name of any placeholder the pruning drops (the
    placeholder was renamed after it was cached under the name of its
    input).  The pruning drops [p] from the parameter list, and the
    cache still holds it under [name]: remove_node is called with the
    friendly name, which is not the key. *)
Theorem C7_pruned_placeholder_stays_in_cache
    (g : Graph Registry) (w : World) (p : nat) (name : string) :
  p ∈ m_parameters g →
  get_target_inputs w (p, 0) = [] →
  any_tensor_name_matches_onnx_output w (p, 0) (get_graph (m_model g)) = false →
  m_cache g !! name = Some (p, 0) →
  (∀ q, q ∈ m_parameters g → is_dangling w (get_graph (m_model g)) q = true →
        get_friendly_name w q ≠ name) →
  ∃ g', remove_dangling_parameters g w = (Ok g', w)
        ∧ p ∉ m_parameters g'
        ∧ m_cache g' !! name = Some (p, 0).
Proof.
  intros Hp Hzero Hnomatch Hcache Hnames.
  destruct (remove_dangling_parameters_spec g w) as (g' & Hrun & _ & Hkept & _).
  exists g'. split; [exact Hrun|]. split.
  - rewrite Hkept. intros Hin. apply list_elem_of_filter in Hin as [Hd _].
    unfold is_dangling in Hd. by rewrite Hzero, Hnomatch in Hd.
  - unfold remove_dangling_parameters, bind, read, ret in Hrun.
    injection Hrun as <-. simpl. rewrite <- Hcache. by apply prune_fold_keeps.
Qed.

(** ** Lifting parent values into subgraph parameters *)


Lemma lift_explicit_inputs_cons node_proto input_index in_name rest
      (sg : Subgraph Registry) w :
  lift_explicit_inputs node_proto input_index (in_name :: rest) sg w =
  match
    (if is_ng_node_in_cache (m_parent_graph sg) in_name then
       let* from_parent_node :=
         lift_outcome (get_ng_node_from_cache (m_parent_graph sg) in_name) in
       let* constant := read (λ w, is_constant w from_parent_node.1) in
       if negb constant then
         lift_explicit_input node_proto in_name input_index from_parent_node sg
       else ret sg
     else ret sg) w
  with
  | (Ok sg', w') => lift_explicit_inputs node_proto (S input_index) rest sg' w'
  | (Throw e, w') => (Throw e, w')
  end.
Proof. reflexivity. Qed.






Lemma node_input_ok id i w :
  i < length (input_values w id) → node_input id i w = (Ok (id, i), w).
Proof.
  intros Hi. unfold node_input, bind, read.
  by rewrite (proj2 (Nat.ltb_lt _ _) Hi).
Qed.




Lemma Subgraph_convert_unfold (sg : Subgraph Registry) :
  Subgraph_convert sg =
  let* g := convert_to_ngraph_nodes (m_parent_graph sg) (sg_graph sg) in
  let* sg' := find_inputs_from_parent (with_graph sg g) in
  let* function := create_function (m_parent_graph sg') (sg_graph sg') in
  ret (function, sg').
Proof. unfold Subgraph_convert. by rewrite Subgraph_convert_body_unfold. Qed.

End Properties.

(** * Further properties of the importer *)

Section Further.
Context {Env : Environment}.

(** ** Strings and separators *)

Lemma has_char_cons (c c' : ascii) (s : string) :
  has_char c (String c' s) = Ascii.eqb c c' || has_char c s.
Proof. reflexivity. Qed.

Lemma has_char_app_sep (c : ascii) (a b : string) : has_char c (a +:+ String c b) = true.
Proof.
  induction a as [|c' a IH].
  - rewrite string_app_nil_l. simpl. by rewrite Ascii.eqb_refl.
  - rewrite string_app_cons. simpl. rewrite IH. by rewrite orb_true_r.
Qed.

(** A string is cut in one way only at its last separator. *)
Lemma split_at_last_separator (c : ascii) (u v p q : string) :
  has_char c p = false → has_char c q = false →
  u +:+ String c p = v +:+ String c q → u = v ∧ p = q.
Proof.
  intros Hp Hq. revert v. induction u as [|a u IH]; intros [|b v].
  - rewrite !string_app_nil_l. by intros [= ->].
  - rewrite string_app_nil_l, string_app_cons. intros [= -> ->].
    by rewrite has_char_app_sep in Hp.
  - rewrite string_app_nil_l, string_app_cons. intros [= -> <-].
    by rewrite has_char_app_sep in Hq.
  - rewrite !string_app_cons. intros [= -> H]. by destruct (IH _ H) as [-> ->].
Qed.

(** X2.  When the operator type names hold no dot, the key that
    get_op_domain_and_name renders identifies the operator: two nodes
    with the same key have the same domain and the same operator type.
    A dot in the domain does no harm. *)
Theorem X2_key_identifies_the_operator (n1 n2 : NodeProto) :
  has_char "." (np_op_type n1) = false →
  has_char "." (np_op_type n2) = false →
  get_op_domain_and_name n1 = get_op_domain_and_name n2 →
  get_node_domain n1 = get_node_domain n2 ∧ np_op_type n1 = np_op_type n2.
Proof.
  unfold get_op_domain_and_name. intros H1 H2.
  destruct (String.eqb (get_node_domain n1) "") eqn:E1;
    destruct (String.eqb (get_node_domain n2) "") eqn:E2.
  - apply String.eqb_eq in E1, E2. rewrite !string_app_nil_l. by rewrite E1, E2.
  - rewrite string_app_nil_l, string_app_assoc, string_app_cons, string_app_nil_l.
    intros H. rewrite H, has_char_app_sep in H1. done.
  - rewrite string_app_nil_l, string_app_assoc, string_app_cons, string_app_nil_l.
    intros H. rewrite <- H, has_char_app_sep in H2. done.
  - rewrite !string_app_assoc, !string_app_cons, !string_app_nil_l.
    by apply split_at_last_separator.
Qed.

(** The decimal rendering of an index has digits only. *)
Lemma pretty_N_char_no_slash (x : N) : Ascii.eqb "/" (pretty_N_char x) = false.
Proof. unfold pretty_N_char. by repeat case_match. Qed.

Lemma pretty_N_go_no_slash (x : N) (s : string) :
  has_char "/" s = false → has_char "/" (pretty_N_go x s) = false.
Proof.
  revert s. induction (N.lt_wf_0 x) as [x _ IH]. intros s Hs.
  destruct (decide (x = 0%N)) as [->|Hx]; [by rewrite pretty_N_go_0|].
  rewrite pretty_N_go_step by lia. apply IH.
  - apply N.div_lt; lia.
  - by rewrite has_char_cons, pretty_N_char_no_slash.
Qed.

Lemma to_string_index_no_slash (n : nat) : has_char "/" (to_string_index n) = false.
Proof.
  unfold to_string_index, pretty, pretty_nat, pretty, pretty_N.
  case_decide; [done|]. by apply pretty_N_go_no_slash.
Qed.

Lemma result_name_inj (o1 o2 : ValueInfoProto) (s1 s2 : Output) :
  result_name o1 s1 = result_name o2 s2 → vi_name o1 = vi_name o2 ∧ s1.2 = s2.2.
Proof.
  unfold result_name. change "/sink_port_" with (String "/" "sink_port_").
  rewrite !string_app_cons, !string_app_nil_l. intros H.
  apply split_at_last_separator in H as [Hn Hp].
  - split; [done|]. injection Hp as Hp. by apply (inj pretty) in Hp.
  - by rewrite !has_char_cons, to_string_index_no_slash.
  - by rewrite !has_char_cons, to_string_index_no_slash.
Qed.

(** C10 (amended).  In the function that Graph::convert or
    Graph::decode returns, the i-th Result is named after the i-th
    declared output of the model: its friendly name is that output's
    name, then /sink_port_, then the index of the output port the
    Result reads.  The suffix keeps it apart from the output's own name,
    which is the friendly name an unnamed node producing that output is
    given, and two Results whose declared outputs have different names
    have different names.  (Nothing is said about the other nodes: an
    unnamed node can be given a Result's name.) *)
Theorem C10_results_are_named_after_declared_outputs
    (g g' : Graph Registry) (f : ov_Function) (w w' : World) :
  Graph_convert g w = (Ok (f, g'), w') ∨ Graph_decode g w = (Ok (f, g'), w') →
  let outputs := gp_output (get_graph (m_model g)) in
  m_model g' = m_model g
  ∧ (∀ i r, f_results f !! i = Some r →
      ∃ output source,
        outputs !! i = Some output
        ∧ kind_of w' r = Some op_Result
        ∧ input_values w' r = [source]
        ∧ get_friendly_name w' r
          = vi_name output +:+ "/sink_port_" +:+ to_string_index source.2
        ∧ get_friendly_name w' r ≠ vi_name output)
  ∧ (∀ i j ri rj oi oj,
      f_results f !! i = Some ri → f_results f !! j = Some rj →
      outputs !! i = Some oi → outputs !! j = Some oj →
      vi_name oi ≠ vi_name oj →
      get_friendly_name w' ri ≠ get_friendly_name w' rj).
Proof.
  assert (Hsuffix : ∀ graph f w0, results_named graph f w0 →
    (∀ i r, f_results f !! i = Some r →
      ∃ output source,
        gp_output graph !! i = Some output
        ∧ kind_of w0 r = Some op_Result
        ∧ input_values w0 r = [source]
        ∧ get_friendly_name w0 r
          = vi_name output +:+ "/sink_port_" +:+ to_string_index source.2
        ∧ get_friendly_name w0 r ≠ vi_name output)
    ∧ (∀ i j ri rj oi oj,
        f_results f !! i = Some ri → f_results f !! j = Some rj →
        gp_output graph !! i = Some oi → gp_output graph !! j = Some oj →
        vi_name oi ≠ vi_name oj →
        get_friendly_name w0 ri ≠ get_friendly_name w0 rj)).
  { intros graph f0 w0 Hnamed. split.
    - intros i r Hi.
      destruct (Hnamed i r Hi) as (output & source & Ho & Hk & Hin & Hname).
      exists output, source. repeat split; try done.
      rewrite Hname. apply result_name_differs.
    - intros i j ri rj oi oj Hi Hj Hoi Hoj Hne Heq.
      destruct (Hnamed i ri Hi) as (oi' & si & Hoi' & _ & _ & Hni).
      destruct (Hnamed j rj Hj) as (oj' & sj & Hoj' & _ & _ & Hnj).
      rewrite Hoi in Hoi'. injection Hoi' as <-.
      rewrite Hoj in Hoj'. injection Hoj' as <-.
      rewrite Hni, Hnj in Heq. by apply result_name_inj in Heq as [Heq _]. }
  intros [Hrun|Hrun] outputs; unfold outputs.
  - unfold Graph_convert in Hrun.
    apply bind_inv_ok in Hrun as (g1 & w1 & Hnodes & Hrun).
    apply bind_inv_ok in Hrun as (g2 & w2 & Hprune & Hrun).
    apply bind_inv_ok in Hrun as (function & w3 & Hcreate & Hret).
    injection Hret as <- <- <-.
    apply convert_to_ngraph_nodes_frame in Hnodes as (Hmodel & _).
    unfold remove_dangling_parameters in Hprune.
    apply bind_inv_ok in Hprune as (st & w4 & _ & Hret). injection Hret as <- _.
    apply create_function_spec in Hcreate as (_ & Hnamed & _). simpl in *.
    split; [done|]. rewrite <- Hmodel. by apply Hsuffix.
  - unfold Graph_decode in Hrun.
    apply bind_inv_ok in Hrun as (g1 & w1 & Hnodes & Hrun).
    apply bind_inv_ok in Hrun as (function & w3 & Hcreate & Hret).
    injection Hret as <- <- <-.
    apply decode_to_framework_nodes_frame in Hnodes as (Hmodel & _).
    apply create_function_spec in Hcreate as (_ & Hnamed & _).
    split; [done|]. rewrite <- Hmodel. by apply Hsuffix.
Qed.

(** ** Ordered maps *)

Lemma compare_as_OT (a b : string) : String.compare a b = String_as_OT.compare a b.
Proof. revert b. induction a as [|c a IH]; intros [|c' b]; simpl; try done. Qed.

Lemma ltb_trans (a b c : string) :
  String.ltb a b = true → String.ltb b c = true → String.ltb a c = true.
Proof.
  unfold String.ltb.
  rewrite (compare_as_OT a b), (compare_as_OT b c), (compare_as_OT a c).
  destruct (String_as_OT.compare a b) eqn:Hab; simpl; try done.
  destruct (String_as_OT.compare b c) eqn:Hbc; simpl; try done. intros _ _.
  assert (H : String_as_OT.lt a c)
    by exact (@StrictOrder_Transitive _ _ String_as_OT.lt_strorder a b c Hab Hbc).
  unfold String_as_OT.lt in H. by rewrite H.
Qed.

Lemma ltb_irrefl (a : string) : String.ltb a a = false.
Proof.
  unfold String.ltb. rewrite compare_as_OT.
  destruct (String_as_OT.compare a a) eqn:H; try done.
  by destruct (@StrictOrder_Irreflexive _ _ String_as_OT.lt_strorder a).
Qed.

(** Neither equal nor below is above. *)
Lemma ltb_total (a b : string) :
  String.eqb a b = false → String.ltb a b = false → String.ltb b a = true.
Proof.
  unfold String.ltb. intros Hne. rewrite (String.compare_antisym b a).
  destruct (String.compare a b) eqn:H; try done.
  apply String.compare_eq_iff in H. subst. by rewrite String.eqb_refl in Hne.
Qed.

Lemma increasing_NoDup (keys : list string) : increasing keys → NoDup keys.
Proof.
  induction 1 as [|k keys _ IH Hk]; constructor; [|done].
  intros Hin. rewrite Forall_forall in Hk. specialize (Hk k).
  rewrite ltb_irrefl in Hk. by specialize (Hk Hin).
Qed.

Lemma smap_emplace_keys {V} (k k0 : string) (v : V) (m : smap V) :
  k0 ∈ (smap_emplace k v m).*1 → k0 = k ∨ k0 ∈ m.*1.
Proof.
  intros H. apply list_elem_of_fmap in H as ([k1 v1] & -> & H).
  apply smap_emplace_elem in H as [[= -> ->]|H]; [by left|right].
  apply list_elem_of_fmap. by exists (k1, v1).
Qed.

Lemma smap_emplace_increasing {V} (k : string) (v : V) (m : smap V) :
  increasing m.*1 → increasing (smap_emplace k v m).*1.
Proof.
  unfold increasing. induction m as [|[k' v'] m IH]; simpl.
  - intros _. repeat constructor.
  - intros Hs. apply StronglySorted_inv in Hs as [Hs Hall].
    destruct (String.eqb k k') eqn:He; [by constructor|].
    destruct (String.ltb k k') eqn:Hlt.
    + simpl. constructor; [by constructor|]. constructor; [done|].
      eapply Forall_impl; [exact Hall|]. intros k1 Hk1. simpl in Hk1.
      by eapply ltb_trans.
    + simpl. constructor; [by apply IH|]. apply Forall_forall. intros k1 Hk1.
      apply smap_emplace_keys in Hk1 as [->|Hk1].
      * by apply ltb_total.
      * rewrite Forall_forall in Hall. by apply Hall.
Qed.

Lemma smap_increment_keys (k k0 : string) (m : smap N) :
  k0 ∈ (smap_increment k m).*1 ↔ k0 = k ∨ k0 ∈ m.*1.
Proof.
  induction m as [|[k' v'] m IH]; simpl.
  - rewrite list_elem_of_singleton. split; [by left|]. intros [->|H]; [done|].
    by apply elem_of_nil in H.
  - destruct (String.eqb k k') eqn:He.
    + apply String.eqb_eq in He as ->. simpl. rewrite !elem_of_cons. tauto.
    + destruct (String.ltb k k'); simpl; rewrite !elem_of_cons; [tauto|].
      rewrite IH. tauto.
Qed.

Lemma smap_increment_increasing (k : string) (m : smap N) :
  increasing m.*1 → increasing (smap_increment k m).*1.
Proof.
  unfold increasing. induction m as [|[k' v'] m IH]; simpl.
  - intros _. repeat constructor.
  - intros Hs. apply StronglySorted_inv in Hs as [Hs Hall].
    destruct (String.eqb k k') eqn:He; [by constructor|].
    destruct (String.ltb k k') eqn:Hlt.
    + simpl. constructor; [by constructor|]. constructor; [done|].
      eapply Forall_impl; [exact Hall|]. intros k1 Hk1. simpl in Hk1.
      by eapply ltb_trans.
    + simpl. constructor; [by apply IH|]. apply Forall_forall. intros k1 Hk1.
      apply smap_increment_keys in Hk1 as [->|Hk1].
      * by apply ltb_total.
      * rewrite Forall_forall in Hall. by apply Hall.
Qed.

(** The counter under a key, zero when the key is absent. *)
Lemma smap_increment_lookup (k : string) (m : smap N) :
  increasing m.*1 →
  (list_to_map (smap_increment k m) : gmap string N)
  = <[k := ((default 0 ((list_to_map m : gmap string N) !! k) + 1) mod two64)%N]>
      (list_to_map m).
Proof.
  unfold increasing. induction m as [|[k' v'] m IH]; [done|].
  intros Hs. apply StronglySorted_inv in Hs as [Hs Hall]. simpl.
  destruct (String.eqb k k') eqn:He.
  - apply String.eqb_eq in He as ->. simpl.
    by rewrite lookup_insert_eq, insert_insert_eq.
  - assert (Hne : k' ≠ k) by (intros ->; by rewrite String.eqb_refl in He).
    destruct (String.ltb k k') eqn:Hlt.
    + simpl. rewrite lookup_insert_ne by done.
      rewrite (not_elem_of_list_to_map_1 m k); [done|].
      intros Hin. rewrite Forall_forall in Hall.
      specialize (Hall _ Hin). simpl in Hall.
      pose proof (ltb_trans _ _ _ Hlt Hall) as H. by rewrite ltb_irrefl in H.
    + simpl. rewrite IH by done. rewrite lookup_insert_ne by done.
      by apply insert_insert_ne.
Qed.

(** ** Operator statistics *)

Lemma scan_statistics (nodes : list NodeProto) (s : scan_state) :
  op_statistics (fold_left (scan_node true) nodes s)
  = fold_left (λ m n, smap_increment (np_op_type n) m) nodes (op_statistics s).
Proof.
  revert s. induction nodes as [|n nodes IH]; intros s; [done|].
  simpl. rewrite IH. f_equal. unfold scan_node.
  by destruct (negb (is_operator_available (scan_opset s) n)).
Qed.

Lemma occurrences_snoc nodes n t :
  occurrences (nodes ++ [n]) t
  = if decide (np_op_type n = t) then S (occurrences nodes t) else occurrences nodes t.
Proof.
  unfold occurrences. rewrite filter_app, length_app.
  destruct (decide (np_op_type n = t)) as [H|H].
  - rewrite filter_cons_True by done. simpl. lia.
  - rewrite filter_cons_False by done. simpl. lia.
Qed.

Lemma occurrences_zero nodes t : occurrences nodes t = 0 ↔ t ∉ np_op_type <$> nodes.
Proof.
  unfold occurrences. rewrite length_zero_iff_nil. split.
  - intros Hnil Hin. apply list_elem_of_fmap in Hin as (n & -> & Hn).
    assert (n ∈ filter (λ n0, np_op_type n0 = np_op_type n) nodes)
      by (by apply list_elem_of_filter).
    rewrite Hnil in H. by apply elem_of_nil in H.
  - intros Hnot. destruct (filter _ nodes) as [|n l] eqn:Hf; [done|].
    assert (Hn : n ∈ filter (λ n0, np_op_type n0 = t) nodes) by (rewrite Hf; by left).
    apply list_elem_of_filter in Hn as [<- Hn].
    exfalso. apply Hnot. apply list_elem_of_fmap. by exists n.
Qed.

Lemma statistics_counts (nodes : list NodeProto) :
  let m := fold_left (λ m n, smap_increment (np_op_type n) m) nodes [] in
  increasing m.*1
  ∧ ∀ t, (list_to_map m : gmap string N) !! t
         = if decide (occurrences nodes t = 0) then None else Some (op_count nodes t).
Proof.
  induction nodes as [|n nodes IH] using rev_ind.
  - simpl. split; [constructor|]. intros t. by rewrite lookup_empty.
  - rewrite fold_left_app. simpl. destruct IH as [Hs Hm].
    split; [by apply smap_increment_increasing|].
    intros t. rewrite smap_increment_lookup by done.
    unfold op_count. rewrite !occurrences_snoc.
    destruct (decide (np_op_type n = t)) as [->|Hne].
    + rewrite lookup_insert_eq, Hm.
      destruct (decide (occurrences nodes t = 0)) as [H0|H0].
      * rewrite H0. done.
      * rewrite decide_False by lia. simpl. unfold op_count.
        rewrite N.Div0.add_mod_idemp_l. do 2 f_equal. lia.
    + rewrite lookup_insert_ne by done. by rewrite Hm.
Qed.

Lemma send_op_statistics_events stats w :
  ∃ w', send_op_statistics stats w = (Ok tt, w')
        ∧ w_events w'
          = w_events w ++ ((λ op, mk_event "op_count" ("onnx_" +:+ op.1) op.2) <$> stats).
Proof.
  unfold send_op_statistics. revert w.
  induction stats as [|op stats IH]; intros w.
  - exists w. split; [done|]. by rewrite app_nil_r.
  - rewrite for_each_cons. unfold send_event at 1.
    destruct (IH (mk_World (w_nodes w) (w_log w)
                    (w_events w ++ [mk_event "op_count" ("onnx_" +:+ op.1) op.2])))
      as (w' & Hrun & Hev).
    exists w'. split; [done|]. rewrite Hev. simpl. by rewrite <- app_assoc.
Qed.

(** ** Effects on the telemetry sink *)

Lemma for_each_world {A S} (P : World → World → Prop) (body : S → A → M S) l s w r w' :
  (∀ w, P w w) → (∀ w1 w2 w3, P w1 w2 → P w2 w3 → P w1 w3) →
  (∀ s a w r w', body s a w = (r, w') → P w w') →
  for_each body l s w = (r, w') → P w w'.
Proof.
  intros Hrefl Htrans Hbody. revert s w.
  induction l as [|a l IH]; intros s w.
  - simpl. intros [= <- <-]. apply Hrefl.
  - rewrite for_each_cons. destruct (body s a w) as [[s1|e] w1] eqn:Hb.
    + intros Hrest. eapply Htrans; [by eapply Hbody|by eapply IH].
    + intros [= <- <-]. by eapply Hbody.
Qed.

Lemma process_initializer_events st t w r w' :
  process_initializer st t w = (r, w') → w_events w' = w_events w.
Proof.
  unfold process_initializer, make_initializer_constant. destruct st as [inits cache].
  destruct (has_name t); [|by intros [= <- <-]].
  unfold bind, alloc, write_log, throw, set_names, update_node, ret.
  destruct (get_ng_constant t) as [d|exc]; simpl; [by intros [= <- <-]|].
  destruct (is_invalid_external_data exc); [by intros [= <- <-]|].
  destruct (is_ngraph_error exc); simpl; by intros [= <- <-].
Qed.

Lemma initializer_pass_events l st w r w' :
  for_each process_initializer l st w = (r, w') → w_events w' = w_events w.
Proof.
  apply (for_each_world (λ w w', w_events w' = w_events w)); [done|congruence|].
  intros s a w0 r0 w0'. apply process_initializer_events.
Qed.

Lemma increasing_filter {V} (P : string * V → Prop) `{∀ kv, Decision (P kv)}
    (m : smap V) :
  increasing m.*1 → increasing (filter P m).*1.
Proof.
  unfold increasing. induction m as [|kv m IH]; [done|].
  rewrite fmap_cons. intros Hs. apply StronglySorted_inv in Hs as [Hs Hall].
  destruct (decide (P kv)).
  - rewrite filter_cons_True by done. rewrite fmap_cons. constructor; [by apply IH|].
    apply Forall_forall. intros k Hk. rewrite Forall_forall in Hall. apply Hall.
    apply list_elem_of_fmap in Hk as (kv' & -> & Hk).
    apply list_elem_of_filter in Hk as [_ Hk]. apply list_elem_of_fmap. by exists kv'.
  - rewrite filter_cons_False by done. by apply IH.
Qed.

Lemma scan_unknown_increasing telemetry (nodes : list NodeProto) (s : scan_state) :
  increasing (unknown_operators s).*1 →
  increasing (unknown_operators (fold_left (scan_node telemetry) nodes s)).*1.
Proof.
  revert s. induction nodes as [|n nodes IH]; intros s Hs; [done|].
  simpl. apply IH. unfold scan_node.
  destruct (negb (is_operator_available (scan_opset s) n)); simpl; [|done].
  by apply smap_emplace_increasing.
Qed.

(** X1.  The diagnostic text of a map of operators is its keys in
    iteration order, separated by a comma and a space: nothing for an
    empty map, no separator before the first key or after the last. *)
Theorem X1_to_string_lists_the_keys {V} (map : smap V) :
  to_string map = String.concat ", " (map.*1).
Proof. apply to_string_concat. Qed.

(** X3.  Once the initializers are in, a model for which the map
    unknown_operators is not empty after the erase loop is rejected
    with one check failure.  Its message is the fixed prefix and then
    the keys left in that map, comma-separated, each key once and in
    increasing order, and each of them is the key of a node of the
    model that the final operator sets do not provide.  (The map holds
    one node per key: an unavailable operator whose key an earlier
    node took is not in it.)  What the initializers put in the store
    is still there. *)
Theorem X3_unsupported_operators_are_reported_together
    (model_proto : ModelProto) (cache : GraphCache) (telemetry : bool)
    (w w1 : World) (st1 : gmap string TensorProto * GraphCache) :
  for_each process_initializer (gp_initializer (mp_graph model_proto)) (∅, cache) w
    = (Ok st1, w1) →
  still_unknown telemetry model_proto ≠ [] →
  let keys := (still_unknown telemetry model_proto).*1 in
  let final := scan_opset (scan_nodes telemetry (gp_node (mp_graph model_proto))
                                      (Model_opset model_proto)) in
  (∃ w', Graph_ctor model_proto cache telemetry w
         = (Throw (mk_exn CheckFailure
                     ("nGraph does not support the following ONNX operations: "
                        +:+ String.concat ", " keys)), w')
         ∧ w_nodes w1 `prefix_of` w_nodes w')
  ∧ increasing keys
  ∧ ∀ k, k ∈ keys →
      ∃ n, n ∈ gp_node (mp_graph model_proto) ∧ get_op_domain_and_name n = k
           ∧ is_operator_available final n = false.
Proof.
  intros Hinit Hu keys final. split; [|split].
  - destruct st1 as [initializers cache1].
    destruct (input_pass initializers (gp_input (mp_graph model_proto))
                cache1 cache1 [] w1) as (cache2 & parameters & w2 & Hin & Hpre & _);
      [done|by intros p Hp; apply elem_of_nil in Hp|].
    rewrite (Graph_ctor_gate _ _ _ _ _ _ _ _ _ _ Hinit Hin).
    destruct (still_unknown telemetry model_proto) eqn:Hs; [done|].
    simpl is_empty. cbv iota. eexists. split.
    + unfold unsupported_message. by rewrite to_string_concat.
    + destruct (statistics_ok telemetry
                  (op_statistics (scan_nodes telemetry (gp_node (mp_graph model_proto))
                                             (Model_opset model_proto))) w2)
        as (_ & -> & _). done.
  - unfold keys, still_unknown, reverify. apply increasing_filter.
    apply scan_unknown_increasing. constructor.
  - intros k Hk. apply list_elem_of_fmap in Hk as ([k0 n] & -> & Hk).
    unfold still_unknown, reverify in Hk. apply list_elem_of_filter in Hk as [Hav Hk].
    apply scan_entries_have_their_key in Hk as [Hk|[Hn Hkey]];
      [by apply elem_of_nil in Hk|].
    exists n. done.
Qed.

(** X5.  Operator statistics.  With no telemetry sink the constructor
    sends no event.  With one, once the initializers are in, it sends
    exactly one op_count event per operator type used by the nodes of
    the graph, in increasing order of the type names, named onnx_ and
    the type, and carrying the number of nodes of that type as a 64-bit
    counter holds it; it does so whether or not the model is then
    rejected. *)
Theorem X5_operator_counts_are_reported
    (model_proto : ModelProto) (cache : GraphCache)
    (w w1 : World) (st1 : gmap string TensorProto * GraphCache) :
  for_each process_initializer (gp_initializer (mp_graph model_proto)) (∅, cache) w
    = (Ok st1, w1) →
  let nodes := gp_node (mp_graph model_proto) in
  (∃ r w', Graph_ctor model_proto cache false w = (r, w')
           ∧ w_events w' = w_events w)
  ∧ (∃ r w' types,
       Graph_ctor model_proto cache true w = (r, w')
       ∧ w_events w' = w_events w ++ (op_count_event nodes <$> types)
       ∧ increasing types
       ∧ ∀ t, t ∈ types ↔ t ∈ np_op_type <$> nodes).
Proof.
  intros Hinit nodes. destruct st1 as [initializers cache1].
  destruct (input_pass initializers (gp_input (mp_graph model_proto))
              cache1 cache1 [] w1) as (cache2 & parameters & w2 & Hin & _ & _ & Hev & _);
    [done|by intros p Hp; apply elem_of_nil in Hp|].
  pose proof (initializer_pass_events _ _ _ _ _ Hinit) as Hev1.
  split.
  - rewrite (Graph_ctor_gate _ _ _ _ _ _ _ _ _ _ Hinit Hin).
    destruct (is_empty (still_unknown false model_proto)); eexists _, _;
      (split; [reflexivity|]); unfold after_statistics; simpl; congruence.
  - rewrite (Graph_ctor_gate _ _ _ _ _ _ _ _ _ _ Hinit Hin).
    set (stats := op_statistics (scan_nodes true (gp_node (mp_graph model_proto))
                                            (Model_opset model_proto))).
    assert (Hstats : stats = fold_left (λ m n, smap_increment (np_op_type n) m) nodes [])
      by apply scan_statistics.
    destruct (statistics_counts nodes) as [Hs Hm]. rewrite <- Hstats in Hs, Hm.
    destruct (send_op_statistics_events stats w2) as (w3 & Hsend & Hev3).
    assert (Hafter : after_statistics true stats w2 = w3)
      by (unfold after_statistics; by rewrite Hsend).
    rewrite Hafter.
    assert (Hvals : ∀ kv, kv ∈ stats → kv.2 = op_count nodes kv.1).
    { intros [t v] Hkv. simpl.
      apply (elem_of_list_to_map_1 (M := gmap string)) in Hkv;
        [|by apply increasing_NoDup].
      rewrite Hm in Hkv. by destruct (decide (occurrences nodes t = 0)); simplify_eq. }
    assert (Hevents : w_events w3 = w_events w ++ (op_count_event nodes <$> stats.*1)).
    { rewrite Hev3, Hev, Hev1. f_equal. rewrite <- list_fmap_compose.
      apply Forall_fmap_ext. apply Forall_forall. intros kv Hkv.
      unfold op_count_event. simpl. by rewrite (Hvals kv Hkv). }
    assert (Htypes : ∀ t, t ∈ stats.*1 ↔ t ∈ np_op_type <$> nodes).
    { intros t. split.
      - intros Hin'. destruct (decide (t ∈ np_op_type <$> nodes)) as [|Hnot]; [done|].
        apply occurrences_zero in Hnot.
        apply (not_elem_of_list_to_map_2 (M := gmap string)) in Hin'; [done|].
        rewrite Hm. by rewrite decide_True.
      - intros Hin'. destruct (decide (t ∈ stats.*1)) as [|Hnot]; [done|].
        apply (not_elem_of_list_to_map_1 (M := gmap string)) in Hnot.
        rewrite Hm in Hnot. destruct (decide (occurrences nodes t = 0)) as [H0|]; [|done].
        by apply occurrences_zero in H0. }
    destruct (is_empty (still_unknown true model_proto)); eexists _, _, (stats.*1);
      (split; [reflexivity|]); done.
Qed.

(** ** What the constructor leaves in the cache *)

Lemma initializer_pass_dom l st w st' w' :
  for_each process_initializer l st w = (Ok st', w') →
  dom st'.2 = dom st.2 ∪ list_to_set (omap tp_name l).
Proof.
  revert st w. induction l as [|t l IH]; intros st w.
  - simpl. intros [= <- <-]. set_solver.
  - rewrite for_each_cons.
    destruct (process_initializer st t w) as [[st1|e] w1] eqn:Hstep; [|done].
    intros Hrest. rewrite (IH _ _ Hrest). destruct st as [inits cache].
    unfold has_name, name_of in *. simpl.
    destruct (tp_name t) as [name|] eqn:Hname.
    + apply process_initializer_ok in Hstep as (d & _ & -> & _);
        [|unfold has_name; by rewrite Hname].
      unfold name_of. rewrite Hname. simpl. rewrite dom_insert_L. set_solver.
    + rewrite process_initializer_unnamed in Hstep
        by (unfold has_name; by rewrite Hname).
      injection Hstep as <- <-. simpl. set_solver.
Qed.

Lemma input_pass_dom initializers l cache parameters w cache' parameters' w' :
  for_each (process_input initializers) l (cache, parameters) w
    = (Ok (cache', parameters'), w') →
  dom cache' = dom cache ∪ list_to_set (vi_name <$> l).
Proof.
  revert cache parameters w. induction l as [|input l IH]; intros cache parameters w.
  - simpl. intros [= <- <- <-]. set_solver.
  - rewrite for_each_cons, process_input_step.
    destruct (contains cache (vi_name input)) eqn:Hc.
    + intros Hrest. rewrite (IH _ _ _ Hrest). rewrite fmap_cons.
      apply contains_true, elem_of_dom in Hc. set_solver.
    + intros Hrest. rewrite (IH _ _ _ Hrest). rewrite fmap_cons, dom_insert_L.
      set_solver.
Qed.

(** X6.  After construction the cache holds exactly the names it was
    given, the names of the named initializers and the names of the
    declared inputs. *)
Theorem X6_constructed_cache_holds_initializers_and_inputs
    (model_proto : ModelProto) (cache : GraphCache) (telemetry : bool)
    (w w' : World) (g : Graph Registry) :
  Graph_ctor model_proto cache telemetry w = (Ok g, w') →
  let graph := mp_graph model_proto in
  dom (m_cache g)
  = dom cache ∪ list_to_set (omap tp_name (gp_initializer graph))
              ∪ list_to_set (vi_name <$> gp_input graph).
Proof.
  intros Hrun graph.
  destruct (Graph_ctor_inv _ _ _ _ _ _ Hrun)
    as (initializers & cache1 & w1 & w2 & Hinit & Hin & _).
  apply initializer_pass_dom in Hinit. apply input_pass_dom in Hin.
  simpl in Hinit. by rewrite Hin, Hinit.
Qed.

(** ** Scopes *)

Lemma get_node_ok (c : GraphCache) name o : get_node c name = Ok o ↔ c !! name = Some o.
Proof.
  unfold get_node. destruct (c !! name); split; intros H; by simplify_eq.
Qed.

Lemma get_ng_node_from_cache_cons (c : GraphCache) (parent : list GraphCache) name :
  get_ng_node_from_cache (c :: parent) name
  = if contains c name then get_node c name else get_ng_node_from_cache parent name.
Proof.
  destruct parent as [|c1 parent]; [|done]. simpl.
  destruct (contains c name) eqn:Hc; [done|].
  apply contains_false in Hc. unfold get_node. by rewrite Hc.
Qed.

(** A name resolves to the entry of the innermost scope that has one. *)
Lemma innermost_scope_answers (scopes : list GraphCache) (name : string) (o : Output) :
  get_ng_node_from_cache scopes name = Ok o ↔
  ∃ i c, scopes !! i = Some c ∧ c !! name = Some o
         ∧ ∀ j c', j < i → scopes !! j = Some c' → c' !! name = None.
Proof.
  revert o. induction scopes as [|c parent IH]; intros o.
  - simpl. split; [done|]. by intros (i & c & Hi & _).
  - rewrite get_ng_node_from_cache_cons. destruct (contains c name) eqn:Hc.
    + rewrite get_node_ok. split.
      * intros Ho. exists 0, c. split; [done|]. split; [done|]. intros j c' Hj. lia.
      * intros (i & c' & Hi & Ho & Hbefore).
        destruct i as [|i]; [simpl in Hi; by simplify_eq|].
        apply contains_true in Hc as [o' Ho'].
        specialize (Hbefore 0 c ltac:(lia) eq_refl). congruence.
    + apply contains_false in Hc. rewrite IH. split.
      * intros (i & c' & Hi & Ho & Hbefore). exists (S i), c'.
        split; [done|]. split; [done|]. intros [|j] c'' Hj Hc''.
        -- simpl in Hc''. by simplify_eq.
        -- apply (Hbefore j c''); [lia|done].
      * intros (i & c' & Hi & Ho & Hbefore). destruct i as [|i].
        -- simpl in Hi. by simplify_eq.
        -- exists i, c'. split; [done|]. split; [done|]. intros j c'' Hj Hc''.
           apply (Hbefore (S j) c''); [lia|done].
Qed.

(** What is_ng_node_in_cache reports is what get_ng_node_from_cache finds. *)
Lemma in_cache_iff_found (scopes : list GraphCache) (name : string) :
  is_ng_node_in_cache scopes name = true ↔
  ∃ o, get_ng_node_from_cache scopes name = Ok o.
Proof.
  unfold is_ng_node_in_cache. rewrite existsb_exists. split.
  - intros (c & Hin & Hc). apply contains_true in Hc.
    induction scopes as [|c0 parent IH]; [done|].
    rewrite get_ng_node_from_cache_cons. destruct (contains c0 name) eqn:Hc0.
    + apply contains_true in Hc0 as [o Ho]. exists o. by apply get_node_ok.
    + destruct Hin as [->|Hin]; [|by apply IH].
      apply contains_false in Hc0. rewrite Hc0 in Hc. by destruct Hc.
  - intros (o & Ho). apply innermost_scope_answers in Ho as (i & c & Hi & Ho & _).
    exists c. split; [apply list_elem_of_In; by eapply list_elem_of_lookup_2|].
    apply contains_true. by rewrite Ho.
Qed.

(** X7.  Names are resolved lexically.  get_ng_node_from_cache finds a
    value exactly when some scope has the name, and the value is the one
    of the innermost such scope; is_ng_node_in_cache answers true
    exactly when get_ng_node_from_cache finds a value. *)
Theorem X7_lookup_is_lexically_scoped (scopes : list GraphCache) (name : string) :
  (∀ o, get_ng_node_from_cache scopes name = Ok o ↔
        ∃ i c, scopes !! i = Some c ∧ c !! name = Some o
               ∧ ∀ j c', j < i → scopes !! j = Some c' → c' !! name = None)
  ∧ (is_ng_node_in_cache scopes name = true ↔
     ∃ o, get_ng_node_from_cache scopes name = Ok o).
Proof.
  split; [intros o; apply innermost_scope_answers|apply in_cache_iff_found].
Qed.

(** X8.  A new subgraph keeps the parent scopes it was given and the
    telemetry of its parent, has borrowed nothing yet, and its own cache
    holds just its named initializers and declared inputs.  A name among
    those resolves to the subgraph's own value, whatever the parent
    holds under it; any other name resolves as it does in the parent. *)
Theorem X8_fresh_subgraph_sees_the_parent_through_its_own_names
    (model_proto : ModelProto) (parent_graph : list GraphCache) (parent_telemetry : bool)
    (w w' : World) (sg : Subgraph Registry) :
  Subgraph_ctor model_proto parent_graph parent_telemetry w = (Ok sg, w') →
  let graph := mp_graph model_proto in
  let own : gset string :=
    list_to_set (omap tp_name (gp_initializer graph))
    ∪ list_to_set (vi_name <$> gp_input graph) in
  m_parent_graph sg = parent_graph
  ∧ m_inputs_from_parent sg = []
  ∧ m_parameter_to_parent_node_map sg = ∅
  ∧ m_telemetry (sg_graph sg) = parent_telemetry
  ∧ dom (m_cache (sg_graph sg)) = own
  ∧ (∀ name, name ∈ own →
       get_ng_node_from_cache (Subgraph_scopes sg) name
       = get_node (m_cache (sg_graph sg)) name)
  ∧ (∀ name, name ∉ own → parent_graph ≠ [] →
       get_ng_node_from_cache (Subgraph_scopes sg) name
       = get_ng_node_from_cache parent_graph name).
Proof.
  intros Hrun graph own. unfold Subgraph_ctor in Hrun.
  apply bind_inv_ok in Hrun as (g & w1 & Hctor & Hret). injection Hret as <- <-.
  simpl.
  assert (Hdom : dom (m_cache g) = own).
  { destruct (Graph_ctor_inv _ _ _ _ _ _ Hctor)
      as (initializers & cache1 & w2 & w3 & Hinit & Hin & _).
    apply initializer_pass_dom in Hinit. apply input_pass_dom in Hin.
    simpl in Hinit. rewrite Hin, Hinit, dom_empty_L. unfold own, graph. set_solver. }
  assert (Htel : m_telemetry g = parent_telemetry).
  { unfold Graph_ctor in Hctor.
    apply bind_inv_ok in Hctor as ([i1 c1] & w2 & _ & Hctor).
    apply bind_inv_ok in Hctor as ([c2 ps] & w3 & _ & Hctor).
    apply bind_inv_ok in Hctor as ([] & w4 & _ & Hctor).
    apply bind_inv_ok in Hctor as ([] & w5 & _ & Hctor).
    by injection Hctor as <- <-. }
  repeat split; try done.
  - intros name Hname. unfold Subgraph_scopes. simpl.
    destruct parent_graph as [|c parent]; [done|].
    assert (Hc : contains (m_cache g) name = true).
    { apply contains_true, elem_of_dom. by rewrite Hdom. }
    by rewrite Hc.
  - intros name Hname Hparent. unfold Subgraph_scopes. simpl.
    destruct parent_graph as [|c parent]; [done|].
    assert (Hc : contains (m_cache g) name = false).
    { apply contains_false, not_elem_of_dom. by rewrite Hdom. }
    by rewrite Hc.
Qed.

(** ** Caching the outputs of a node *)

Lemma Node_output_ok (onnx_node : Node Registry) i name :
  Node_output onnx_node i = Ok name ↔ np_output (node_proto onnx_node) !! i = Some name.
Proof.
  unfold Node_output. destruct (np_output (node_proto onnx_node) !! i);
    split; intros H; by simplify_eq.
Qed.

Lemma cache_outputs_ok (onnx_node : Node Registry) outs count i cache w cache' w' :
  cache_outputs onnx_node outs count i cache w = (Ok cache', w') →
  w' = w
  ∧ (0 < count → i + count ≤ length outs)%nat
  ∧ (∀ name, (∀ j, (i ≤ j < i + count)%nat →
                   np_output (node_proto onnx_node) !! j ≠ Some name) →
             cache' !! name = cache !! name)
  ∧ (∀ j name, (i ≤ j < i + count)%nat →
       np_output (node_proto onnx_node) !! j = Some name →
       (∀ j', (j < j' < i + count)%nat →
              np_output (node_proto onnx_node) !! j' ≠ Some name) →
       cache' !! name = outs !! j).
Proof.
  revert i cache. induction count as [|count IH]; intros i cache.
  - simpl. intros [= <- <-]. split; [done|]. split; [lia|]. split; [done|].
    intros j name Hj. lia.
  - simpl. destruct (outs !! i) as [o|] eqn:Ho; [|done].
    unfold bind at 1, lift_outcome.
    destruct (Node_output onnx_node i) as [out_name|e] eqn:Hname; [|done].
    apply Node_output_ok in Hname. intros Hrest.
    destruct (IH _ _ Hrest) as (-> & Hlen & Hother & Hthis).
    split; [done|]. split; [|split].
    + intros _. apply lookup_lt_Some in Ho. destruct count as [|count]; [lia|].
      specialize (Hlen ltac:(lia)). lia.
    + intros name Hname'. rewrite Hother.
      * unfold emplace_node. apply lookup_insert_ne. intros ->.
        apply (Hname' i); [lia|done].
      * intros j Hj. apply Hname'. lia.
    + intros j name Hj Hjname Hlast.
      destruct (decide (j = i)) as [->|Hne].
      * rewrite Hother.
        -- rewrite Hname in Hjname. injection Hjname as ->.
           unfold emplace_node. by rewrite lookup_insert_eq.
        -- intros j' Hj'. apply Hlast. lia.
      * apply Hthis; [lia|done|]. intros j' Hj'. apply Hlast. lia.
Qed.

Lemma cache_outputs_short (onnx_node : Node Registry) outs count i cache w :
  (i ≤ length outs < i + count)%nat → (i + count ≤ get_outputs_size onnx_node)%nat →
  ∃ e, cache_outputs onnx_node outs count i cache w = (Throw e, w)
       ∧ exn_cls e = std_exception.
Proof.
  revert i cache. induction count as [|count IH]; intros i cache Hshort Hsize; [lia|].
  simpl. destruct (outs !! i) as [o|] eqn:Ho; [|by eexists].
  apply lookup_lt_Some in Ho.
  erewrite bind_ok
    by (unfold lift_outcome; rewrite Node_output_declared by lia; reflexivity).
  apply IH; lia.
Qed.

Lemma last_occurrence {A} `{EqDecision A} (l : list A) (x : A) :
  x ∈ l → ∃ j, l !! j = Some x ∧ ∀ j', (j < j')%nat → l !! j' ≠ Some x.
Proof.
  induction l as [|y l IH] using rev_ind; [by intros H; apply elem_of_nil in H|].
  intros Hin. destruct (decide (y = x)) as [->|Hne].
  - exists (length l). split.
    + rewrite lookup_app_r by lia. by replace (length l - length l) with 0 by lia.
    + intros j' Hj' Hsome. apply lookup_lt_Some in Hsome.
      rewrite length_app in Hsome. simpl in Hsome. lia.
  - apply elem_of_app in Hin as [Hin|Hin];
      [|apply list_elem_of_singleton in Hin; congruence].
    destruct (IH Hin) as (j & Hj & Hlast). exists j. split.
    + by apply lookup_app_l_Some.
    + intros j' Hj' Hsome. destruct (decide (j' < length l)) as [Hlt|Hge].
      * rewrite lookup_app_l in Hsome by done. by apply (Hlast j').
      * rewrite lookup_app_r in Hsome by lia.
        destruct (j' - length l) as [|k]; simpl in Hsome; [congruence|done].
Qed.

(** The handlers of make_ng_nodes never return. *)
Lemma conversion_failure_handler_throws (onnx_node : Node Registry) exc w :
  ∃ e w', conversion_failure_handler onnx_node exc w = (Throw e, w').
Proof.
  unfold conversion_failure_handler.
  destruct (is_OnnxNodeValidationFailure exc); [by eexists _, _|].
  destruct (is_std_exception exc); by eexists _, _.
Qed.

Lemma make_ng_nodes_inv (g : Graph Registry) (onnx_node : Node Registry) w outs g' w' :
  make_ng_nodes g onnx_node w = (Ok (outs, g'), w') →
  ∃ ng_node_factory w1 cache,
    get_operator (m_opset (m_model g)) (Node_op_type onnx_node) (Node_domain onnx_node)
      = Ok ng_node_factory
    ∧ ng_node_factory onnx_node w = (Ok outs, w1)
    ∧ set_friendly_names onnx_node outs w1 = (Ok tt, w')
    ∧ cache_outputs onnx_node outs (get_outputs_size onnx_node) 0 (m_cache g) w'
      = (Ok cache, w')
    ∧ g' = with_cache g cache.
Proof.
  unfold make_ng_nodes. intros Hrun.
  apply bind_inv_ok in Hrun as (factory & w0 & Hop & Hrun).
  unfold lift_outcome in Hop.
  destruct (get_operator _ _ _) as [f|e] eqn:Hget; [|done]. injection Hop as <- <-.
  apply bind_inv_ok in Hrun as (outs0 & w1 & Htry & Hrun).
  apply bind_inv_ok in Hrun as ([] & w2 & Hnames & Hrun).
  apply bind_inv_ok in Hrun as (cache & w3 & Hcache & Hret).
  injection Hret as <- <- <-.
  pose proof (cache_outputs_ok _ _ _ _ _ _ _ _ Hcache) as (-> & _).
  exists f, w1, cache. split; [done|]. split; [|done].
  unfold try_catch in Htry. destruct (f onnx_node w) as [[a|e] w4] eqn:Hf.
  - by injection Htry as <- <-.
  - destruct (conversion_failure_handler_throws onnx_node e w4) as (e' & w5 & Hh).
    congruence.
Qed.

(** X9.  When make_ng_nodes returns, the conversion function gave at
    least as many outputs as the node declares, every declared output
    name is in the cache and bound to the converted output at its
    position (the last position, for a name declared twice), and no
    other entry of the cache, nor the model, the parameters or the
    telemetry of the graph, has changed. *)
Theorem X9_converted_outputs_are_cached
    (g g' : Graph Registry) (onnx_node : Node Registry) (outs : OutputVector)
    (w w' : World) :
  make_ng_nodes g onnx_node w = (Ok (outs, g'), w') →
  let declared := np_output (node_proto onnx_node) in
  (length declared ≤ length outs)%nat
  ∧ same_but_cache g g'
  ∧ (∀ name, name ∉ declared → m_cache g' !! name = m_cache g !! name)
  ∧ (∀ j name, declared !! j = Some name →
       (∀ j', (j < j')%nat → declared !! j' ≠ Some name) →
       m_cache g' !! name = outs !! j)
  ∧ (∀ name, name ∈ declared → is_ng_node_in_cache [m_cache g'] name = true).
Proof.
  intros Hrun declared.
  apply make_ng_nodes_inv in Hrun as (factory & w1 & cache & _ & _ & _ & Hcache & ->).
  apply cache_outputs_ok in Hcache as (_ & Hlen & Hother & Hthis).
  unfold get_outputs_size in *. fold declared in Hlen, Hother, Hthis. simpl.
  assert (Hsize : (length declared ≤ length outs)%nat).
  { destruct declared; [simpl; lia|]. apply Hlen. simpl. lia. }
  assert (Hlast : ∀ j name, declared !! j = Some name →
            (∀ j', (j < j')%nat → declared !! j' ≠ Some name) →
            cache !! name = outs !! j).
  { intros j name Hj Hl. apply Hthis; [|done|].
    - apply lookup_lt_Some in Hj. lia.
    - intros j' Hj'. apply Hl. lia. }
  split; [done|]. split; [done|]. split; [|split; [done|]].
  - intros name Hname. apply Hother. intros j _ Hj. apply Hname.
    by eapply list_elem_of_lookup_2.
  - intros name Hname. destruct (last_occurrence _ _ Hname) as (j & Hj & Hl).
    rewrite orb_false_r. apply contains_true. rewrite (Hlast j name Hj Hl).
    apply lookup_lt_is_Some_2. apply lookup_lt_Some in Hj. lia.
Qed.

(** ** Naming the outputs of an Identity node *)

Lemma tensor_of_update (o o' : Output) (f : Tensor → Tensor) w :
  tensor_of (mk_World (alter (on_output o.2 f) o.1 (w_nodes w)) (w_log w) (w_events w)) o'
  = if decide (o' = o) then f <$> tensor_of w o else tensor_of w o'.
Proof.
  unfold tensor_of, node_at. simpl. destruct o as [i k], o' as [i' k']. simpl.
  destruct (decide (i' = i)) as [->|Hi].
  - rewrite list_lookup_alter_eq.
    destruct (w_nodes w !! i) as [n|]; [|simpl; by destruct (decide _)].
    change ((on_output k f <$> Some n) ≫= λ n0 : IRNode, n_outputs n0 !! k')
      with (alter f k (n_outputs n) !! k').
    change (Some n ≫= λ n0 : IRNode, n_outputs n0 !! k) with (n_outputs n !! k).
    change (Some n ≫= λ n0 : IRNode, n_outputs n0 !! k') with (n_outputs n !! k').
    destruct (decide ((i, k') = (i, k))) as [Heq|Hne].
    + injection Heq as ->. by rewrite list_lookup_alter_eq.
    + rewrite list_lookup_alter_ne; [done|congruence].
  - rewrite list_lookup_alter_ne by done.
    destruct (decide ((i', k') = (i, k))); [congruence|done].
Qed.

Lemma kind_of_update id (f : IRNode → IRNode) w id' :
  (∀ n, n_kind (f n) = n_kind n) →
  kind_of (mk_World (alter f id (w_nodes w)) (w_log w) (w_events w)) id' = kind_of w id'.
Proof.
  intros Hf. unfold kind_of, node_at. simpl.
  destruct (decide (id' = id)) as [->|Hne].
  - rewrite list_lookup_alter_eq.
    destruct (w_nodes w !! id); simpl; [by rewrite Hf|done].
  - by rewrite list_lookup_alter_ne.
Qed.

Lemma name_identity_outputs_ok (onnx_node : Node Registry) outs i w :
  (i + length outs ≤ get_outputs_size onnx_node)%nat →
  ∃ w', name_identity_outputs onnx_node i outs w = (Ok tt, w')
        ∧ names_of w' = names_of w
        ∧ (∀ id, kind_of w' id = kind_of w id)
        ∧ (∀ o, is_Some (tensor_of w o) → is_Some (tensor_of w' o))
        ∧ (∀ o, get_names w o ⊆ get_names w' o)
        ∧ (∀ j o, outs !! j = Some o → is_Some (tensor_of w o) →
                  declared_output onnx_node (i + j) ∈ get_names w' o).
Proof.
  revert i w. induction outs as [|o rest IH]; intros i w Hlen.
  - exists w. by repeat split.
  - simpl in *.
    erewrite bind_ok
      by (unfold lift_outcome; rewrite Node_output_declared by lia; reflexivity).
    fold (declared_output onnx_node i). set (name := declared_output onnx_node i).
    unfold bind at 1, add_names, update_node.
    set (w1 := mk_World (alter (on_output o.2 (tensor_add_names {[name]})) o.1 (w_nodes w))
                        (w_log w) (w_events w)).
    destruct (IH (S i) w1 ltac:(lia)) as (w' & Hrun & Hnames & Hkind & Hsome & Hmono & Hin).
    assert (Hstep : ∀ o', get_names w o' ⊆ get_names w1 o').
    { intros o'. unfold get_names, w1. rewrite tensor_of_update.
      destruct (decide (o' = o)) as [->|]; [|done].
      destruct (tensor_of w o); simpl; set_solver. }
    assert (Hsome1 : ∀ o', is_Some (tensor_of w o') → is_Some (tensor_of w1 o')).
    { intros o'. unfold w1. rewrite tensor_of_update.
      destruct (decide (o' = o)) as [->|]; [|done]. by intros [t ->]. }
    exists w'. split; [exact Hrun|]. split; [|split; [|split; [|split]]].
    + rewrite Hnames.
      destruct (names_of_update o.1 (on_output o.2 (tensor_add_names {[name]})) w)
        as (w2 & [= <-] & Hn); done.
    + intros id. rewrite Hkind. by apply kind_of_update.
    + intros o' Ho'. by apply Hsome, Hsome1.
    + intros o'. etrans; [apply Hstep|apply Hmono].
    + intros [|j] o' Hj Ho'.
      * injection Hj as <-. rewrite Nat.add_0_r. apply Hmono.
        unfold get_names, w1. rewrite tensor_of_update, decide_True by done.
        destruct Ho' as [t ->]. simpl. set_solver.
      * replace (i + S j) with (S i + j) by lia. apply (Hin j o' Hj). by apply Hsome1.
Qed.

(** X11.  For an Identity node with no more converted outputs than
    declared ones, set_friendly_names returns, changes no friendly name
    and no node kind, takes no tensor name away, and adds to each
    converted output that has a tensor the declared output name at its
    position. *)
Theorem X11_identity_outputs_keep_their_friendly_names
    (onnx_node : Node Registry) (ng_subgraph_outputs : OutputVector) (w : World) :
  Node_op_type onnx_node = "Identity" →
  (length ng_subgraph_outputs ≤ get_outputs_size onnx_node)%nat →
  ∃ w', set_friendly_names onnx_node ng_subgraph_outputs w = (Ok tt, w')
        ∧ names_of w' = names_of w
        ∧ (∀ id, kind_of w' id = kind_of w id)
        ∧ (∀ o, get_names w o ⊆ get_names w' o)
        ∧ (∀ i o, ng_subgraph_outputs !! i = Some o → is_Some (tensor_of w o) →
                  declared_output onnx_node i ∈ get_names w' o).
Proof.
  intros Hid Hlen. unfold set_friendly_names. rewrite Hid. simpl.
  destruct (name_identity_outputs_ok onnx_node ng_subgraph_outputs 0 w Hlen)
    as (w' & Hrun & Hnames & Hkind & _ & Hmono & Hin).
  exists w'. repeat split; try done.
Qed.

(** X10.  A conversion function that returns fewer outputs than the node
    declares, or none at all for a node other than Identity, makes
    make_ng_nodes throw a standard exception, the range check of at().
    It is thrown outside the try block, so it is not replaced by an
    ngraph_error carrying the node's error prefix. *)
Theorem X10_too_few_converted_outputs_are_an_error
    (g : Graph Registry) (onnx_node : Node Registry)
    (ng_node_factory : Node Registry → M OutputVector)
    (ng_subgraph_outputs : OutputVector) (w w1 : World) :
  get_operator (m_opset (m_model g)) (Node_op_type onnx_node) (Node_domain onnx_node)
    = Ok ng_node_factory →
  ng_node_factory onnx_node w = (Ok ng_subgraph_outputs, w1) →
  (length ng_subgraph_outputs < get_outputs_size onnx_node)%nat
  ∨ (ng_subgraph_outputs = [] ∧ String.eqb (Node_op_type onnx_node) "Identity" = false) →
  ∃ exc w', make_ng_nodes g onnx_node w = (Throw exc, w')
            ∧ exn_cls exc = std_exception.
Proof.
  intros Hop Hconv Hfew. unfold make_ng_nodes.
  erewrite bind_ok by (unfold lift_outcome; by rewrite Hop).
  erewrite bind_ok by (unfold try_catch; by rewrite Hconv).
  destruct (String.eqb (Node_op_type onnx_node) "Identity") eqn:Hid.
  - destruct Hfew as [Hfew|[_ ?]]; [|done].
    destruct (name_identity_outputs_ok onnx_node ng_subgraph_outputs 0 w1 ltac:(lia))
      as (w' & Hrun & _).
    erewrite bind_ok by (unfold set_friendly_names; rewrite Hid; exact Hrun).
    destruct (cache_outputs_short onnx_node ng_subgraph_outputs
                (get_outputs_size onnx_node) 0 (m_cache g) w') as (e & He & Hcls);
      [lia|lia|].
    exists e, w'. split; [|done]. by apply bind_throw.
  - destruct ng_subgraph_outputs as [|first rest] eqn:Houts.
    + exists (mk_exn std_exception "vector::_M_range_check"), w1. split; [|done].
      apply bind_throw. unfold set_friendly_names. rewrite Hid. by apply bind_throw.
    + destruct Hfew as [Hfew|[? _]]; [|done]. rewrite <- Houts in *.
      assert (Hcommon : ∃ b, common_node_for_all_outputs ng_subgraph_outputs = Ok b)
        by (rewrite Houts; by eexists).
      destruct Hcommon as [b Hb].
      destruct (name_outputs_renames onnx_node b ng_subgraph_outputs 0 w1)
        as (w' & Hrun & _).
      erewrite bind_ok
        by (unfold set_friendly_names; rewrite Hid;
            erewrite bind_ok by (unfold lift_outcome; by rewrite Hb); exact Hrun).
      destruct (cache_outputs_short onnx_node ng_subgraph_outputs
                  (get_outputs_size onnx_node) 0 (m_cache g) w') as (e & He & Hcls);
        [lia|lia|].
      exists e, w'. split; [|done]. by apply bind_throw.
Qed.

(** ** The outputs of every node end up in the cache *)

Lemma cache_outputs_dom (onnx_node : Node Registry) outs cache w cache' w' :
  cache_outputs onnx_node outs (get_outputs_size onnx_node) 0 cache w = (Ok cache', w') →
  dom cache' = dom cache ∪ list_to_set (np_output (node_proto onnx_node))
  ∧ ∀ name, name ∉ np_output (node_proto onnx_node) → cache' !! name = cache !! name.
Proof.
  intros Hrun. apply cache_outputs_ok in Hrun as (_ & Hlen & Hother & Hthis).
  unfold get_outputs_size in *.
  assert (Hkeep : ∀ name, name ∉ np_output (node_proto onnx_node) →
                          cache' !! name = cache !! name).
  { intros name Hname. apply Hother. intros j _ Hj. apply Hname.
    by eapply list_elem_of_lookup_2. }
  split; [|done]. apply set_eq. intros name.
  rewrite elem_of_union, !elem_of_dom, elem_of_list_to_set.
  destruct (decide (name ∈ np_output (node_proto onnx_node))) as [Hin|Hnot].
  - split; [by right|]. intros _.
    destruct (last_occurrence _ _ Hin) as (j & Hj & Hl).
    pose proof (lookup_lt_Some _ _ _ Hj) as Hlt.
    rewrite (Hthis j name); [|lia|done|intros j' Hj'; apply Hl; lia].
    apply lookup_lt_is_Some_2. specialize (Hlen ltac:(lia)). lia.
  - rewrite (Hkeep name Hnot). tauto.
Qed.

Lemma Node_ctor_proto proto scopes (g : Graph Registry) w node w' :
  Node_ctor proto scopes g w = (Ok node, w') → node_proto node = proto.
Proof.
  unfold Node_ctor. intros Hrun.
  apply bind_inv_ok in Hrun as (subgraphs & w1 & _ & Hret). by injection Hret as <- <-.
Qed.

Lemma convert_node_caches node_proto scopes_above (g g' : Graph Registry) w w' :
  convert_node node_proto scopes_above g w = (Ok g', w') →
  dom (m_cache g') = dom (m_cache g) ∪ list_to_set (np_output node_proto)
  ∧ ∀ name, name ∉ np_output node_proto → m_cache g' !! name = m_cache g !! name.
Proof.
  rewrite convert_node_unfold. intros Hrun.
  apply bind_inv_ok in Hrun as (node & w1 & Hnode & Hrun).
  apply bind_inv_ok in Hrun as (subgraphs & w2 & _ & Hrun).
  apply bind_inv_ok in Hrun as ([outs g1] & w3 & Hmake & Hret).
  injection Hret as <- <-. apply Node_ctor_proto in Hnode.
  apply make_ng_nodes_inv in Hmake as (f & w4 & cache & _ & _ & _ & Hcache & ->).
  apply cache_outputs_dom in Hcache. simpl in *. by rewrite Hnode in Hcache.
Qed.

Lemma decode_node_caches node_proto scopes_above (g g' : Graph Registry) w w' :
  decode_node node_proto scopes_above g w = (Ok g', w') →
  dom (m_cache g') = dom (m_cache g) ∪ list_to_set (np_output node_proto)
  ∧ ∀ name, name ∉ np_output node_proto → m_cache g' !! name = m_cache g !! name.
Proof.
  rewrite decode_node_unfold. intros Hrun.
  apply bind_inv_ok in Hrun as (node & w1 & Hnode & Hrun).
  apply bind_inv_ok in Hrun as (ng_nodes & w2 & _ & Hrun).
  apply bind_inv_ok in Hrun as ([] & w3 & _ & Hrun).
  apply bind_inv_ok in Hrun as (cache & w4 & Hcache & Hret).
  injection Hret as <- <-. apply Node_ctor_proto in Hnode.
  apply cache_outputs_dom in Hcache. simpl in *. by rewrite Hnode in Hcache.
Qed.

Lemma node_loop_caches (step : Graph Registry → NodeProto → M (Graph Registry))
    (nodes : list NodeProto) (g g' : Graph Registry) w w' :
  (∀ g n w g' w', step g n w = (Ok g', w') →
     dom (m_cache g') = dom (m_cache g) ∪ list_to_set (np_output n)
     ∧ ∀ name, name ∉ np_output n → m_cache g' !! name = m_cache g !! name) →
  for_each step nodes g w = (Ok g', w') →
  dom (m_cache g') = dom (m_cache g) ∪ list_to_set (nodes ≫= np_output)
  ∧ ∀ name, name ∉ nodes ≫= np_output → m_cache g' !! name = m_cache g !! name.
Proof.
  intros Hstep. revert g w. induction nodes as [|n nodes IH]; intros g w.
  - simpl. intros [= <- <-]. split; [set_solver|done].
  - rewrite for_each_cons. destruct (step g n w) as [[g1|e] w1] eqn:Hn; [|done].
    intros Hrest. destruct (Hstep _ _ _ _ _ Hn) as [Hd1 Hk1].
    destruct (IH _ _ Hrest) as [Hd Hk]. rewrite bind_cons. split.
    + rewrite Hd, Hd1, list_to_set_app_L. set_solver.
    + intros name Hname. rewrite not_elem_of_app in Hname. destruct Hname as [H1 H2].
      by rewrite Hk, Hk1.
Qed.

(** X22.  When the loop over the nodes of a graph returns, on the
    conversion path or on the decode path, the cache has gained exactly
    the output names declared by the nodes: each of them now resolves,
    and every other name resolves as before. *)
Theorem X22_every_node_output_is_cached
    (scopes_above : list GraphCache) (g g' : Graph Registry) (w w' : World) :
  convert_to_ngraph_nodes scopes_above g w = (Ok g', w')
  ∨ decode_to_framework_nodes scopes_above g w = (Ok g', w') →
  let declared := gp_node (get_graph (m_model g)) ≫= np_output in
  dom (m_cache g') = dom (m_cache g) ∪ list_to_set declared
  ∧ (∀ name, name ∉ declared → m_cache g' !! name = m_cache g !! name)
  ∧ (∀ name, name ∈ declared → is_ng_node_in_cache (m_cache g' :: scopes_above) name = true).
Proof.
  intros Hrun declared.
  assert (H : dom (m_cache g') = dom (m_cache g) ∪ list_to_set declared
              ∧ ∀ name, name ∉ declared → m_cache g' !! name = m_cache g !! name).
  { destruct Hrun as [Hrun|Hrun].
    - eapply node_loop_caches; [|exact Hrun]. intros g0 n w0 g0' w0'.
      apply convert_node_caches.
    - eapply node_loop_caches; [|exact Hrun]. intros g0 n w0 g0' w0'.
      apply decode_node_caches. }
  destruct H as [Hd Hk]. split; [done|]. split; [done|].
  intros name Hname. simpl. apply orb_true_iff. left. apply contains_true, elem_of_dom.
  rewrite Hd. set_solver.
Qed.

(** ** The outputs of the function *)

Lemma get_ng_outputs_loop scopes w (l : list ValueInfoProto) (resolved acc : OutputVector) :
  Forall2 (λ output o, get_ng_node_from_cache scopes (vi_name output) = Ok o) l resolved →
  for_each (λ results output,
              let* ng_output :=
                lift_outcome (get_ng_node_from_cache scopes (vi_name output)) in
              let* null := read (λ w, is_null w ng_output) in
              if negb null then ret (results ++ [ng_output]) else ret results)
           l acc w
  = (Ok (acc ++ filter (λ o, is_null w o = false) resolved), w).
Proof.
  intros H. revert acc. induction H as [|output o l resolved Ho _ IH]; intros acc.
  - simpl. by rewrite app_nil_r.
  - rewrite for_each_cons. unfold bind at 1, lift_outcome. rewrite Ho.
    unfold bind at 1, read. destruct (is_null w o) eqn:Hnull; simpl.
    + rewrite IH. by rewrite filter_cons_False by (rewrite Hnull; done).
    + rewrite IH. rewrite filter_cons_True by done. by rewrite <- app_assoc.
Qed.

Lemma get_ng_outputs_loop_throws scopes w (pre post : list ValueInfoProto) output
      (resolved acc : OutputVector) e :
  Forall2 (λ output o, get_ng_node_from_cache scopes (vi_name output) = Ok o) pre resolved →
  get_ng_node_from_cache scopes (vi_name output) = Throw e →
  for_each (λ results output,
              let* ng_output :=
                lift_outcome (get_ng_node_from_cache scopes (vi_name output)) in
              let* null := read (λ w, is_null w ng_output) in
              if negb null then ret (results ++ [ng_output]) else ret results)
           (pre ++ output :: post) acc w
  = (Throw e, w).
Proof.
  intros Hpre He. rewrite for_each_app, (get_ng_outputs_loop _ _ _ _ _ Hpre).
  rewrite for_each_cons. unfold bind at 1, lift_outcome. by rewrite He.
Qed.

Lemma resolve_or_fail scopes (l : list ValueInfoProto) :
  (∃ resolved,
     Forall2 (λ output o, get_ng_node_from_cache scopes (vi_name output) = Ok o) l resolved)
  ∨ (∃ pre output post resolved e,
       l = pre ++ output :: post
       ∧ Forall2 (λ output o, get_ng_node_from_cache scopes (vi_name output) = Ok o)
                 pre resolved
       ∧ get_ng_node_from_cache scopes (vi_name output) = Throw e).
Proof.
  induction l as [|output l IH]; [left; by exists []|].
  destruct (get_ng_node_from_cache scopes (vi_name output)) as [o|e] eqn:Ho.
  - destruct IH as [[resolved H]|(pre & output' & post & resolved & e & -> & H & He)].
    + left. exists (o :: resolved). by constructor.
    + right. exists (output :: pre), output', post, (o :: resolved), e.
      split; [done|]. split; [by constructor|done].
  - right. by exists [], output, l, [], e.
Qed.

Lemma get_ng_outputs_inv scopes graph w outputs w' :
  get_ng_outputs scopes graph w = (Ok outputs, w') →
  w' = w
  ∧ ∃ resolved,
      Forall2 (λ output o, get_ng_node_from_cache scopes (vi_name output) = Ok o)
              (gp_output graph) resolved
      ∧ outputs = filter (λ o, is_null w o = false) resolved.
Proof.
  intros Hrun. split; [by eapply get_ng_outputs_reads|].
  unfold get_ng_outputs in Hrun.
  destruct (resolve_or_fail scopes (gp_output graph))
    as [[resolved H]|(pre & output & post & resolved & e & Hl & H & He)].
  - exists resolved. split; [done|].
    rewrite (get_ng_outputs_loop _ _ _ _ _ H) in Hrun. by injection Hrun as <- _.
  - rewrite Hl, (get_ng_outputs_loop_throws _ _ _ _ _ _ _ _ H He) in Hrun. done.
Qed.

(** X12.  get_ng_outputs reads the declared outputs from the cache in
    order and leaves the store as it is: when all of them resolve it
    returns the values found, without those that are null nodes; when
    they resolve up to one that is in no scope, it throws. *)
Theorem X12_declared_outputs_are_read_from_the_cache
    (scopes : list GraphCache) (graph : GraphProto) (w : World)
    (pre : list ValueInfoProto) (resolved : OutputVector) :
  Forall2 (λ output o, get_ng_node_from_cache scopes (vi_name output) = Ok o) pre resolved →
  (gp_output graph = pre →
   get_ng_outputs scopes graph w = (Ok (filter (λ o, is_null w o = false) resolved), w))
  ∧ (∀ output post, gp_output graph = pre ++ output :: post →
       is_ng_node_in_cache scopes (vi_name output) = false →
       ∃ e, get_ng_outputs scopes graph w = (Throw e, w)).
Proof.
  intros Hpre. split.
  - intros Hl. unfold get_ng_outputs. rewrite Hl.
    by rewrite (get_ng_outputs_loop _ _ _ _ _ Hpre).
  - intros output post Hl Hmissing.
    destruct (get_ng_node_from_cache scopes (vi_name output)) as [o|e] eqn:Ho.
    + assert (is_ng_node_in_cache scopes (vi_name output) = true); [|congruence].
      apply in_cache_iff_found. by exists o.
    + exists e. unfold get_ng_outputs. rewrite Hl.
      by apply get_ng_outputs_loop_throws with resolved.
Qed.

Lemma filter_all {A} (P : A → Prop) `{∀ x, Decision (P x)} (l : list A) :
  Forall P l → filter P l = l.
Proof.
  induction 1 as [|x l Hx _ IH]; [done|]. by rewrite filter_cons_True, IH.
Qed.

(** What create_function builds, output by output. *)
Lemma create_function_reads scopes_above (g : Graph Registry) w f w' :
  create_function scopes_above g w = (Ok f, w') →
  let graph := get_graph (m_model g) in
  ∃ resolved,
    Forall2 (λ output o,
               get_ng_node_from_cache (m_cache g :: scopes_above) (vi_name output) = Ok o)
            (gp_output graph) resolved
    ∧ f_name f = gp_name graph
    ∧ f_rt_info_graph f = false
    ∧ Forall2 (λ r o, input_values w' r = [o])
              (f_results f) (filter (λ o, is_null w o = false) resolved).
Proof.
  intros Hrun graph. unfold create_function in Hrun. fold graph in Hrun.
  apply bind_inv_ok in Hrun as (outputs & w1 & Hout & Hrun).
  apply get_ng_outputs_inv in Hout as (-> & resolved & Hres & ->).
  apply bind_inv_ok in Hrun as (function & w2 & Hmake & Hrun).
  apply bind_inv_ok in Hrun as ([] & w3 & Hname & Hret).
  injection Hret as <- <-.
  assert (Hfields : f_name function = gp_name graph ∧ f_rt_info_graph function = false).
  { unfold make_function in Hmake.
    apply bind_inv_ok in Hmake as (results & w4 & _ & Hret). by injection Hret as <- _. }
  apply make_function_results in Hmake as (Hpar & Hresults & rs & Hnodes & Hlen & Hlog & Hrs).
  assert (Hnd : NoDup (f_results function)) by (rewrite Hresults; apply NoDup_seq).
  assert (Hvalid : ∀ r, r ∈ f_results function → r < length (w_nodes w2)).
  { intros r Hr. rewrite Hresults in Hr. apply elem_of_seq in Hr.
    rewrite Hnodes, length_app. lia. }
  destruct (name_results_names _ _ _ _ _ Hnd Hvalid Hname) as (Hin & _).
  exists resolved. split; [done|]. split; [apply Hfields|]. split; [apply Hfields|].
  apply Forall2_same_length_lookup. split; [by rewrite Hresults, length_seq|].
  intros i r o Hr Ho. rewrite Hin. rewrite Hresults in Hr.
  apply lookup_seq in Hr as [-> Hi].
  destruct (Hrs i o Ho) as (n & Hn & _ & Hinputs & _).
  unfold input_values, node_at. rewrite Hnodes, lookup_app_r by lia.
  replace (length (w_nodes w) + i - length (w_nodes w)) with i by lia.
  by rewrite Hn.
Qed.

(** X13.  The Results of the function that create_function builds read,
    in order, the values the cache holds for the declared outputs, null
    nodes left out.  When none of them is a null node there is one
    Result per declared output, and the Result at a position reads the
    value cached under the declared output at that position and is
    named after that output and the port it reads. *)
Theorem X13_results_read_the_declared_outputs_in_order
    (scopes_above : list GraphCache) (g : Graph Registry) (f : ov_Function) (w w' : World) :
  create_function scopes_above g w = (Ok f, w') →
  let graph := get_graph (m_model g) in
  ∃ resolved,
    Forall2 (λ output o,
               get_ng_node_from_cache (m_cache g :: scopes_above) (vi_name output) = Ok o)
            (gp_output graph) resolved
    ∧ Forall2 (λ r o, input_values w' r = [o])
              (f_results f) (filter (λ o, is_null w o = false) resolved)
    ∧ (Forall (λ o, is_null w o = false) resolved →
       Forall2 (λ output r,
                  ∃ o, get_ng_node_from_cache (m_cache g :: scopes_above) (vi_name output)
                       = Ok o
                       ∧ input_values w' r = [o]
                       ∧ get_friendly_name w' r = result_name output o)
               (gp_output graph) (f_results f)).
Proof.
  intros Hrun graph.
  destruct (create_function_reads _ _ _ _ _ Hrun) as (resolved & Hres & _ & _ & Hread).
  apply create_function_spec in Hrun as (_ & Hnamed & _).
  exists resolved. split; [done|]. split; [done|].
  intros Hall. rewrite (filter_all _ _ Hall) in Hread.
  apply Forall2_same_length_lookup. split.
  - transitivity (length resolved);
      [by eapply Forall2_length|symmetry; by eapply Forall2_length].
  - intros i output r Houtput Hr.
    destruct (Forall2_lookup_l _ _ _ _ _ Hres Houtput) as (o & Ho & Hcache).
    destruct (Forall2_lookup_l _ _ _ _ _ Hread Hr) as (o' & Ho' & Hinputs).
    assert (o' = o) as -> by congruence.
    destruct (Hnamed i r Hr) as (output' & source & Houtput' & _ & Hsource & Hname).
    fold graph in Houtput'. assert (output' = output) as -> by congruence.
    assert (source = o) as -> by congruence.
    by exists o.
Qed.

(** X14.  Two Results of a function that have the same friendly name
    are named after declared outputs of the same name and read the same
    port index.  So when the declared outputs of the model have pairwise
    distinct names, the Results of the function have pairwise distinct
    friendly names. *)
Theorem X14_result_names_are_unique
    (scopes_above : list GraphCache) (g : Graph Registry) (f : ov_Function) (w w' : World) :
  create_function scopes_above g w = (Ok f, w') →
  let graph := get_graph (m_model g) in
  (∀ i j ri rj oi oj si sj,
     f_results f !! i = Some ri → f_results f !! j = Some rj →
     gp_output graph !! i = Some oi → gp_output graph !! j = Some oj →
     input_values w' ri = [si] → input_values w' rj = [sj] →
     get_friendly_name w' ri = get_friendly_name w' rj →
     vi_name oi = vi_name oj ∧ si.2 = sj.2)
  ∧ (NoDup (vi_name <$> gp_output graph) →
     NoDup (get_friendly_name w' <$> f_results f)).
Proof.
  intros Hrun graph. apply create_function_spec in Hrun as (_ & Hnamed & _).
  fold graph in Hnamed.
  assert (Hsame : ∀ i j ri rj oi oj si sj,
     f_results f !! i = Some ri → f_results f !! j = Some rj →
     gp_output graph !! i = Some oi → gp_output graph !! j = Some oj →
     input_values w' ri = [si] → input_values w' rj = [sj] →
     get_friendly_name w' ri = get_friendly_name w' rj →
     vi_name oi = vi_name oj ∧ si.2 = sj.2).
  { intros i j ri rj oi oj si sj Hi Hj Hoi Hoj Hsi Hsj Heq.
    destruct (Hnamed i ri Hi) as (oi' & si' & Hoi' & _ & Hsi' & Hni).
    destruct (Hnamed j rj Hj) as (oj' & sj' & Hoj' & _ & Hsj' & Hnj).
    assert (oi' = oi) as -> by congruence. assert (oj' = oj) as -> by congruence.
    assert (si' = si) as -> by congruence. assert (sj' = sj) as -> by congruence.
    rewrite Hni, Hnj in Heq. by apply result_name_inj. }
  split; [exact Hsame|].
  intros Hnd. apply NoDup_alt. intros i j name Hi Hj.
  rewrite list_lookup_fmap in Hi, Hj.
  destruct (f_results f !! i) as [ri|] eqn:Hri; [|done].
  destruct (f_results f !! j) as [rj|] eqn:Hrj; [|done].
  simpl in Hi, Hj.
  destruct (Hnamed i ri Hri) as (oi & si & Hoi & _ & Hsi & _).
  destruct (Hnamed j rj Hrj) as (oj & sj & Hoj & _ & Hsj & _).
  destruct (Hsame i j ri rj oi oj si sj) as [Hname _]; try done; [congruence|].
  eapply (NoDup_lookup _ _ _ _ Hnd).
  - rewrite list_lookup_fmap, Hoi. reflexivity.
  - rewrite list_lookup_fmap, Hoj. simpl. by rewrite Hname.
Qed.

(** ** Pruning twice *)

Lemma prune_fold_kept w graph (l : list nat) cache kept :
  Forall (λ p, is_dangling w graph p = false) l →
  fold_left (prune_step w graph) l (cache, kept) = (cache, kept ++ l).
Proof.
  intros H. revert kept. induction H as [|p l Hp _ IH]; intros kept.
  - simpl. by rewrite app_nil_r.
  - simpl. unfold prune_step at 2. rewrite Hp. simpl. rewrite IH.
    by rewrite <- app_assoc.
Qed.

(** X15.  remove_dangling_parameters leaves the store as it is; what it
    keeps is a sublist of the parameters, in their order, that contains
    every parameter with at least one consumer; and pruning again
    changes nothing. *)
Theorem X15_pruning_is_idempotent (g g1 : Graph Registry) (w w1 : World) :
  remove_dangling_parameters g w = (Ok g1, w1) →
  w1 = w
  ∧ remove_dangling_parameters g1 w = (Ok g1, w)
  ∧ m_parameters g1 `sublist_of` m_parameters g
  ∧ (∀ p, p ∈ m_parameters g → get_target_inputs w (p, 0) ≠ [] → p ∈ m_parameters g1).
Proof.
  intros Hrun.
  destruct (remove_dangling_parameters_spec g w) as (g1' & Hrun' & Hmodel & Hkept & _).
  rewrite Hrun in Hrun'. injection Hrun' as <- ->.
  split; [done|]. split; [|split].
  - unfold remove_dangling_parameters, bind, read, ret. rewrite Hmodel.
    rewrite prune_fold_kept.
    + simpl. unfold remove_dangling_parameters, bind, read, ret in Hrun.
      injection Hrun as <-. done.
    + rewrite Hkept. apply Forall_forall. intros p Hp.
      by apply list_elem_of_filter in Hp as [Hd _].
  - rewrite Hkept. apply sublist_filter.
  - intros p Hp Hused. rewrite Hkept. apply list_elem_of_filter. split; [|done].
    unfold is_dangling. destruct (get_target_inputs w (p, 0)); [done|]. done.
Qed.

(** X16.  Graph::decode never prunes: the function it returns has every
    parameter the graph had, in order, the graph keeps them and its
    model too, and the graph is attached to the runtime information of
    the function. *)
Theorem X16_decoding_keeps_every_parameter
    (g g' : Graph Registry) (f : ov_Function) (w w' : World) :
  Graph_decode g w = (Ok (f, g'), w') →
  f_parameters f = m_parameters g
  ∧ m_parameters g' = m_parameters g
  ∧ m_model g' = m_model g
  ∧ f_rt_info_graph f = true.
Proof.
  unfold Graph_decode. intros Hrun.
  apply bind_inv_ok in Hrun as (g1 & w1 & Hnodes & Hrun).
  apply bind_inv_ok in Hrun as (function & w2 & Hcreate & Hret).
  injection Hret as <- <- <-.
  apply decode_to_framework_nodes_frame in Hnodes as (Hmodel & Hpar & _).
  apply create_function_spec in Hcreate as (Hfpar & _).
  simpl. repeat split; congruence.
Qed.

(** ** Lifting only appends *)

Lemma same_but_inputs_refl n : same_but_inputs n n.
Proof. done. Qed.

Lemma same_but_inputs_trans n1 n2 n3 :
  same_but_inputs n1 n2 → same_but_inputs n2 n3 → same_but_inputs n1 n3.
Proof.
  unfold same_but_inputs. intros (? & ? & ? & ?) (? & ? & ? & ?). repeat split; congruence.
Qed.

Lemma lifting_refl (sg : Subgraph Registry) w : lifting sg w sg w.
Proof.
  exists []. unfold lifts. simpl. rewrite !app_nil_r, Nat.add_0_r.
  repeat split; try done.
  - intros id n Hn. exists n. split; [done|apply same_but_inputs_refl].
  - intros id Hid. lia.
Qed.

Lemma lifting_trans (sg1 sg2 sg3 : Subgraph Registry) w1 w2 w3 :
  lifting sg1 w1 sg2 w2 → lifting sg2 w2 sg3 w3 → lifting sg1 w1 sg3 w3.
Proof.
  intros (names1 & Hp1 & Hm1 & Hi1 & Hpar1 & Hl1 & Hn1 & Hlog1 & Hev1 & Hold1 & Hnew1)
         (names2 & Hp2 & Hm2 & Hi2 & Hpar2 & Hl2 & Hn2 & Hlog2 & Hev2 & Hold2 & Hnew2).
  exists (names1 ++ names2). unfold lifts.
  split; [congruence|]. split; [congruence|].
  split; [rewrite Hi2, Hi1; by rewrite app_assoc|].
  split.
  { rewrite Hpar2, Hpar1, length_app, seq_app, Hl1. by rewrite app_assoc. }
  split; [rewrite Hl2, Hl1, length_app; lia|].
  split; [apply Forall_app; split; [done|by rewrite <- Hp1]|].
  split; [congruence|]. split; [congruence|]. split.
  - intros id n Hn. destruct (Hold1 id n Hn) as (n' & Hn' & Hs1).
    destruct (Hold2 id n' Hn') as (n'' & Hn'' & Hs2).
    exists n''. split; [done|]. by eapply same_but_inputs_trans.
  - intros id Hid. destruct (decide (id < length (w_nodes w2))) as [Hlt|Hge].
    + assert (Hk : kind_of w2 id = Some op_Parameter) by (apply Hnew1; lia).
      unfold kind_of, node_at in *.
      destruct (w_nodes w2 !! id) as [n|] eqn:Hn; [|done].
      destruct (Hold2 id n Hn) as (n' & -> & Hk' & _). simpl in *. congruence.
    + apply Hnew2. lia.
Qed.

Lemma replace_input_lifts in_name from_parent_node slot (sg sg' : Subgraph Registry) w w' :
  is_ng_node_in_cache (m_parent_graph sg) in_name = true →
  replace_input_from_parent_scope_with_parameter in_name from_parent_node slot sg w
    = (Ok sg', w') →
  lifting sg w sg' w'.
Proof.
  intros Hin. unfold replace_input_from_parent_scope_with_parameter.
  unfold bind, read, alloc, replace_source_output, update_node, ret. simpl.
  intros [= <- <-]. exists [in_name]. unfold lifts. simpl.
  rewrite length_alter, length_app. simpl.
  repeat split; try done.
  - by constructor.
  - intros id n Hn. destruct (decide (id = slot.1)) as [->|Hne].
    + rewrite list_lookup_alter_eq, (lookup_app_l_Some _ _ _ _ Hn). simpl.
      eexists. split; [done|]. unfold same_but_inputs. simpl.
      by rewrite length_insert.
    + rewrite list_lookup_alter_ne by done. rewrite (lookup_app_l_Some _ _ _ _ Hn).
      exists n. split; [done|apply same_but_inputs_refl].
  - intros id Hid. assert (id = length (w_nodes w)) as -> by lia.
    unfold kind_of, node_at. simpl.
    destruct (decide (slot.1 = length (w_nodes w))) as [->|Hne].
    + rewrite list_lookup_alter_eq, lookup_app_r by lia.
      by replace (length (w_nodes w) - length (w_nodes w)) with 0 by lia.
    + rewrite list_lookup_alter_ne by done. rewrite lookup_app_r by lia.
      by replace (length (w_nodes w) - length (w_nodes w)) with 0 by lia.
Qed.

Lemma lifting_parent (sg sg' : Subgraph Registry) w w' :
  lifting sg w sg' w' → m_parent_graph sg' = m_parent_graph sg.
Proof. by intros (names & Hp & _). Qed.

Lemma for_each_lifting {A} (P : list GraphCache)
    (body : Subgraph Registry → A → M (Subgraph Registry)) l sg w sg' w' :
  (∀ sg a w sg' w', m_parent_graph sg = P → body sg a w = (Ok sg', w') →
                    lifting sg w sg' w') →
  m_parent_graph sg = P →
  for_each body l sg w = (Ok sg', w') → lifting sg w sg' w'.
Proof.
  intros Hbody. revert sg w. induction l as [|a l IH]; intros sg w HP.
  - simpl. intros [= <- <-]. apply lifting_refl.
  - rewrite for_each_cons. destruct (body sg a w) as [[sg1|e] w1] eqn:Hb; [|done].
    intros Hrest. pose proof (Hbody _ _ _ _ _ HP Hb) as H1.
    eapply lifting_trans; [exact H1|]. apply IH; [|done].
    by rewrite (lifting_parent _ _ _ _ H1).
Qed.

Lemma node_input_inv id i w slot w' :
  node_input id i w = (Ok slot, w') → w' = w.
Proof.
  unfold node_input, bind, read. destruct (Nat.ltb i (length (input_values w id)));
    by intros [= _ <-].
Qed.

Lemma lift_explicit_input_lifts node_proto in_name input_index from_parent_node
      (sg sg' : Subgraph Registry) w w' :
  is_ng_node_in_cache (m_parent_graph sg) in_name = true →
  lift_explicit_input node_proto in_name input_index from_parent_node sg w = (Ok sg', w') →
  lifting sg w sg' w'.
Proof.
  intros Hin. unfold lift_explicit_input.
  apply (for_each_lifting (m_parent_graph sg)); [|done].
  intros sg0 out_name w0 sg0' w0' HP.
  destruct (contains (m_cache (sg_graph sg0)) out_name);
    [|intros [= <- <-]; apply lifting_refl].
  intros Hrun. apply bind_inv_ok in Hrun as (o & w1 & Ho & Hrun).
  unfold lift_outcome in Ho. destruct (get_node _ _); [|done]. injection Ho as <- <-.
  apply bind_inv_ok in Hrun as (slot & w2 & Hslot & Hrun).
  apply node_input_inv in Hslot as ->.
  eapply replace_input_lifts; [|exact Hrun]. by rewrite HP.
Qed.

Lemma lift_explicit_inputs_lifts node_proto input_index names
      (sg sg' : Subgraph Registry) w w' :
  lift_explicit_inputs node_proto input_index names sg w = (Ok sg', w') →
  lifting sg w sg' w'.
Proof.
  revert input_index sg w. induction names as [|in_name names IH]; intros input_index sg w.
  - simpl. intros [= <- <-]. apply lifting_refl.
  - rewrite lift_explicit_inputs_cons.
    match goal with |- context [match ?c w with _ => _ end] =>
      destruct (c w) as [[sg1|e] w1] eqn:Hstep end; [|done].
    intros Hrest. eapply lifting_trans; [|by eapply IH].
    destruct (is_ng_node_in_cache (m_parent_graph sg) in_name) eqn:Hin;
      [|injection Hstep as <- <-; apply lifting_refl].
    apply bind_inv_ok in Hstep as (o & w2 & Ho & Hstep).
    unfold lift_outcome in Ho. destruct (get_ng_node_from_cache _ _); [|done].
    injection Ho as <- <-.
    apply bind_inv_ok in Hstep as (constant & w3 & Hc & Hstep).
    injection Hc as <- <-.
    destruct (negb _);
      [by eapply lift_explicit_input_lifts|injection Hstep as <- <-; apply lifting_refl].
Qed.

Lemma lift_implicit_inputs_of_lifts node_to_replace_input i inputs
      (sg sg' : Subgraph Registry) w w' :
  lift_implicit_inputs_of node_to_replace_input i inputs sg w = (Ok sg', w') →
  lifting sg w sg' w'.
Proof.
  revert i sg w. induction inputs as [|input inputs IH]; intros i sg w.
  - simpl. intros [= <- <-]. apply lifting_refl.
  - simpl. unfold bind at 1, read.
    destruct (is_constant w input.1) eqn:Hc.
    + unfold bind at 1, ret. apply IH.
    + unfold bind at 1. unfold bind at 1, read.
      destruct (is_ng_node_in_cache (m_parent_graph sg) (get_friendly_name w input.1))
        eqn:Hin; [|apply IH].
      unfold bind at 1, lift_outcome.
      destruct (get_ng_node_from_cache (m_parent_graph sg)
                  (get_friendly_name w input.1)) as [o|e]; [|done].
      unfold bind at 1.
      destruct (node_input node_to_replace_input i w) as [[slot|e] w1] eqn:Hslot; [|done].
      apply node_input_inv in Hslot as ->.
      destruct (replace_input_from_parent_scope_with_parameter
                  (get_friendly_name w input.1) o slot sg w) as [[sg1|e] w1] eqn:Hrep;
        [|done].
      intros Hrest. eapply lifting_trans; [by eapply replace_input_lifts|by eapply IH].
Qed.

Lemma lift_implicit_inputs_lifts node_proto (sg sg' : Subgraph Registry) w w' :
  lift_implicit_inputs node_proto sg w = (Ok sg', w') → lifting sg w sg' w'.
Proof.
  unfold lift_implicit_inputs.
  apply (for_each_lifting (m_parent_graph sg)); [|done].
  intros sg0 out_name w0 sg0' w0' _.
  destruct (contains (m_cache (sg_graph sg0)) out_name);
    [|intros [= <- <-]; apply lifting_refl].
  intros Hrun. apply bind_inv_ok in Hrun as (o & w1 & Ho & Hrun).
  unfold lift_outcome in Ho. destruct (get_node _ _); [|done]. injection Ho as <- <-.
  apply bind_inv_ok in Hrun as (subgraph_op & w2 & Hop & Hrun). injection Hop as <- <-.
  destruct (negb _); [injection Hrun as <- <-; apply lifting_refl|].
  apply bind_inv_ok in Hrun as (inputs & w3 & Hinputs & Hrun). injection Hinputs as <- <-.
  by eapply lift_implicit_inputs_of_lifts.
Qed.

Lemma find_inputs_from_parent_lifts (sg sg' : Subgraph Registry) w w' :
  find_inputs_from_parent sg w = (Ok sg', w') → lifting sg w sg' w'.
Proof.
  unfold find_inputs_from_parent.
  apply (for_each_lifting (m_parent_graph sg)); [|done].
  intros sg0 node_proto w0 sg0' w0' _ Hrun.
  apply bind_inv_ok in Hrun as (sg1 & w1 & Hexplicit & Himplicit).
  eapply lifting_trans;
    [by eapply lift_explicit_inputs_lifts|by eapply lift_implicit_inputs_lifts].
Qed.

(** ** The values borrowed from the parent *)

Lemma get_inputs_from_parent_loop (parent : list GraphCache) (names : list string)
      (acc : OutputVector) w :
  Forall (λ name, is_ng_node_in_cache parent name = true) names →
  ∃ outs,
    for_each (λ result name,
                let* o := lift_outcome (get_ng_node_from_cache parent name) in
                ret (result ++ [o])) names acc w = (Ok (acc ++ outs), w)
    ∧ Forall2 (λ name o, get_ng_node_from_cache parent name = Ok o) names outs.
Proof.
  intros H. revert acc. induction H as [|name names Hname _ IH]; intros acc.
  - exists []. split; [by rewrite app_nil_r|done].
  - apply in_cache_iff_found in Hname as [o Ho].
    destruct (IH (acc ++ [o])) as (outs & Hrun & Hall).
    exists (o :: outs). split; [|by constructor].
    rewrite for_each_cons. unfold bind at 1, lift_outcome at 1. rewrite Ho.
    unfold ret at 1. rewrite Hrun. by rewrite <- app_assoc.
Qed.

Lemma Subgraph_decode_unfold (sg : Subgraph Registry) :
  Subgraph_decode sg =
  let* g := decode_to_framework_nodes (m_parent_graph sg) (sg_graph sg) in
  let* sg' := find_inputs_from_parent (with_graph sg g) in
  let* function := create_function (m_parent_graph sg') (sg_graph sg') in
  ret (attach_graph function, sg').
Proof. unfold Subgraph_decode. by rewrite Subgraph_decode_body_unfold. Qed.

(** X17.  Subgraph::convert and Subgraph::decode, on a subgraph that has
    borrowed nothing yet: the parameters of the returned function are
    those the subgraph had, followed by one new Parameter node per
    borrowed name, and get_inputs_from_parent then returns, without
    failing, the parent values of the borrowed names in the same
    order. *)
Theorem X17_borrowed_values_match_the_lifted_parameters
    (sg sg' : Subgraph Registry) (f : ov_Function) (w w' : World) :
  Subgraph_convert sg w = (Ok (f, sg'), w') ∨ Subgraph_decode sg w = (Ok (f, sg'), w') →
  m_inputs_from_parent sg = [] →
  ∃ lifted outs,
    f_parameters f = m_parameters (sg_graph sg) ++ lifted
    ∧ length lifted = length (m_inputs_from_parent sg')
    ∧ (∀ p, p ∈ lifted → kind_of w' p = Some op_Parameter)
    ∧ get_inputs_from_parent sg' w' = (Ok outs, w')
    ∧ Forall2 (λ name o, get_ng_node_from_cache (m_parent_graph sg) name = Ok o)
              (m_inputs_from_parent sg') outs.
Proof.
  intros Hrun Hnone.
  assert (H : ∃ g1 w1 w2 function,
    same_but_cache (sg_graph sg) g1
    ∧ find_inputs_from_parent (with_graph sg g1) w1 = (Ok sg', w2)
    ∧ create_function (m_parent_graph sg') (sg_graph sg') w2 = (Ok function, w')
    ∧ f_parameters f = f_parameters function).
  { destruct Hrun as [Hrun|Hrun].
    - rewrite Subgraph_convert_unfold in Hrun.
      apply bind_inv_ok in Hrun as (g1 & w1 & Hnodes & Hrun).
      apply bind_inv_ok in Hrun as (sg1 & w2 & Hfind & Hrun).
      apply bind_inv_ok in Hrun as (function & w3 & Hcreate & Hret).
      injection Hret as <- <- <-. exists g1, w1, w2, function.
      split; [by eapply convert_to_ngraph_nodes_frame|done].
    - rewrite Subgraph_decode_unfold in Hrun.
      apply bind_inv_ok in Hrun as (g1 & w1 & Hnodes & Hrun).
      apply bind_inv_ok in Hrun as (sg1 & w2 & Hfind & Hrun).
      apply bind_inv_ok in Hrun as (function & w3 & Hcreate & Hret).
      injection Hret as <- <- <-. exists g1, w1, w2, function.
      split; [by eapply decode_to_framework_nodes_frame|done]. }
  destruct H as (g1 & w1 & w2 & function & (_ & Hpar & _) & Hfind & Hcreate & Hf).
  apply find_inputs_from_parent_lifts in Hfind
    as (names & Hparent & _ & Hnames & Hpars & Hlen & Hin & _ & _ & _ & Hnew).
  simpl in *. rewrite Hnone in Hnames. simpl in Hnames.
  apply create_function_spec in Hcreate as (Hfpar & _ & _ & Hold & _).
  destruct (get_inputs_from_parent_loop (m_parent_graph sg) names [] w' Hin)
    as (outs & Hget & Hall).
  exists (seq (length (w_nodes w1)) (length names)), outs.
  split; [by rewrite Hf, Hfpar, Hpars, Hpar|].
  split; [by rewrite length_seq, Hnames|]. split; [|split].
  - intros p Hp. apply elem_of_seq in Hp.
    unfold kind_of. rewrite Hold by lia. apply Hnew. lia.
  - unfold get_inputs_from_parent. by rewrite Hparent, Hnames.
  - by rewrite Hnames.
Qed.

(** X18.  find_inputs_from_parent only appends.  The names it borrows
    all resolve in the parent scope; for each of them it adds one node
    to the store, a Parameter, and that node to the parameter list; the
    log and the telemetry sink are untouched; and every node that was in
    the store keeps its kind, its friendly name, its output ports and
    the number of its input slots. *)
Theorem X18_lifting_only_adds_parameters (sg sg' : Subgraph Registry) (w w' : World) :
  find_inputs_from_parent sg w = (Ok sg', w') →
  ∃ names, lifts names sg w sg' w'.
Proof. apply find_inputs_from_parent_lifts. Qed.

(** ** Refreshing the lifted parameters *)

Lemma infer_loop (parent : list GraphCache) (l : list (nat * string)) w :
  NoDup l.*1 →
  (∀ p name, (p, name) ∈ l →
     ∃ o, get_ng_node_from_cache parent name = Ok o ∧ o.1 ∉ l.*1) →
  ∃ w',
    for_each (λ _ it,
                let* node := lift_outcome (get_ng_node_from_cache parent it.2) in
                let* element_type := read (λ w, get_element_type w node) in
                let* partial_shape := read (λ w, get_partial_shape w node) in
                update_node it.1
                  (on_output 0 (λ t, mk_Tensor (t_names t) (t_name t)
                                               element_type partial_shape)))
             l tt w = (Ok tt, w')
    ∧ names_of w' = names_of w
    ∧ (∀ id, kind_of w' id = kind_of w id)
    ∧ (∀ o, o.1 ∉ l.*1 → tensor_of w' o = tensor_of w o)
    ∧ (∀ p name o, (p, name) ∈ l → get_ng_node_from_cache parent name = Ok o →
         is_Some (tensor_of w (p, 0)) →
         get_element_type w' (p, 0) = get_element_type w o
         ∧ get_partial_shape w' (p, 0) = get_partial_shape w o
         ∧ get_names w' (p, 0) = get_names w (p, 0)).
Proof.
  revert w. induction l as [|[p0 name0] l IH]; intros w Hnd Hres.
  - exists w. split; [done|]. split; [done|]. split; [done|]. split; [done|].
    intros p name o Hin. by apply elem_of_nil in Hin.
  - rewrite fmap_cons in Hnd. apply NoDup_cons in Hnd as [Hp0 Hnd].
    destruct (Hres p0 name0 ltac:(by left)) as (o0 & Ho0 & Hsrc0).
    rewrite for_each_cons. unfold bind at 1, lift_outcome at 1. simpl. rewrite Ho0.
    unfold bind at 1, read at 1. unfold bind at 1, read at 1. unfold update_node at 1.
    set (f := λ t : Tensor, mk_Tensor (t_names t) (t_name t)
                              (get_element_type w o0) (get_partial_shape w o0)).
    set (w1 := mk_World (alter (on_output 0 f) p0 (w_nodes w)) (w_log w) (w_events w)).
    assert (Hten : ∀ o, tensor_of w1 o
                        = if decide (o = (p0, 0)) then f <$> tensor_of w (p0, 0)
                          else tensor_of w o).
    { intros o. unfold w1. apply (tensor_of_update (p0, 0)). }
    destruct (IH w1 Hnd) as (w' & Hrun & Hnames & Hkind & Hother & Hthis).
    { intros p name Hin. destruct (Hres p name ltac:(by right)) as (o & Ho & Hsrc).
      exists o. split; [done|]. rewrite fmap_cons in Hsrc.
      by apply not_elem_of_cons in Hsrc as [_ ?]. }
    exists w'. split; [exact Hrun|]. split; [|split; [|split]].
    + rewrite Hnames.
      destruct (names_of_update p0 (on_output 0 f) w) as (w2 & [= <-] & Hn); done.
    + intros id. rewrite Hkind. by apply kind_of_update.
    + intros o Ho. apply not_elem_of_cons in Ho as [Hne Ho].
      rewrite Hother by done. rewrite Hten. rewrite decide_False; [done|].
      intros ->. done.
    + intros p name o Hin Ho Hsome. apply elem_of_cons in Hin as [[= -> ->]|Hin].
      * assert (o = o0) as -> by congruence.
        unfold get_element_type, get_partial_shape, get_names.
        rewrite (Hother (p0, 0)) by done. rewrite Hten, decide_True by done.
        destruct Hsome as [t ->]. done.
      * destruct (Hres p name ltac:(by right)) as (o' & Ho' & Hsrc).
        assert (o' = o) as -> by congruence.
        rewrite fmap_cons in Hsrc. apply not_elem_of_cons in Hsrc as [Hne Hsrc].
        assert (Hpne : p ≠ p0).
        { intros ->. apply Hp0. apply list_elem_of_fmap. by exists (p0, name). }
        assert (Hsame : ∀ o1 : Output, o1.1 ≠ p0 → tensor_of w1 o1 = tensor_of w o1).
        { intros o1 H1. rewrite Hten. rewrite decide_False; [done|]. intros ->. done. }
        destruct (Hthis p name o Hin Ho) as (Het & Hps & Hn).
        { by rewrite (Hsame (p, 0)). }
        unfold get_element_type, get_partial_shape, get_names in *.
        rewrite (Hsame o) in Het, Hps by done.
        rewrite (Hsame (p, 0)) in Hn by done. done.
Qed.

(** X19.  When every name in the parameter-to-parent mapping resolves in
    the parent scope to a value that is not itself one of the mapped
    parameters, infer_inputs_from_parent returns and gives each mapped
    parameter the element type and the partial shape its parent value
    has.  It changes no friendly name, no node kind, no tensor name of a
    mapped parameter, and no tensor of any other node. *)
Theorem X19_inferred_parameters_follow_the_parent
    (sg : Subgraph Registry) (w : World) :
  (∀ p name, m_parameter_to_parent_node_map sg !! p = Some name →
     ∃ o, get_ng_node_from_cache (m_parent_graph sg) name = Ok o
          ∧ m_parameter_to_parent_node_map sg !! o.1 = None) →
  ∃ w',
    infer_inputs_from_parent sg w = (Ok tt, w')
    ∧ names_of w' = names_of w
    ∧ (∀ id, kind_of w' id = kind_of w id)
    ∧ (∀ o, m_parameter_to_parent_node_map sg !! o.1 = None →
            tensor_of w' o = tensor_of w o)
    ∧ (∀ p name o,
         m_parameter_to_parent_node_map sg !! p = Some name →
         get_ng_node_from_cache (m_parent_graph sg) name = Ok o →
         is_Some (tensor_of w (p, 0)) →
         get_element_type w' (p, 0) = get_element_type w o
         ∧ get_partial_shape w' (p, 0) = get_partial_shape w o
         ∧ get_names w' (p, 0) = get_names w (p, 0)).
Proof.
  intros Hres. unfold infer_inputs_from_parent.
  set (m := m_parameter_to_parent_node_map sg) in *.
  assert (Hkeys : ∀ p, p ∉ (map_to_list m).*1 ↔ m !! p = None).
  { intros p. split.
    - intros Hnot. destruct (m !! p) as [name|] eqn:Hp; [|done].
      exfalso. apply Hnot. apply list_elem_of_fmap. exists (p, name).
      split; [done|]. by apply elem_of_map_to_list.
    - intros Hnone Hin. apply list_elem_of_fmap in Hin as ([p' name] & -> & Hin).
      apply elem_of_map_to_list in Hin. simpl in Hnone. congruence. }
  destruct (infer_loop (m_parent_graph sg) (map_to_list m) w)
    as (w' & Hrun & Hnames & Hkind & Hother & Hthis).
  - apply NoDup_fst_map_to_list.
  - intros p name Hin. apply elem_of_map_to_list in Hin.
    destruct (Hres p name Hin) as (o & Ho & Hsrc). exists o. split; [done|].
    by apply Hkeys.
  - exists w'. split; [exact Hrun|]. split; [done|]. split; [done|]. split.
    + intros o Ho. apply Hother. by apply Hkeys.
    + intros p name o Hp. apply Hthis. by apply elem_of_map_to_list.
Qed.

(** ** Joining the borrowed inputs to the inputs of a node *)

Lemma elem_of_prefix {A} (l1 l2 : list A) (x : A) :
  l1 `prefix_of` l2 → x ∈ l1 → x ∈ l2.
Proof. intros [k ->] Hx. apply elem_of_app. by left. Qed.

(** X20.  On the decode path the inputs a subgraph borrows join the
    inputs of the node that owns it without failing and without
    touching the store: the inputs already there stay in front, only
    borrowed values are appended, every borrowed value ends up
    represented by an input of the same friendly name, and if the
    friendly names of the inputs were pairwise distinct they still
    are. *)
Theorem X20_borrowed_inputs_join_once (from_parent inputs : OutputVector) (w : World) :
  ∃ inputs',
    add_inputs_from_parent from_parent inputs w = (Ok inputs', w)
    ∧ inputs `prefix_of` inputs'
    ∧ (∀ o, o ∈ inputs' → o ∈ inputs ∨ o ∈ from_parent)
    ∧ (∀ o, o ∈ from_parent →
            ∃ o', o' ∈ inputs' ∧ get_friendly_name w o'.1 = get_friendly_name w o.1)
    ∧ (NoDup ((λ o : Output, get_friendly_name w o.1) <$> inputs) →
       NoDup ((λ o : Output, get_friendly_name w o.1) <$> inputs')).
Proof.
  unfold add_inputs_from_parent. revert inputs.
  induction from_parent as [|input from_parent IH]; intros inputs.
  - exists inputs. repeat split; try done.
    + intros o Ho. by left.
    + intros o Ho. by apply elem_of_nil in Ho.
  - rewrite for_each_cons. unfold bind at 1, read at 1. unfold bind at 1, read at 1.
    set (name := get_friendly_name w input.1).
    destruct (existsb (λ n : Output, String.eqb name (get_friendly_name w n.1)) inputs)
      eqn:Hfound.
    + unfold ret at 1. destruct (IH inputs) as (inputs' & Hrun & Hpre & Hfrom & Hall & Hnd).
      exists inputs'. split; [exact Hrun|]. split; [done|]. split; [|split; [|done]].
      * intros o Ho. destruct (Hfrom o Ho) as [?|?]; [by left|right; by right].
      * intros o Ho. apply elem_of_cons in Ho as [->|Ho]; [|by apply Hall].
        apply existsb_exists in Hfound as (o' & Hin & Heq).
        apply String.eqb_eq in Heq. exists o'. split; [|done].
        apply (elem_of_prefix _ _ _ Hpre). by apply list_elem_of_In.
    + unfold ret at 1.
      destruct (IH (inputs ++ [input])) as (inputs' & Hrun & Hpre & Hfrom & Hall & Hnd).
      exists inputs'. split; [exact Hrun|].
      split; [etrans; [by apply prefix_app_r|exact Hpre]|]. split; [|split].
      * intros o Ho. destruct (Hfrom o Ho) as [Hin|?]; [|right; by right].
        apply elem_of_app in Hin as [?|Hin]; [by left|].
        apply list_elem_of_singleton in Hin as ->. right. by left.
      * intros o Ho. apply elem_of_cons in Ho as [->|Ho]; [|by apply Hall].
        exists input. split; [|done]. apply (elem_of_prefix _ _ _ Hpre).
        apply elem_of_app. right. by apply list_elem_of_singleton.
      * intros Hnd0. apply Hnd. rewrite fmap_app. apply NoDup_app. split; [done|].
        split; [|apply NoDup_singleton].
        intros n Hn Hn'. apply list_elem_of_singleton in Hn' as ->.
        apply list_elem_of_fmap in Hn as (o' & Heq & Ho').
        assert (Htrue : existsb (λ n : Output,
                                   String.eqb name (get_friendly_name w n.1)) inputs
                        = true); [|congruence].
        apply existsb_exists. exists o'. split; [by apply list_elem_of_In|].
        apply String.eqb_eq. done.
Qed.

(** ** Initializers that are passed over or fatal *)

(** X23.  Initializers without a name are passed over: the initializer
    pass over a list does what it does over the named initializers of
    the list alone, whatever data the unnamed ones carry. *)
Theorem X23_unnamed_initializers_are_passed_over
    (l : list TensorProto) (st : gmap string TensorProto * GraphCache) (w : World) :
  for_each process_initializer l st w
  = for_each process_initializer (filter (λ t, has_name t = true) l) st w.
Proof.
  revert st w. induction l as [|t l IH]; intros st w; [done|].
  destruct (has_name t) eqn:Hn.
  - rewrite filter_cons_True by done. rewrite !for_each_cons.
    destruct (process_initializer st t w) as [[st1|e] w1]; [apply IH|done].
  - rewrite filter_cons_False by (rewrite Hn; done).
    rewrite for_each_cons, process_initializer_unnamed by done. apply IH.
Qed.

(** X24.  A named initializer whose decoding fails outside the
    ngraph_error family aborts the construction with that very failure:
    the store and the log are as the initializers before it left them,
    with no constant, no warning and no graph. *)
Theorem X24_foreign_decode_failure_aborts_construction
    (model_proto : ModelProto) (cache : GraphCache) (telemetry : bool)
    (pre post : list TensorProto) (t : TensorProto) (e : exn)
    (st1 : gmap string TensorProto * GraphCache) (w w1 : World) :
  gp_initializer (mp_graph model_proto) = pre ++ t :: post →
  for_each process_initializer pre (∅, cache) w = (Ok st1, w1) →
  has_name t = true →
  get_ng_constant t = Throw e →
  is_ngraph_error e = false →
  Graph_ctor model_proto cache telemetry w = (Throw e, w1).
Proof.
  intros Hl Hpre Hn Hd He. apply Graph_ctor_initializers_throw.
  rewrite Hl, for_each_app, Hpre, for_each_cons.
  assert (Hx : is_invalid_external_data e = false).
  { destruct e as [[] msg]; done. }
  unfold process_initializer. destruct st1 as [inits cache1]. rewrite Hn.
  unfold bind at 1, make_initializer_constant. by rewrite Hd, Hx, He.
Qed.

(** ** Tensor names after naming *)

Lemma tensor_of_frame id (f : IRNode → IRNode) w o :
  (∀ n, n_outputs (f n) = n_outputs n) →
  tensor_of (mk_World (alter f id (w_nodes w)) (w_log w) (w_events w)) o = tensor_of w o.
Proof.
  intros Hf. unfold tensor_of, node_at. simpl.
  destruct (decide (o.1 = id)) as [<-|Hne].
  - rewrite list_lookup_alter_eq. destruct (w_nodes w !! o.1); simpl; [by rewrite Hf|done].
  - by rewrite list_lookup_alter_ne.
Qed.

Lemma is_null_frame id (f : IRNode → IRNode) w o :
  (∀ n, n_kind (f n) = n_kind n) →
  is_null (mk_World (alter f id (w_nodes w)) (w_log w) (w_events w)) o = is_null w o.
Proof. intros Hf. unfold is_null. by rewrite kind_of_update. Qed.

Lemma naming_round_spec friendly_name named o out_name w :
  ∃ w', naming_round friendly_name named o out_name w = (Ok tt, w')
        ∧ (∀ o', is_null w' o' = is_null w o')
        ∧ (∀ o', is_Some (tensor_of w o') → is_Some (tensor_of w' o'))
        ∧ (∀ o', o' ≠ o → get_names w' o' = get_names w o')
        ∧ (is_null w o = false → is_Some (tensor_of w o) →
           get_names w' o = {[out_name]}).
Proof.
  unfold naming_round.
  set (w1 := mk_World (alter (set_friendly_name_of friendly_name) o.1 (w_nodes w))
                      (w_log w) (w_events w)).
  set (w2 := if named
             then mk_World (alter (on_output o.2 (tensor_set_name out_name)) o.1
                                  (w_nodes w1)) (w_log w1) (w_events w1)
             else w1).
  assert (Hfirst :
    (if named then let* _ := set_friendly_name o.1 friendly_name in set_name o out_name
     else set_friendly_name o.1 friendly_name) w = (Ok tt, w2)).
  { unfold w2. by destruct named. }
  assert (Hnull1 : ∀ o', is_null w1 o' = is_null w o')
    by (intros o'; by apply is_null_frame).
  assert (Hnull2 : ∀ o', is_null w2 o' = is_null w o').
  { intros o'. unfold w2. destruct named; [|done]. rewrite <- Hnull1.
    by apply is_null_frame. }
  assert (Hten1 : ∀ o', tensor_of w1 o' = tensor_of w o')
    by (intros o'; by apply tensor_of_frame).
  assert (Hnames2 : ∀ o', get_names w2 o' = get_names w o').
  { intros o'. unfold w2, get_names. destruct named; [|by rewrite Hten1].
    rewrite tensor_of_update, <- !Hten1.
    destruct (decide (o' = o)) as [->|]; [|done]. by destruct (tensor_of w1 o). }
  assert (Hsome2 : ∀ o', is_Some (tensor_of w o') → is_Some (tensor_of w2 o')).
  { intros o'. unfold w2. rewrite <- Hten1. destruct named; [|done].
    rewrite tensor_of_update. destruct (decide (o' = o)) as [->|]; [|done].
    by intros [t ->]. }
  erewrite bind_ok by exact Hfirst. unfold bind at 1, read. rewrite Hnull2.
  destruct (is_null w o) eqn:Hnull; simpl.
  - exists w2. split; [done|]. split; [done|]. split; [done|]. split; [|done].
    intros o' _. apply Hnames2.
  - eexists. split; [reflexivity|]. split; [|split; [|split]].
    + intros o'. rewrite <- Hnull2. by apply is_null_frame.
    + intros o' Ho'. apply Hsome2 in Ho'. rewrite tensor_of_update.
      destruct (decide (o' = o)) as [->|]; [|done]. by destruct Ho' as [t ->].
    + intros o' Hne. unfold get_names. rewrite tensor_of_update, decide_False by done.
      apply Hnames2.
    + intros _ Hsome. apply Hsome2 in Hsome as [t Ht].
      unfold get_names. rewrite tensor_of_update, decide_True by done. by rewrite Ht.
Qed.

Lemma name_outputs_cons (onnx_node : Node Registry) common_node i o rest w :
  (i < get_outputs_size onnx_node)%nat →
  name_outputs onnx_node common_node i (o :: rest) w
  = match naming_round (friendly_name_at onnx_node common_node i)
                       (negb (String.eqb (Node_get_name onnx_node) ""))
                       o (declared_output onnx_node i) w with
    | (Ok _, w') => name_outputs onnx_node common_node (S i) rest w'
    | (Throw e, w') => (Throw e, w')
    end.
Proof.
  intros Hi. simpl. rewrite (proj2 (Nat.leb_gt _ _) Hi).
  erewrite bind_ok
    by (unfold lift_outcome; rewrite (Node_output_declared _ _ Hi); reflexivity).
  fold (declared_output onnx_node i).
  unfold naming_round, friendly_name_at. fold (declared_output onnx_node i).
  destruct (String.eqb (Node_get_name onnx_node) "") eqn:Hname; simpl.
  - unfold bind. 
    destruct (set_friendly_name o.1 (declared_output onnx_node i) w) as [[[]|e] w1]; [|done].
    unfold read. destruct (negb (is_null w1 o)).
    + by destruct (set_names o {[declared_output onnx_node i]} w1) as [[[]|e] w2].
    + done.
  - destruct common_node; unfold bind.
    + destruct (set_friendly_name o.1 (Node_get_name onnx_node) w) as [[[]|e] w1]; [|done].
      destruct (set_name o (declared_output onnx_node i) w1) as [[[]|e] w2]; [|done].
      unfold read. destruct (negb (is_null w2 o)).
      * by destruct (set_names o {[declared_output onnx_node i]} w2) as [[[]|e] w3].
      * done.
    + destruct (set_friendly_name o.1 _ w) as [[[]|e] w1]; [|done].
      destruct (set_name o (declared_output onnx_node i) w1) as [[[]|e] w2]; [|done].
      unfold read. destruct (negb (is_null w2 o)).
      * by destruct (set_names o {[declared_output onnx_node i]} w2) as [[[]|e] w3].
      * done.
Qed.

Lemma name_outputs_names (onnx_node : Node Registry) common_node outputs i w :
  ∃ w', name_outputs onnx_node common_node i outputs w = (Ok tt, w')
        ∧ (∀ o, is_null w' o = is_null w o)
        ∧ (∀ o, is_Some (tensor_of w o) → is_Some (tensor_of w' o))
        ∧ (∀ o, (∀ j, (i + j < get_outputs_size onnx_node)%nat →
                      outputs !! j ≠ Some o) →
                get_names w' o = get_names w o)
        ∧ (∀ j o, outputs !! j = Some o → (i + j < get_outputs_size onnx_node)%nat →
             (∀ j', (j < j')%nat → (i + j' < get_outputs_size onnx_node)%nat →
                    outputs !! j' ≠ Some o) →
             is_null w o = false → is_Some (tensor_of w o) →
             get_names w' o = {[declared_output onnx_node (i + j)]}).
Proof.
  revert i w. induction outputs as [|o rest IH]; intros i w.
  - exists w. split; [done|]. split; [done|]. split; [done|]. split; [done|].
    intros j o Hj. done.
  - destruct (decide (i < get_outputs_size onnx_node)%nat) as [Hi|Hi].
    + rewrite name_outputs_cons by done.
      destruct (naming_round_spec (friendly_name_at onnx_node common_node i)
                  (negb (String.eqb (Node_get_name onnx_node) ""))
                  o (declared_output onnx_node i) w)
        as (w1 & -> & Hnull1 & Hsome1 & Hother1 & Hthis1).
      destruct (IH (S i) w1) as (w' & Hrun & Hnull & Hsome & Hother & Hthis).
      exists w'. split; [exact Hrun|]. split; [|split; [|split]].
      * intros o'. by rewrite Hnull.
      * intros o' Ho'. by apply Hsome, Hsome1.
      * intros o' Hnot. rewrite Hother.
        -- apply Hother1. intros ->. apply (Hnot 0); [lia|done].
        -- intros j Hj. apply (Hnot (S j)). lia.
      * intros [|j] o' Hj Hlt Hlast Hn Hs.
        -- injection Hj as <-. rewrite Nat.add_0_r. rewrite Hother.
           ++ by apply Hthis1.
           ++ intros j Hj. apply (Hlast (S j)); lia.
        -- replace (i + S j) with (S i + j) by lia. apply Hthis.
           ++ done.
           ++ lia.
           ++ intros j' Hjj' Hlt'. apply (Hlast (S j')); lia.
           ++ by rewrite Hnull1.
           ++ by apply Hsome1.
    + assert (Hle : Nat.leb (get_outputs_size onnx_node) i = true)
        by (apply Nat.leb_le; lia).
      exists w. split; [simpl; by rewrite Hle|].
      split; [done|]. split; [done|]. split; [done|].
      intros j o' _ Hlt. lia.
Qed.

(** X21.  For a node other than Identity with at least one converted
    output, set_friendly_names returns and binds each processed output
    that has a tensor and is not a null node to exactly its declared
    name: the tensor names it had are replaced.  An output given twice
    is bound to the name of its last processed position; outputs that
    are not processed keep their tensor names, and no node becomes or
    stops being a null node. *)
Theorem X21_converted_outputs_are_bound_to_their_declared_names
    (onnx_node : Node Registry) (ng_subgraph_outputs : OutputVector) (w : World) :
  String.eqb (Node_op_type onnx_node) "Identity" = false →
  ng_subgraph_outputs ≠ [] →
  ∃ w',
    set_friendly_names onnx_node ng_subgraph_outputs w = (Ok tt, w')
    ∧ (∀ o, is_null w' o = is_null w o)
    ∧ (∀ o, (∀ j, (j < get_outputs_size onnx_node)%nat →
                  ng_subgraph_outputs !! j ≠ Some o) →
            get_names w' o = get_names w o)
    ∧ (∀ j o, ng_subgraph_outputs !! j = Some o → (j < get_outputs_size onnx_node)%nat →
         (∀ j', (j < j')%nat → (j' < get_outputs_size onnx_node)%nat →
                ng_subgraph_outputs !! j' ≠ Some o) →
         is_null w o = false → is_Some (tensor_of w o) →
         get_names w' o = {[declared_output onnx_node j]}).
Proof.
  intros Hid Hne. unfold set_friendly_names. rewrite Hid.
  destruct ng_subgraph_outputs as [|first rest] eqn:Houts; [done|].
  rewrite <- Houts.
  erewrite bind_ok by (unfold lift_outcome; rewrite Houts; reflexivity).
  destruct (name_outputs_names onnx_node
              (forallb (λ o : Output, Nat.eqb o.1 first.1) rest) ng_subgraph_outputs 0 w)
    as (w' & Hrun & Hnull & _ & Hother & Hthis).
  exists w'. split; [exact Hrun|]. split; [done|]. split; [exact Hother|exact Hthis].
Qed.

(** ** Lifting one parent value among others *)















End Further.

(** * The importer on concrete models *)

Section Examples.
Import Sample.
Local Existing Instance env.

(** The first initializer is materialized; the second one points at a
    file that cannot be resolved and aborts the construction. *)
Lemma C1_external_data_witness :
  (∃ e' w', Graph_ctor external_model ∅ false empty_world = (Throw e', w'))
  ∧ Graph_ctor external_model ∅ false empty_world
    = (Throw external_failure,
       add_node (named_constant "w0" (mk_ConstantData et_f32 [2%N] [1%Z; 2%Z]))
                empty_world).
Proof.
  destruct (C1_unresolvable_external_data_is_fatal
              external_model ∅ false [inline_weights] [] external_weights
              external_failure empty_world) as [Hfails Hthis];
    [reflexivity|reflexivity|reflexivity|reflexivity|].
  split; [exact Hfails|]. eapply Hthis. vm_compute. reflexivity.
Defined.

(** C1 as stated fails on an initializer that has no name: its payload
    points at a file that cannot be resolved, yet it is skipped and the
    graph is constructed. *)
Lemma C1_unnamed_initializer_counterexample :
  unnamed_external_weights ∈ gp_initializer (mp_graph unnamed_external_model)
  ∧ get_ng_constant unnamed_external_weights = Throw external_failure
  ∧ is_invalid_external_data external_failure = true
  ∧ Graph_new unnamed_external_model false empty_world
    = (Ok unnamed_graph, unnamed_world)
  ∧ ¬ (∃ e w', Graph_new unnamed_external_model false empty_world = (Throw e, w')).
Proof.
  split; [by left|]. split; [reflexivity|]. split; [reflexivity|].
  split; [vm_compute; reflexivity|].
  intros (e & w' & H). vm_compute in H. discriminate.
Qed.


(** C3: the code at the failing input.  Both operators are unavailable on
    the upfront scan and render to the key [a.b]; the map keeps the first,
    which the scan makes available, so the gate passes although the
    operator [a.b] of the default domain has no conversion function. *)
Lemma C3_colliding_keys_pass_the_gate :
  get_op_domain_and_name op_a_b = get_op_domain_and_name op_ab
  ∧ is_operator_available (Model_opset colliding_model) op_a_b = false
  ∧ is_operator_available (Model_opset colliding_model) op_ab = false
  ∧ Graph_new colliding_model false empty_world = (Ok colliding_graph, empty_world)
  ∧ gp_node (get_graph (m_model colliding_graph)) = [op_a_b; op_ab]
  ∧ is_operator_available (m_opset (m_model colliding_graph)) op_ab = false
  ∧ get_operator (m_opset (m_model colliding_graph))
                 (np_op_type op_ab) (get_node_domain op_ab)
    = Throw (mk_exn ngraph_error "operator not registered: a.b").
Proof. repeat split; vm_compute; reflexivity. Qed.

(** The domain custom.ops is not enabled at first; the scan enables it
    and the model is accepted. *)
Lemma C4_custom_domain_witness :
  is_operator_available (Model_opset custom_model) gelu = false
  ∧ ∃ g w',
      Graph_ctor custom_model ∅ false empty_world = (Ok g, w')
      ∧ m_opset (m_model g) = [""; "custom.ops"].
Proof.
  split; [reflexivity|].
  destruct (C4_domains_enabled_by_the_scan_are_accepted
              custom_model ∅ false empty_world empty_world (∅, ∅))
    as (_ & g & w' & Hrun & Hopset).
  - reflexivity.
  - intros n Hn. apply list_elem_of_singleton in Hn as ->. reflexivity.
  - exists g, w'. split; [exact Hrun|]. rewrite Hopset. reflexivity.
Defined.

(** An initializer and an input share the name w0: the input gets no
    parameter, the only parameter is the placeholder of x. *)
Lemma C8_shadowed_input_witness :
  Graph_ctor shadowed_model ∅ false empty_world = (Ok shadowed_graph, shadowed_world)
  ∧ m_parameters shadowed_graph = [1]
  ∧ ∃ cache1 w1,
      initializers_cached [inline_weights] cache1 w1
      ∧ placeholders_of [value_info "w0"; value_info "x"] cache1
                        (m_parameters shadowed_graph) shadowed_world.
Proof.
  assert (Hrun : Graph_ctor shadowed_model ∅ false empty_world
                 = (Ok shadowed_graph, shadowed_world)) by (vm_compute; reflexivity).
  split; [exact Hrun|]. split; [reflexivity|].
  destruct (C8_initializers_cached_before_inputs_and_nodes _ _ _ _ _ _ Hrun)
    as (initializers & cache1 & w1 & w2 & _ & Hcached & _ & _ & _ & Hpl).
  exists cache1, w1. split; [exact Hcached|exact Hpl].
Defined.

(** C8 as stated fails on an initializer that has no name: the
    construction succeeds with nothing materialized for it: the store
    holds the placeholder of x and nothing else, and so does the cache. *)
Lemma C8_unnamed_initializer_counterexample :
  unnamed_external_weights ∈ gp_initializer (mp_graph unnamed_external_model)
  ∧ Graph_new unnamed_external_model false empty_world
    = (Ok unnamed_graph, unnamed_world)
  ∧ w_nodes unnamed_world = [parameter_node (value_info "x")]
  ∧ m_cache unnamed_graph = {["x" := (0, 0)]}
  ∧ m_cache unnamed_graph !! name_of unnamed_external_weights = None.
Proof.
  split; [by left|]. repeat split; vm_compute; reflexivity.
Qed.

(** A failing conversion function: a standard exception is wrapped
    with the node's prefix, a validation failure passes as it is, and
    anything else is logged and thrown again. *)
Lemma C9_failure_policy_witness :
  make_ng_nodes empty_graph (bare_node failing_node) empty_world
  = (Throw (mk_exn ngraph_error
              ("While validating ONNX node 'f1'" +:+ ":" +:+ nl +:+ "bad shape")),
     empty_world)
  ∧ make_ng_nodes empty_graph (bare_node invalid_node) empty_world
    = (Throw (mk_exn OnnxNodeValidationFailure "invalid attribute"), empty_world)
  ∧ make_ng_nodes empty_graph (bare_node unknown_node) empty_world
    = (Throw (mk_exn unrecognized ""),
       add_log (NGRAPH_ERR ("While validating ONNX node 'u1'"
                              +:+ "Unhandled exception type. " +:+ nl)) empty_world).
Proof.
  split; [|split].
  - destruct (C9_conversion_failure_is_never_swallowed (Env := env)
                empty_graph (bare_node failing_node) (operator "" "Fail")
                (mk_exn std_exception "bad shape") empty_world empty_world)
      as (exc' & w' & Hrun & _ & Hstd & _); [reflexivity|reflexivity|].
    destruct Hstd as [-> ->]; [reflexivity|reflexivity|]. exact Hrun.
  - destruct (C9_conversion_failure_is_never_swallowed (Env := env)
                empty_graph (bare_node invalid_node) (operator "" "Invalid")
                (mk_exn OnnxNodeValidationFailure "invalid attribute")
                empty_world empty_world)
      as (exc' & w' & Hrun & Hvalid & _); [reflexivity|reflexivity|].
    destruct Hvalid as [-> ->]; [reflexivity|]. exact Hrun.
  - destruct (C9_conversion_failure_is_never_swallowed (Env := env)
                empty_graph (bare_node unknown_node) (operator "" "Unknown")
                (mk_exn unrecognized "") empty_world empty_world)
      as (exc' & w' & Hrun & _ & _ & Hother); [reflexivity|reflexivity|].
    destruct Hother as [-> ->]; [reflexivity|]. exact Hrun.
Defined.

(** Two outputs named out1 and out2.  An unnamed node whose outputs
    share one IR node leaves it named out2; a node named N leaves it
    named N; a node named N whose outputs come from two IR nodes names
    them N_out1 and N_out2. *)
Lemma C6_naming_witness :
  (∃ w', set_friendly_names (bare_node unnamed_two_outputs) [(0, 0); (0, 1)]
           one_node_two_ports = (Ok tt, w')
         ∧ get_friendly_name w' 0 = "out2")
  ∧ (∃ w', set_friendly_names (bare_node named_two_outputs) [(0, 0); (0, 1)]
             one_node_two_ports = (Ok tt, w')
           ∧ get_friendly_name w' 0 = "N")
  ∧ (∃ w', set_friendly_names (bare_node named_two_outputs) [(0, 0); (1, 0)]
             two_nodes = (Ok tt, w')
           ∧ get_friendly_name w' 0 = "N_out1"
           ∧ get_friendly_name w' 1 = "N_out2").
Proof.
  assert (Hlive1 : ∀ o : Output, o ∈ [(0, 0); (0, 1)] →
                                 o.1 < length (w_nodes one_node_two_ports)).
  { intros o Ho. repeat (apply elem_of_cons in Ho as [->|Ho]; [vm_compute; lia|]).
    by apply elem_of_nil in Ho. }
  assert (Hlive2 : ∀ o : Output, o ∈ [(0, 0); (1, 0)] →
                                 o.1 < length (w_nodes two_nodes)).
  { intros o Ho. repeat (apply elem_of_cons in Ho as [->|Ho]; [vm_compute; lia|]).
    by apply elem_of_nil in Ho. }
  split; [|split].
  - destruct (C6_friendly_names_of_a_converted_node (Env := env)
                (bare_node unnamed_two_outputs) [(0, 0); (0, 1)] one_node_two_ports
                eq_refl ltac:(discriminate) Hlive1)
      as (w' & common & Hrun & _ & _ & Hunnamed & _).
    exists w'. split; [exact Hrun|].
    refine (Hunnamed eq_refl 1 (0, 1) eq_refl ltac:(vm_compute; lia) _).
    intros j o' Hj Hlt. vm_compute in Hlt. lia.
  - destruct (C6_friendly_names_of_a_converted_node (Env := env)
                (bare_node named_two_outputs) [(0, 0); (0, 1)] one_node_two_ports
                eq_refl ltac:(discriminate) Hlive1)
      as (w' & common & Hrun & _ & _ & _ & Hcommon & _).
    exists w'. split; [exact Hrun|].
    assert (Hsame : ∀ first o : Output,
               [(0, 0); (0, 1)] !! 0 = Some first →
               o ∈ [(0, 0); (0, 1)] → o.1 = first.1).
    { intros first o [= <-] Ho.
      repeat (apply elem_of_cons in Ho as [->|Ho]; [reflexivity|]).
      by apply elem_of_nil in Ho. }
    exact (Hcommon ltac:(discriminate) Hsame ltac:(vm_compute; lia) (0, 0)
                   ltac:(by left)).
  - destruct (C6_friendly_names_of_a_converted_node (Env := env)
                (bare_node named_two_outputs) [(0, 0); (1, 0)] two_nodes
                eq_refl ltac:(discriminate) Hlive2)
      as (w' & common & Hrun & _ & _ & _ & _ & Hdistinct).
    exists w'. split; [exact Hrun|].
    assert (Hnd : NoDup ([(0, 0); (1, 0)].*1 : list nat))
      by (apply NoDup_seq with (j := 0) (n := 2)).
    split.
    + exact (Hdistinct ltac:(discriminate) Hnd ltac:(vm_compute; lia) 0 (0, 0)
                       eq_refl ltac:(vm_compute; lia)).
    + exact (Hdistinct ltac:(discriminate) Hnd ltac:(vm_compute; lia) 1 (1, 0)
                       eq_refl ltac:(vm_compute; lia)).
Defined.

(** C7: the code at the failing input.  The conversion of the dead
    Dropout node hands the placeholder of x through as its output, so
    the naming renames the placeholder to drop1 and rebinds it to y.
    The pruning drops it from the parameter list and removes the cache
    entry drop1, which does not exist: the cache still holds the
    placeholder, under x and under y. *)
Lemma C7_renamed_placeholder_witness :
  Graph_new passthrough_model false empty_world = (Ok passthrough_graph, passthrough_world)
  ∧ m_parameters passthrough_graph = [0]
  ∧ m_cache passthrough_graph !! "x" = Some (0, 0)
  ∧ get_friendly_name passthrough_world 0 = "x"
  ∧ convert_to_ngraph_nodes [] passthrough_graph passthrough_world
    = (Ok passthrough_nodes_converted, passthrough_nodes_world)
  ∧ kind_of passthrough_nodes_world 0 = Some op_Parameter
  ∧ get_friendly_name passthrough_nodes_world 0 = "drop1"
  ∧ (∃ g', remove_dangling_parameters passthrough_nodes_converted passthrough_nodes_world
           = (Ok g', passthrough_nodes_world)
           ∧ 0 ∉ m_parameters g'
           ∧ m_cache g' !! "x" = Some (0, 0))
  ∧ Graph_convert passthrough_graph passthrough_world
    = (Ok passthrough_converted, passthrough_world_converted)
  ∧ f_parameters passthrough_converted.1 = []
  ∧ m_cache passthrough_converted.2 !! "drop1" = None
  ∧ m_cache passthrough_converted.2 !! "x" = Some (0, 0)
  ∧ m_cache passthrough_converted.2 !! "y" = Some (0, 0).
Proof.
  split; [vm_compute; reflexivity|]. split; [reflexivity|].
  split; [vm_compute; reflexivity|]. split; [reflexivity|].
  split; [vm_compute; reflexivity|]. split; [reflexivity|]. split; [reflexivity|].
  split.
  - apply (C7_pruned_placeholder_stays_in_cache (Env := env)
             passthrough_nodes_converted passthrough_nodes_world 0 "x").
    + by left.
    + reflexivity.
    + reflexivity.
    + vm_compute; reflexivity.
    + intros q Hq _. apply list_elem_of_singleton in Hq as ->. discriminate.
  - repeat split; vm_compute; reflexivity.
Defined.

(** The two Results of the model, converted and decoded, are named
    after the two declared outputs and the ports they read, and the two
    names differ. *)
Lemma C10_result_names_witness :
  (Graph_convert dangling_graph dangling_world
   = (Ok dangling_converted, dangling_world_converted)
   ∧ f_results dangling_converted.1 = [4; 5]
   ∧ get_friendly_name dangling_world_converted 4 = "y/sink_port_0"
   ∧ get_friendly_name dangling_world_converted 5 = "direct/sink_port_0"
   ∧ get_friendly_name dangling_world_converted 4
     ≠ get_friendly_name dangling_world_converted 5)
  ∧ (Graph_decode dangling_graph dangling_world
     = (Ok dangling_decoded, dangling_world_decoded)
     ∧ f_results dangling_decoded.1 = [4; 5]
     ∧ get_friendly_name dangling_world_decoded 4 = "y/sink_port_0"
     ∧ get_friendly_name dangling_world_decoded 5 = "direct/sink_port_0"
     ∧ get_friendly_name dangling_world_decoded 4
       ≠ get_friendly_name dangling_world_decoded 5).
Proof.
  assert (Hconvert : Graph_convert dangling_graph dangling_world
                     = (Ok (dangling_converted.1, dangling_converted.2),
                        dangling_world_converted)) by (vm_compute; reflexivity).
  assert (Hdecode : Graph_decode dangling_graph dangling_world
                    = (Ok (dangling_decoded.1, dangling_decoded.2),
                       dangling_world_decoded)) by (vm_compute; reflexivity).
  split.
  - split; [vm_compute; reflexivity|]. split; [reflexivity|].
    pose proof (C10_results_are_named_after_declared_outputs (Env := env)
                  _ _ _ _ _ (or_introl Hconvert)) as H.
    cbv zeta in H. destruct H as (_ & Hnamed & Hdistinct).
    split; [|split].
    + destruct (Hnamed 0 4 eq_refl) as (output & source & Ho & _ & Hin & Hname & _).
      vm_compute in Ho. injection Ho as <-. vm_compute in Hin. injection Hin as <-.
      exact Hname.
    + destruct (Hnamed 1 5 eq_refl) as (output & source & Ho & _ & Hin & Hname & _).
      vm_compute in Ho. injection Ho as <-. vm_compute in Hin. injection Hin as <-.
      exact Hname.
    + apply (Hdistinct 0 1 4 5 (value_info "y") (value_info "direct"));
        try reflexivity. discriminate.
  - split; [vm_compute; reflexivity|]. split; [reflexivity|].
    pose proof (C10_results_are_named_after_declared_outputs (Env := env)
                  _ _ _ _ _ (or_intror Hdecode)) as H.
    cbv zeta in H. destruct H as (_ & Hnamed & Hdistinct).
    split; [|split].
    + destruct (Hnamed 0 4 eq_refl) as (output & source & Ho & _ & Hin & Hname & _).
      vm_compute in Ho. injection Ho as <-. vm_compute in Hin. injection Hin as <-.
      exact Hname.
    + destruct (Hnamed 1 5 eq_refl) as (output & source & Ho & _ & Hin & Hname & _).
      vm_compute in Ho. injection Ho as <-. vm_compute in Hin. injection Hin as <-.
      exact Hname.
    + apply (Hdistinct 0 1 4 5 (value_info "y") (value_info "direct"));
        try reflexivity. discriminate.
Defined.

(** C10 as stated fails on the uniqueness.  The first unnamed node is
    named after its output, y/sink_port_0, which is the name the Result
    of the declared output y is given: two nodes of the function have
    one friendly name, after Graph::convert and after Graph::decode.
    And in a model that declares the output y twice, the two Results
    have one name. *)
Lemma C10_shared_name_counterexample :
  (Graph_new sink_named_model false empty_world = (Ok sink_named_graph, sink_named_world)
   ∧ Graph_convert sink_named_graph sink_named_world
     = (Ok sink_named_converted, sink_named_world_converted)
   ∧ f_results sink_named_converted.1 = [3]
   ∧ kind_of sink_named_world_converted 1 = Some (op_Other "Relu")
   ∧ kind_of sink_named_world_converted 3 = Some op_Result
   ∧ input_values sink_named_world_converted 2 = [(1, 0)]
   ∧ input_values sink_named_world_converted 3 = [(2, 0)]
   ∧ get_friendly_name sink_named_world_converted 1 = "y/sink_port_0"
   ∧ get_friendly_name sink_named_world_converted 3 = "y/sink_port_0")
  ∧ (Graph_decode sink_named_graph sink_named_world
     = (Ok sink_named_decoded, sink_named_world_decoded)
     ∧ f_results sink_named_decoded.1 = [3]
     ∧ kind_of sink_named_world_decoded 1 = Some op_ONNXFrameworkNode
     ∧ get_friendly_name sink_named_world_decoded 1 = "y/sink_port_0"
     ∧ get_friendly_name sink_named_world_decoded 3 = "y/sink_port_0")
  ∧ (Graph_new twice_declared_model false empty_world
     = (Ok twice_declared_graph, twice_declared_world)
     ∧ Graph_convert twice_declared_graph twice_declared_world
       = (Ok twice_declared_converted, twice_declared_world_converted)
     ∧ f_results twice_declared_converted.1 = [2; 3]
     ∧ get_friendly_name twice_declared_world_converted 2 = "y/sink_port_0"
     ∧ get_friendly_name twice_declared_world_converted 3 = "y/sink_port_0").
Proof. repeat split; vm_compute; reflexivity. Qed.



End Examples.

(** * The further properties on concrete models *)

Section FurtherExamples.
Import Sample.
Local Existing Instance env.

(** Two nodes of operator Gelu of the domain custom.ops. *)
Lemma X2_same_key_witness :
  get_node_domain gelu = get_node_domain gelu_again
  ∧ np_op_type gelu = np_op_type gelu_again.
Proof. apply (X2_key_identifies_the_operator gelu gelu_again); reflexivity. Defined.

(** Both unsupported operators are in the one message, in key order. *)
Lemma X3_combined_message_witness :
  ∃ w', Graph_ctor unsupported_model ∅ false empty_world
        = (Throw (mk_exn CheckFailure
                    "nGraph does not support the following ONNX operations: Nope, custom.ops.Swish"),
           w').
Proof.
  destruct (X3_unsupported_operators_are_reported_together (Env := env)
              unsupported_model ∅ false empty_world empty_world (∅, ∅))
    as ((w' & Hrun & _) & _); [reflexivity|by vm_compute|].
  exists w'. exact Hrun.
Defined.

(** The sample operator sets only grow. *)
Lemma sample_enabling_is_monotone : enabling_is_monotone (Env := env).
Proof.
  intros opset domain n. simpl. unfold available, enable.
  intros H. apply andb_true_iff in H as [Hin Hp]. apply andb_true_iff. split; [|done].
  apply bool_decide_eq_true in Hin. apply bool_decide_eq_true.
  destruct (bool_decide _); [done|]. apply elem_of_app. by left.
Qed.

(** The operator Nope of the default domain is reported. *)
Lemma X4_reported_witness :
  "Nope" ∈ (still_unknown false unsupported_model).*1.
Proof.
  apply (X4_unresolved_operator_is_reported (Env := env) false unsupported_model nope).
  - exact sample_enabling_is_monotone.
  - intros n' Hn' _. apply elem_of_cons in Hn' as [->|Hn']; [reflexivity|].
    apply list_elem_of_singleton in Hn' as ->. reflexivity.
  - right. by left.
  - reflexivity.
Defined.

(** Two nodes of Relu and one of Gelu: two events, Gelu first. *)
Lemma X5_statistics_witness :
  (∃ r w', Graph_ctor counted_model ∅ false empty_world = (r, w')
           ∧ w_events w' = w_events empty_world)
  ∧ (∃ r w' types,
       Graph_ctor counted_model ∅ true empty_world = (r, w')
       ∧ w_events w'
         = w_events empty_world
           ++ (op_count_event (gp_node (mp_graph counted_model)) <$> types)
       ∧ increasing types
       ∧ ∀ t, t ∈ types ↔ t ∈ np_op_type <$> gp_node (mp_graph counted_model)).
Proof.
  apply (X5_operator_counts_are_reported (Env := env) counted_model ∅ empty_world empty_world (∅, ∅)).
  reflexivity.
Defined.

(** The cache of shadowed_model holds w0 and x. *)
Lemma X6_cache_names_witness :
  dom (m_cache shadowed_graph)
  = dom (∅ : GraphCache)
    ∪ list_to_set (omap tp_name (gp_initializer (mp_graph shadowed_model)))
    ∪ list_to_set (vi_name <$> gp_input (mp_graph shadowed_model)).
Proof.
  apply (X6_constructed_cache_holds_initializers_and_inputs (Env := env)
           shadowed_model ∅ false empty_world shadowed_world shadowed_graph).
  vm_compute. reflexivity.
Defined.

(** The subgraph of the relu body resolves x in the parent scope. *)
Lemma X8_fresh_subgraph_witness :
  m_inputs_from_parent relu_subgraph = []
  ∧ get_ng_node_from_cache (Subgraph_scopes relu_subgraph) "x"
    = get_ng_node_from_cache [m_cache parent_graph] "x".
Proof.
  destruct (X8_fresh_subgraph_sees_the_parent_through_its_own_names (Env := env)
              (body_model "Relu" ["y"]) [m_cache parent_graph] false
              parent_world relu_world relu_subgraph)
    as (_ & Hnone & _ & _ & _ & _ & Hparent); [vm_compute; reflexivity|].
  split; [exact Hnone|]. apply Hparent; [|done].
  vm_compute. discriminate.
Defined.

(** The output y of relu is cached, bound to the converted output. *)
Lemma X9_cached_output_witness :
  m_cache relu_made.2 !! "y" = relu_made.1 !! 0
  ∧ is_ng_node_in_cache [m_cache relu_made.2] "y" = true.
Proof.
  destruct (X9_converted_outputs_are_cached (Env := env)
              dangling_graph relu_made.2 relu_node relu_made.1
              dangling_world relu_made_world)
    as (_ & _ & _ & Hthis & Hin); [vm_compute; reflexivity|].
  split.
  - apply (Hthis 0 "y"); [reflexivity|]. intros [|j'] Hj'; [lia|done].
  - apply Hin. by left.
Defined.

(** A constant declared with two outputs: the conversion gives one. *)
Lemma X10_too_few_outputs_witness :
  ∃ exc w', make_ng_nodes empty_graph (bare_node const_two_outputs) empty_world
            = (Throw exc, w')
            ∧ exn_cls exc = std_exception.
Proof.
  apply (X10_too_few_converted_outputs_are_an_error (Env := env)
           empty_graph (bare_node const_two_outputs) (operator "" "Const") [(0, 0)]
           empty_world const_world).
  - reflexivity.
  - vm_compute. reflexivity.
  - left. vm_compute. lia.
Defined.

(** An Identity node handing through the first of two nodes. *)
Lemma X11_identity_witness :
  ∃ w', set_friendly_names (bare_node identity) [(0, 0)] two_nodes = (Ok tt, w')
        ∧ names_of w' = names_of two_nodes
        ∧ "y" ∈ get_names w' (0, 0).
Proof.
  destruct (X11_identity_outputs_keep_their_friendly_names (Env := env)
              (bare_node identity) [(0, 0)] two_nodes)
    as (w' & Hrun & Hnames & _ & _ & Hin); [reflexivity|vm_compute; lia|].
  exists w'. split; [exact Hrun|]. split; [exact Hnames|].
  apply (Hin 0 (0, 0)); [reflexivity|]. vm_compute. eexists. reflexivity.
Defined.

(** The declared outputs of dangling_model, read after conversion. *)
Lemma X12_outputs_witness :
  get_ng_outputs [m_cache dangling_converted.2] (mp_graph dangling_model)
                 dangling_nodes_world
  = (Ok (filter (λ o, is_null dangling_nodes_world o = false) dangling_outputs),
     dangling_nodes_world).
Proof.
  destruct (X12_declared_outputs_are_read_from_the_cache
              [m_cache dangling_converted.2] (mp_graph dangling_model)
              dangling_nodes_world (gp_output (mp_graph dangling_model))
              dangling_outputs) as [Hall _].
  - repeat constructor.
  - by apply Hall.
Defined.

(** The Results of the function of dangling_model. *)
Lemma X13_results_witness :
  ∃ resolved,
    Forall2 (λ output o,
               get_ng_node_from_cache [m_cache dangling_converted.2] (vi_name output)
               = Ok o)
            (gp_output (mp_graph dangling_model)) resolved
    ∧ Forall2 (λ r o, input_values dangling_world_converted r = [o])
              (f_results dangling_converted.1)
              (filter (λ o, is_null dangling_nodes_world o = false) resolved).
Proof.
  destruct (X13_results_read_the_declared_outputs_in_order (Env := env)
              [] dangling_converted.2 dangling_converted.1
              dangling_nodes_world dangling_world_converted)
    as (resolved & Hres & Hread & _); [vm_compute; reflexivity|].
  exists resolved. split; [exact Hres|exact Hread].
Defined.

(** The declared outputs y and direct give two Result names. *)
Lemma X14_distinct_names_witness :
  NoDup (get_friendly_name dangling_world_converted <$> f_results dangling_converted.1).
Proof.
  destruct (X14_result_names_are_unique (Env := env)
              [] dangling_converted.2 dangling_converted.1
              dangling_nodes_world dangling_world_converted)
    as [_ Hnd]; [vm_compute; reflexivity|].
  apply Hnd. apply NoDup_cons. split.
  - intros H. apply list_elem_of_singleton in H. discriminate H.
  - apply NoDup_singleton.
Defined.

(** Pruning the graph of dangling_model a second time. *)
Lemma X15_pruning_witness :
  remove_dangling_parameters dangling_converted.2 dangling_nodes_world
  = (Ok dangling_converted.2, dangling_nodes_world).
Proof.
  destruct (X15_pruning_is_idempotent (Env := env)
              dangling_nodes_converted dangling_converted.2
              dangling_nodes_world dangling_nodes_world)
    as (_ & Hagain & _); [vm_compute; reflexivity|].
  exact Hagain.
Defined.

(** Decoding dangling_model keeps the input nobody reads. *)
Lemma X16_decoding_witness :
  f_parameters dangling_decoded.1 = m_parameters dangling_graph
  ∧ f_rt_info_graph dangling_decoded.1 = true.
Proof.
  destruct (X16_decoding_keeps_every_parameter (Env := env)
              dangling_graph dangling_decoded.2 dangling_decoded.1
              dangling_world dangling_world_decoded)
    as (Hpar & _ & _ & Hrt); [vm_compute; reflexivity|].
  split; [exact Hpar|exact Hrt].
Defined.

(** The relu body borrows x: one parameter, one parent value. *)
Lemma X17_borrowed_witness :
  ∃ lifted outs,
    f_parameters relu_converted.1 = m_parameters (sg_graph relu_subgraph) ++ lifted
    ∧ length lifted = length (m_inputs_from_parent relu_converted.2)
    ∧ get_inputs_from_parent relu_converted.2 relu_world_converted
      = (Ok outs, relu_world_converted).
Proof.
  destruct (X17_borrowed_values_match_the_lifted_parameters (Env := env)
              relu_subgraph relu_converted.2 relu_converted.1
              relu_world relu_world_converted)
    as (lifted & outs & Hpar & Hlen & _ & Hget & _);
    [left; vm_compute; reflexivity|reflexivity|].
  exists lifted, outs. split; [exact Hpar|]. split; [exact Hlen|exact Hget].
Defined.

(** Lifting the inputs of the relu body. *)
Lemma X18_lifting_witness :
  ∃ names, lifts (Env := env) names
                 (with_graph (Env := env) relu_subgraph relu_nodes_converted)
                 relu_world_nodes_converted relu_lifted relu_world_lifted.
Proof.
  apply (X18_lifting_only_adds_parameters (Env := env)
           (with_graph (Env := env) relu_subgraph relu_nodes_converted) relu_lifted
           relu_world_nodes_converted relu_world_lifted).
  vm_compute. reflexivity.
Defined.

(** The lifted parameter of the relu body follows the parent value x. *)
Lemma X19_inference_witness :
  ∃ w', infer_inputs_from_parent relu_lifted relu_world_lifted = (Ok tt, w')
        ∧ names_of w' = names_of relu_world_lifted
        ∧ get_element_type w' (2, 0) = get_element_type relu_world_lifted (0, 0).
Proof.
  destruct (X19_inferred_parameters_follow_the_parent (Env := env)
              relu_lifted relu_world_lifted)
    as (w' & Hrun & Hnames & _ & _ & Hthis).
  - intros p name Hp. change (({[2 := "x"]} : gmap nat string) !! p = Some name) in Hp.
    apply lookup_singleton_Some in Hp as [<- <-].
    exists (0, 0). split; reflexivity.
  - exists w'. split; [exact Hrun|]. split; [exact Hnames|].
    apply (Hthis 2 "x" (0, 0)); [reflexivity|reflexivity|].
    vm_compute. eexists. reflexivity.
Defined.

(** The two outputs of a named node, from two nodes. *)
Lemma X21_tensor_names_witness :
  ∃ w', set_friendly_names (bare_node named_two_outputs) [(0, 0); (1, 0)] two_nodes
        = (Ok tt, w')
        ∧ get_names w' (0, 0) = {["out1"]}
        ∧ get_names w' (1, 0) = {["out2"]}.
Proof.
  destruct (X21_converted_outputs_are_bound_to_their_declared_names (Env := env)
              (bare_node named_two_outputs) [(0, 0); (1, 0)] two_nodes)
    as (w' & Hrun & _ & _ & Hthis); [reflexivity|done|].
  exists w'. split; [exact Hrun|]. split.
  - apply (Hthis 0 (0, 0)); [reflexivity|vm_compute; lia| |reflexivity|].
    + intros [|[|j']] Hj' _; [lia|done|done].
    + vm_compute. eexists. reflexivity.
  - apply (Hthis 1 (1, 0)); [reflexivity|vm_compute; lia| |reflexivity|].
    + intros [|[|j']] Hj' _; [lia|lia|done].
    + vm_compute. eexists. reflexivity.
Defined.

(** After the nodes of dangling_model are converted, y resolves. *)
Lemma X22_node_outputs_witness :
  is_ng_node_in_cache [m_cache dangling_nodes_converted] "y" = true.
Proof.
  destruct (X22_every_node_output_is_cached (Env := env)
              [] dangling_graph dangling_nodes_converted
              dangling_world dangling_nodes_world)
    as (_ & _ & Hin); [left; vm_compute; reflexivity|].
  apply Hin. by left.
Defined.

(** An initializer too large to allocate aborts the construction. *)
Lemma X24_allocation_failure_witness :
  Graph_ctor huge_model ∅ false empty_world = (Throw allocation_failure, empty_world).
Proof.
  apply (X24_foreign_decode_failure_aborts_construction (Env := env)
           huge_model ∅ false [] [] huge_weights allocation_failure (∅, ∅)
           empty_world empty_world); reflexivity.
Defined.

End FurtherExamples.
